(** * Shallow embedding of the invoice-parsing pipeline and the carbon service

    Sources embedded (under [src/backend/app/services/]):
    - [improved_invoice_parser.py]: [ImprovedInvoiceParser] (heuristic table parser),
    - [llm_invoice_parser.py]: [LLMInvoiceParser] (hybrid orchestrator and
      structured-extraction client),
    - [carbon_service.py]: [CarbonService],
    - [ocr_service.py]: [OCRService._process_structured_data] (layout reconstruction).

    Python values are modelled as follows: [str] as [string] over ASCII,
    floats as rationals [Q] (only finite decimal values occur below),
    dicts built by the code as association lists kept in insertion order,
    and JSON values ([json.loads] results) as the inductive [JVal].
    The Python [re] module is modelled by a backtracking matcher over a parsed
    pattern, following the leftmost, priority-ordered semantics of [sre]. *)

From Stdlib Require Import Ascii String List ZArith QArith Qround Bool Lia Lqa.
From Stdlib Require Import Sorting.Sorted Sorting.Permutation Numbers.DecimalString.
Import ListNotations.
Set Warnings "-register-all".
Open Scope nat_scope.

(* ------------------------------------------------------------------ *)
(** ** Python runtime helpers *)

(** Python exceptions carry a message; [Raise] is an exception that escapes. *)
Inductive Exc (A : Type) : Type :=
| Ret : A -> Exc A
| Raise : string -> Exc A.
Arguments Ret {A} _.
Arguments Raise {A} _.

Definition exc_bind {A B} (m : Exc A) (f : A -> Exc B) : Exc B :=
  match m with Ret a => f a | Raise e => Raise e end.

Notation "'let*' x ':=' m 'in' f" := (exc_bind m (fun x => f))
  (at level 200, x name, m at level 100, f at level 200).

(** [str.isspace] on ASCII: \t \n \v \f \r, \x1c-\x1f and space. *)
Definition is_space (c : ascii) : bool :=
  let n := nat_of_ascii c in
  ((9 <=? n) && (n <=? 13)) || ((28 <=? n) && (n <=? 32)).

Definition is_digit (c : ascii) : bool :=
  let n := nat_of_ascii c in (48 <=? n) && (n <=? 57).

Definition char_lower (c : ascii) : ascii :=
  let n := nat_of_ascii c in
  if (65 <=? n) && (n <=? 90) then ascii_of_nat (n + 32) else c.

Definition char_upper (c : ascii) : ascii :=
  let n := nat_of_ascii c in
  if (97 <=? n) && (n <=? 122) then ascii_of_nat (n - 32) else c.

Definition str_lower (s : string) : string :=
  string_of_list_ascii (map char_lower (list_ascii_of_string s)).

Definition str_upper (s : string) : string :=
  string_of_list_ascii (map char_upper (list_ascii_of_string s)).

Fixpoint lstrip_l (l : list ascii) : list ascii :=
  match l with
  | c :: tl => if is_space c then lstrip_l tl else l
  | [] => []
  end.

(** [str.strip()] *)
Definition strip (s : string) : string :=
  string_of_list_ascii
    (rev (lstrip_l (rev (lstrip_l (list_ascii_of_string s))))).

Fixpoint is_prefix_l (p l : list ascii) : bool :=
  match p, l with
  | [], _ => true
  | a :: p', b :: l' => Ascii.eqb a b && is_prefix_l p' l'
  | _, [] => false
  end.

Fixpoint contains_l (p l : list ascii) : bool :=
  is_prefix_l p l || match l with [] => false | _ :: l' => contains_l p l' end.

(** [sub in s] *)
Definition contains (s sub : string) : bool :=
  contains_l (list_ascii_of_string sub) (list_ascii_of_string s).

Fixpoint split_l (sep : ascii) (l : list ascii) : list (list ascii) :=
  match l with
  | [] => [[]]
  | c :: tl =>
      if Ascii.eqb c sep then [] :: split_l sep tl
      else match split_l sep tl with
           | w :: ws => (c :: w) :: ws
           | [] => [[c]]
           end
  end.

(** [s.split(sep)] for a one-character separator. *)
Definition split (sep : ascii) (s : string) : list string :=
  map string_of_list_ascii (split_l sep (list_ascii_of_string s)).

(** [sep.join(l)] *)
Fixpoint join (sep : string) (l : list string) : string :=
  match l with
  | [] => ""
  | [x] => x
  | x :: tl => x ++ sep ++ join sep tl
  end.

Definition slen (s : string) : nat := String.length s.

(** [s.replace(',', '')] for a one-character pattern and empty replacement. *)
Definition remove_char (c : ascii) (s : string) : string :=
  string_of_list_ascii (filter (fun x => negb (Ascii.eqb x c)) (list_ascii_of_string s)).

(** Decimal digits. *)
Definition digit_val (c : ascii) : Z := Z.of_nat (nat_of_ascii c) - 48.

Fixpoint digits_val (acc : Z) (l : list ascii) : Z :=
  match l with [] => acc | c :: tl => digits_val (acc * 10 + digit_val c) tl end.

Fixpoint span_digits (l : list ascii) : list ascii * list ascii :=
  match l with
  | c :: tl => if is_digit c then let '(d, r) := span_digits tl in (c :: d, r) else ([], l)
  | [] => ([], [])
  end.

(** [float(s)] for a string: surrounding whitespace, an optional sign, digits with
    an optional fraction and an optional exponent.  The non-finite spellings
    ([inf], [nan]) and digit underscores are not representable in [Q] and are
    treated as a [ValueError]. *)
Definition float_of_string (s : string) : option Q :=
  let l := list_ascii_of_string (strip s) in
  let '(neg, l1) := match l with
                    | "-"%char :: tl => (true, tl)
                    | "+"%char :: tl => (false, tl)
                    | _ => (false, l) end in
  let '(ip, l2) := span_digits l1 in
  let '(fp, l3) := match l2 with
                   | "."%char :: tl => span_digits tl
                   | _ => ([], l2) end in
  if (length ip =? 0)%nat && (length fp =? 0)%nat then None else
  let mant := digits_val 0 (ip ++ fp) in
  let scale := Z.of_nat (length fp) in
  let e_res := match l3 with
               | [] => Some 0%Z
               | e :: tl =>
                   if Ascii.eqb (char_lower e) "e"%char then
                     let '(eneg, tl1) := match tl with
                                         | "-"%char :: t => (true, t)
                                         | "+"%char :: t => (false, t)
                                         | _ => (false, tl) end in
                     let '(ed, rest) := span_digits tl1 in
                     match ed, rest with
                     | _ :: _, [] => Some (if eneg then - digits_val 0 ed else digits_val 0 ed)%Z
                     | _, _ => None
                     end
                   else None
               end in
  match e_res with
  | None => None
  | Some ex =>
      let m := if neg then (- mant)%Z else mant in
      let ex' := (ex - scale)%Z in
      Some (if (0 <=? ex')%Z then inject_Z (m * 10 ^ ex')
            else Qmake m (Z.to_pos (10 ^ (- ex'))))
  end.

(* ------------------------------------------------------------------ *)
(** ** The [re] module *)

Module Re.

(** Members of a character class. *)
Inductive citem : Type :=
| CChar (c : ascii)
| CRange (lo hi : ascii)
| CSpace                         (* \s *)
| CDigit.                        (* \d *)

(** Parsed patterns.  [r+] is [r r*]; [r{m,n}] is [m] copies of [r] followed
    by [n-m] nested optional copies; the flag of [RStar]/[ROpt] is greediness. *)
Inductive regex : Type :=
| REps
| RLit (c : ascii)
| RAny                           (* . *)
| RClass (neg : bool) (items : list citem)
| RBol                           (* ^ *)
| REol                           (* $ *)
| RCat (r1 r2 : regex)
| RAlt (r1 r2 : regex)
| RStar (greedy : bool) (r : regex)
| ROpt (greedy : bool) (r : regex)
| RGroup (n : nat) (r : regex)
| RLook (r : regex).             (* (?=r) *)

Record flags := { icase : bool; dotall : bool }.
Definition NOFLAG : flags := {| icase := false; dotall := false |}.
Definition IGNORECASE : flags := {| icase := true; dotall := false |}.
Definition IGNORECASE_DOTALL : flags := {| icase := true; dotall := true |}.
Definition DOTALL : flags := {| icase := false; dotall := true |}.

Definition citem_match (c : ascii) (it : citem) : bool :=
  match it with
  | CChar d => Ascii.eqb c d
  | CRange lo hi => (nat_of_ascii lo <=? nat_of_ascii c) && (nat_of_ascii c <=? nat_of_ascii hi)
  | CSpace => is_space c
  | CDigit => is_digit c
  end.

Definition class_has (items : list citem) (c : ascii) : bool :=
  existsb (citem_match c) items.

(** Under IGNORECASE a character is in a class when it or one of its case
    variants is. *)
Definition class_match (fl : flags) (items : list citem) (c : ascii) : bool :=
  class_has items c ||
  (icase fl && (class_has items (char_lower c) || class_has items (char_upper c))).

Definition lit_match (fl : flags) (p c : ascii) : bool :=
  if icase fl then Ascii.eqb (char_lower p) (char_lower c) else Ascii.eqb p c.

(** Matcher state: current position, remaining input, captured spans. *)
Record mst := { pos : nat; rest : list ascii; caps : list (nat * (nat * nat)) }.

Definition advance (st : mst) (tl : list ascii) : mst :=
  {| pos := S (pos st); rest := tl; caps := caps st |}.

Definition set_cap (st : mst) (n : nat) (sp : nat * nat) : mst :=
  {| pos := pos st; rest := rest st; caps := (n, sp) :: caps st |}.

Definition orelse {A} (a : option A) (b : unit -> option A) : option A :=
  match a with Some x => Some x | None => b tt end.

(** Backtracking matcher in continuation-passing style.  Alternatives and
    quantifier iterations are tried in the priority order of [sre]; an
    iteration of [*] that consumes nothing ends the loop.  [fuel] bounds the
    number of iterations of one loop; every iteration consumes a character, so
    [fuel] = input length + 1 never cuts a loop short. *)
Fixpoint mt (fl : flags) (fuel : nat) (r : regex) (st : mst)
         (k : mst -> option mst) {struct r} : option mst :=
  match r with
  | REps => k st
  | RLit p =>
      match rest st with
      | c :: tl => if lit_match fl p c then k (advance st tl) else None
      | [] => None
      end
  | RAny =>
      match rest st with
      | c :: tl => if dotall fl || negb (Ascii.eqb c "010"%char) then k (advance st tl) else None
      | [] => None
      end
  | RClass neg items =>
      match rest st with
      | c :: tl => if xorb neg (class_match fl items c) then k (advance st tl) else None
      | [] => None
      end
  | RBol => if (pos st =? 0)%nat then k st else None
  | REol =>
      match rest st with
      | [] => k st
      | [c] => if Ascii.eqb c "010"%char then k st else None
      | _ => None
      end
  | RCat r1 r2 => mt fl fuel r1 st (fun st' => mt fl fuel r2 st' k)
  | RAlt r1 r2 => orelse (mt fl fuel r1 st k) (fun _ => mt fl fuel r2 st k)
  | ROpt g r1 =>
      if g then orelse (mt fl fuel r1 st k) (fun _ => k st)
      else orelse (k st) (fun _ => mt fl fuel r1 st k)
  | RStar g r1 =>
      (fix loop (f : nat) (st : mst) {struct f} : option mst :=
         match f with
         | O => k st
         | S f' =>
             let it := fun (_ : unit) =>
               mt fl fuel r1 st (fun st' => if (pos st' =? pos st)%nat then None else loop f' st') in
             if g then orelse (it tt) (fun _ => k st) else orelse (k st) it
         end) fuel st
  | RGroup n r1 =>
      let s0 := pos st in
      mt fl fuel r1 st (fun st' => k (set_cap st' n (s0, pos st')))
  | RLook r1 =>
      match mt fl fuel r1 st Some with
      | Some st' => k {| pos := pos st; rest := rest st; caps := caps st' |}
      | None => None
      end
  end.

(** A match: its span and the captured group spans. *)
Record mobj := { m_start : nat; m_end : nat; m_caps : list (nat * (nat * nat)); m_input : list ascii }.

Definition try_at (fl : flags) (r : regex) (input : list ascii) (p : nat) : option mobj :=
  match mt fl (S (length input)) r {| pos := p; rest := skipn p input; caps := [] |} Some with
  | Some st => Some {| m_start := p; m_end := pos st; m_caps := caps st; m_input := input |}
  | None => None
  end.

(** Leftmost match starting at a position [>= p]. *)
Fixpoint search_from (fl : flags) (r : regex) (input : list ascii) (p : nat) (n : nat) : option mobj :=
  match try_at fl r input p with
  | Some m => Some m
  | None => match n with O => None | S n' => search_from fl r input (S p) n' end
  end.

Definition substr (l : list ascii) (s e : nat) : string :=
  string_of_list_ascii (firstn (e - s) (skipn s l)).

(** [m.group(n)]; [None] when the group did not participate. *)
Definition group (m : mobj) (n : nat) : option string :=
  if (n =? 0)%nat then Some (substr (m_input m) (m_start m) (m_end m)) else
  match find (fun x => (fst x =? n)%nat) (m_caps m) with
  | Some (_, (s, e)) => Some (substr (m_input m) s e)
  | None => None
  end.

Definition group_or_empty (m : mobj) (n : nat) : string :=
  match group m n with Some s => s | None => "" end.

(** *** Pattern syntax (the subset used by the code, as [sre_parse] reads it) *)

Definition is_letter (c : ascii) : bool :=
  let n := nat_of_ascii c in ((65 <=? n) && (n <=? 90)) || ((97 <=? n) && (n <=? 122)).

(** An escape inside a class; unknown ASCII-letter escapes are errors. *)
Definition esc_item (c : ascii) : option citem :=
  if Ascii.eqb c "s"%char then Some CSpace
  else if Ascii.eqb c "d"%char then Some CDigit
  else if Ascii.eqb c "n"%char then Some (CChar "010"%char)
  else if Ascii.eqb c "t"%char then Some (CChar "009"%char)
  else if is_letter c then None
  else Some (CChar c).

(** Class members up to the closing bracket; a [']'] first is literal. *)
Fixpoint p_citems (l : list ascii) (first : bool) : option (list citem * list ascii) :=
  match l with
  | [] => None
  | "]"%char :: tl =>
      if first then
        match p_citems tl false with
        | Some (its, r) => Some (CChar "]"%char :: its, r)
        | None => None
        end
      else Some ([], tl)
  | "\"%char :: c :: tl =>
      match esc_item c, p_citems tl false with
      | Some it, Some (its, r) => Some (it :: its, r)
      | _, _ => None
      end
  | a :: (("-"%char :: b :: tl) as l2) =>
      if Ascii.eqb b "]"%char || Ascii.eqb b "\"%char then
        match p_citems l2 false with
        | Some (its, r) => Some (CChar a :: its, r)
        | None => None
        end
      else if (nat_of_ascii b <? nat_of_ascii a)%nat then None
      else
        match p_citems tl false with
        | Some (its, r) => Some (CRange a b :: its, r)
        | None => None
        end
  | a :: tl =>
      match p_citems tl false with
      | Some (its, r) => Some (CChar a :: its, r)
      | None => None
      end
  end.

Definition p_class (l : list ascii) : option (regex * list ascii) :=
  match l with
  | "^"%char :: tl =>
      match p_citems tl true with Some (its, r) => Some (RClass true its, r) | None => None end
  | _ =>
      match p_citems l true with Some (its, r) => Some (RClass false its, r) | None => None end
  end.

Fixpoint rep_copies (n : nat) (r : regex) : regex :=
  match n with O => REps | S n' => RCat r (rep_copies n' r) end.

Fixpoint rep_optional (g : bool) (n : nat) (r : regex) : regex :=
  match n with O => REps | S n' => ROpt g (RCat r (rep_optional g n' r)) end.

(** [{m}] or [{m,n}]; anything else after [{] is a literal brace. *)
Definition p_braces (l : list ascii) : option (nat * nat * list ascii) :=
  let '(d1, l1) := span_digits l in
  match d1 with
  | [] => None
  | _ =>
      let m := Z.to_nat (digits_val 0 d1) in
      match l1 with
      | "}"%char :: tl => Some (m, m, tl)
      | ","%char :: l2 =>
          let '(d2, l3) := span_digits l2 in
          match d2, l3 with
          | _ :: _, "}"%char :: tl => Some (m, Z.to_nat (digits_val 0 d2), tl)
          | _, _ => None
          end
      | _ => None
      end
  end.

Definition lazy_flag (l : list ascii) : bool * list ascii :=
  match l with "?"%char :: tl => (false, tl) | _ => (true, l) end.

(** A quantifier suffix applied to an atom. *)
Definition p_quant (a : regex) (l : list ascii) : option (regex * list ascii) :=
  match l with
  | "*"%char :: tl => let '(g, r) := lazy_flag tl in Some (RStar g a, r)
  | "+"%char :: tl => let '(g, r) := lazy_flag tl in Some (RCat a (RStar g a), r)
  | "?"%char :: tl => let '(g, r) := lazy_flag tl in Some (ROpt g a, r)
  | "{"%char :: tl =>
      match p_braces tl with
      | Some (m, n, r0) =>
          if (n <? m)%nat then None else
          let '(g, r) := lazy_flag r0 in
          Some (RCat (rep_copies m a) (rep_optional g (n - m) a), r)
      | None => Some (a, l)
      end
  | _ => Some (a, l)
  end.

(** Recursive descent: alternation, sequence, atom.  The group counter is
    threaded through; [None] is a compile error ([re.error]). *)
Fixpoint p_alt (f : nat) (s : list ascii) (g : nat) {struct f} : option (regex * list ascii * nat) :=
  match f with
  | O => None
  | S f' =>
      match p_seq f' s g with
      | Some (r1, "|"%char :: s1, g1) =>
          match p_alt f' s1 g1 with
          | Some (r2, s2, g2) => Some (RAlt r1 r2, s2, g2)
          | None => None
          end
      | o => o
      end
  end
with p_seq (f : nat) (s : list ascii) (g : nat) {struct f} : option (regex * list ascii * nat) :=
  match f with
  | O => None
  | S f' =>
      match s with
      | [] => Some (REps, [], g)
      | "|"%char :: _ => Some (REps, s, g)
      | ")"%char :: _ => Some (REps, s, g)
      | _ =>
          match p_atom f' s g with
          | Some (a, s1, g1) =>
              match p_quant a s1 with
              | Some (q, s2) =>
                  match p_seq f' s2 g1 with
                  | Some (r2, s3, g2) => Some (RCat q r2, s3, g2)
                  | None => None
                  end
              | None => None
              end
          | None => None
          end
      end
  end
with p_atom (f : nat) (s : list ascii) (g : nat) {struct f} : option (regex * list ascii * nat) :=
  match f with
  | O => None
  | S f' =>
      match s with
      | "("%char :: "?"%char :: ":"%char :: tl =>
          match p_alt f' tl g with
          | Some (r, ")"%char :: tl', g') => Some (r, tl', g')
          | _ => None
          end
      | "("%char :: "?"%char :: "="%char :: tl =>
          match p_alt f' tl g with
          | Some (r, ")"%char :: tl', g') => Some (RLook r, tl', g')
          | _ => None
          end
      | "("%char :: "?"%char :: _ => None       (* unknown extension *)
      | "("%char :: tl =>
          match p_alt f' tl (S g) with
          | Some (r, ")"%char :: tl', g') => Some (RGroup g r, tl', g')
          | _ => None
          end
      | "["%char :: tl =>
          match p_class tl with Some (r, tl') => Some (r, tl', g) | None => None end
      | "."%char :: tl => Some (RAny, tl, g)
      | "^"%char :: tl => Some (RBol, tl, g)
      | "$"%char :: tl => Some (REol, tl, g)
      | "\"%char :: c :: tl =>
          match esc_item c with
          | Some (CChar d) => Some (RLit d, tl, g)
          | Some it => Some (RClass false [it], tl, g)
          | None => None
          end
      | "*"%char :: _ => None                   (* nothing to repeat *)
      | "+"%char :: _ => None
      | "?"%char :: _ => None
      | c :: tl => Some (RLit c, tl, g)
      | [] => None
      end
  end.

(** [re.compile]: the pattern and its number of groups.  The fuel bounds the
    recursion depth; four levels per pattern character are enough. *)
Definition compile (pat : string) : Exc (regex * nat) :=
  let l := list_ascii_of_string pat in
  match p_alt (4 * length l + 8) l 1 with
  | Some (r, [], g) => Ret (r, pred g)
  | _ => Raise "re.error"
  end.

(** [re.search(pat, s, flags)] *)
Definition search (pat : string) (s : string) (fl : flags) : Exc (option mobj) :=
  let* c := compile pat in
  let l := list_ascii_of_string s in
  Ret (search_from fl (fst c) l 0 (length l)).

(** [re.match(pat, s, flags)] *)
Definition rmatch (pat : string) (s : string) (fl : flags) : Exc (option mobj) :=
  let* c := compile pat in
  Ret (try_at fl (fst c) (list_ascii_of_string s) 0).

(** Successive non-overlapping matches, left to right; after an empty match
    the scan resumes one character further. *)
Fixpoint iter_from (fl : flags) (r : regex) (l : list ascii) (p : nat) (n : nat) : list mobj :=
  match n with
  | O => []
  | S n' =>
      if (length l <? p)%nat then [] else
      match search_from fl r l p (length l - p) with
      | None => []
      | Some m =>
          m :: iter_from fl r l (if (m_end m =? m_start m)%nat then S (m_end m) else m_end m) n'
      end
  end.

(** [re.finditer(pat, s, flags)] *)
Definition finditer (pat : string) (s : string) (fl : flags) : Exc (list mobj) :=
  let* c := compile pat in
  let l := list_ascii_of_string s in
  Ret (iter_from fl (fst c) l 0 (S (length l))).

(** [re.findall(pat, s, flags)] for patterns with at most one group (all the
    call sites): the whole match, or group 1. *)
Definition findall (pat : string) (s : string) (fl : flags) : Exc (list string) :=
  let* c := compile pat in
  let l := list_ascii_of_string s in
  let ms := iter_from fl (fst c) l 0 (S (length l)) in
  Ret (map (fun m => if (snd c =? 0)%nat then group_or_empty m 0 else group_or_empty m 1) ms).

(** Replacement templates: literal text and [\n] group references. *)
Fixpoint expand (m : mobj) (t : list ascii) : string :=
  match t with
  | [] => ""
  | "\"%char :: ((d :: tl) as t2) =>
      if is_digit d then group_or_empty m (Z.to_nat (digit_val d)) ++ expand m tl
      else String "\"%char (expand m t2)
  | c :: tl => String c (expand m tl)
  end.

Fixpoint splice (l : list ascii) (t : list ascii) (last : nat) (ms : list mobj) : string :=
  match ms with
  | [] => substr l last (length l)
  | m :: tl => substr l last (m_start m) ++ expand m t ++ splice l t (m_end m) tl
  end.

(** [re.sub(pat, repl, s)] *)
Definition sub (pat repl : string) (s : string) (fl : flags) : Exc string :=
  let* c := compile pat in
  let l := list_ascii_of_string s in
  Ret (splice l (list_ascii_of_string repl) 0 (iter_from fl (fst c) l 0 (S (length l)))).

End Re.

(* ------------------------------------------------------------------ *)
(** ** JSON values and [json.loads] *)

(** Python values reachable from [json.loads] and from the dicts the parsers
    build.  Numbers (Python [int] or finite [float]) are rationals; dicts are
    association lists in insertion order with unique keys. *)
Inductive JVal : Type :=
| JNull
| JBool (b : bool)
| JNum (q : Q)
| JStr (s : string)
| JArr (l : list JVal)
| JObj (kv : list (string * JVal)).

(** [d.get(k)] on a dict. *)
Fixpoint dict_get (k : string) (d : list (string * JVal)) : option JVal :=
  match d with
  | [] => None
  | (k', v) :: tl => if String.eqb k k' then Some v else dict_get k tl
  end.

(** [d[k] = v]: an existing key keeps its position, a new key goes last. *)
Fixpoint dict_set (k : string) (v : JVal) (d : list (string * JVal)) : list (string * JVal) :=
  match d with
  | [] => [(k, v)]
  | (k', v') :: tl => if String.eqb k k' then (k', v) :: tl else (k', v') :: dict_set k v tl
  end.

(** Python truthiness. *)
Definition truthy (v : JVal) : bool :=
  match v with
  | JNull => false
  | JBool b => b
  | JNum q => negb (Qeq_bool q 0)
  | JStr s => negb (String.eqb s "")
  | JArr l => negb (Nat.eqb (length l) 0)
  | JObj kv => negb (Nat.eqb (length kv) 0)
  end.

Module Json.

Definition QUOTE : ascii := "034"%char.

Definition is_ws (c : ascii) : bool :=
  let n := nat_of_ascii c in Nat.eqb n 32 || Nat.eqb n 9 || Nat.eqb n 10 || Nat.eqb n 13.

Fixpoint skip_ws (l : list ascii) : list ascii :=
  match l with c :: tl => if is_ws c then skip_ws tl else l | [] => [] end.

Definition hex_val (c : ascii) : option nat :=
  let n := nat_of_ascii c in
  if (48 <=? n)%nat && (n <=? 57)%nat then Some (n - 48)%nat
  else if (97 <=? n)%nat && (n <=? 102)%nat then Some (n - 87)%nat
  else if (65 <=? n)%nat && (n <=? 70)%nat then Some (n - 55)%nat
  else None.

(** String body after the opening quote.  [\uXXXX] escapes are read for code
    points below 128 (the ASCII model of [str]); others are rejected. *)
Fixpoint p_string (l : list ascii) : option (list ascii * list ascii) :=
  match l with
  | [] => None
  | c :: tl =>
      if Ascii.eqb c QUOTE then Some ([], tl)
      else if Ascii.eqb c "\"%char then
        match tl with
        | e :: tl2 =>
            let simple :=
              if Ascii.eqb e QUOTE then Some QUOTE
              else if Ascii.eqb e "\"%char then Some "\"%char
              else if Ascii.eqb e "/"%char then Some "/"%char
              else if Ascii.eqb e "b"%char then Some "008"%char
              else if Ascii.eqb e "f"%char then Some "012"%char
              else if Ascii.eqb e "n"%char then Some "010"%char
              else if Ascii.eqb e "r"%char then Some "013"%char
              else if Ascii.eqb e "t"%char then Some "009"%char
              else None in
            match simple with
            | Some d =>
                match p_string tl2 with Some (s, r) => Some (d :: s, r) | None => None end
            | None =>
                if Ascii.eqb e "u"%char then
                  match tl2 with
                  | h1 :: h2 :: h3 :: h4 :: tl3 =>
                      match hex_val h1, hex_val h2, hex_val h3, hex_val h4 with
                      | Some a, Some b, Some c', Some d =>
                          let cp := (((a * 16 + b) * 16 + c') * 16 + d)%nat in
                          if (cp <? 128)%nat then
                            match p_string tl3 with
                            | Some (s, r) => Some (ascii_of_nat cp :: s, r)
                            | None => None
                            end
                          else None
                      | _, _, _, _ => None
                      end
                  | _ => None
                  end
                else None
            end
        | [] => None
        end
      else if (nat_of_ascii c <? 32)%nat then None     (* control character *)
      else match p_string tl with Some (s, r) => Some (c :: s, r) | None => None end
  end.

(** Number: optional minus, an integer part without leading zeros, an
    optional fraction and an optional exponent (RFC 8259). *)
Definition p_number (l : list ascii) : option (Q * list ascii) :=
  let '(neg, l1) := match l with "-"%char :: tl => (true, tl) | _ => (false, l) end in
  let '(ip, l2) := span_digits l1 in
  match ip with
  | [] => None
  | d0 :: drest =>
      let '(ip', l2') := if Ascii.eqb d0 "0"%char then ([d0], drest ++ l2) else (ip, l2) in
      let '(fp, l3, okf) := match l2' with
                            | "."%char :: tl =>
                                let '(fp, r) := span_digits tl in (fp, r, negb (Nat.eqb (length fp) 0))
                            | _ => ([], l2', true) end in
      if negb okf then None else
      let '(ex, l4, oke) :=
        match l3 with
        | e :: tl =>
            if Ascii.eqb e "e"%char || Ascii.eqb e "E"%char then
              let '(eneg, tl1) := match tl with
                                  | "-"%char :: t => (true, t)
                                  | "+"%char :: t => (false, t)
                                  | _ => (false, tl) end in
              let '(ed, r) := span_digits tl1 in
              ((if eneg then - digits_val 0 ed else digits_val 0 ed)%Z, r, negb (Nat.eqb (length ed) 0))
            else (0%Z, l3, true)
        | [] => (0%Z, l3, true)
        end in
      if negb oke then None else
      let mant := digits_val 0 (ip' ++ fp) in
      let m := if neg then (- mant)%Z else mant in
      let ex' := (ex - Z.of_nat (length fp))%Z in
      Some (if (0 <=? ex')%Z then inject_Z (m * 10 ^ ex')
            else Qmake m (Z.to_pos (10 ^ (- ex'))), l4)
  end.

(** Values, array elements and object members, by recursion on a nesting
    bound ([NaN] and [Infinity] are not representable and are rejected). *)
Fixpoint p_value (f : nat) (l : list ascii) {struct f} : option (JVal * list ascii) :=
  match f with
  | O => None
  | S f' =>
      match skip_ws l with
      | "{"%char :: tl =>
          match skip_ws tl with
          | "}"%char :: tl' => Some (JObj [], tl')
          | _ => p_members f' tl []
          end
      | "["%char :: tl =>
          match skip_ws tl with
          | "]"%char :: tl' => Some (JArr [], tl')
          | _ => p_elements f' tl []
          end
      | c :: tl =>
          if Ascii.eqb c QUOTE then
            match p_string tl with
            | Some (s, r) => Some (JStr (string_of_list_ascii s), r)
            | None => None
            end
          else if is_prefix_l (list_ascii_of_string "true") (c :: tl)
          then Some (JBool true, skipn 4 (c :: tl))
          else if is_prefix_l (list_ascii_of_string "false") (c :: tl)
          then Some (JBool false, skipn 5 (c :: tl))
          else if is_prefix_l (list_ascii_of_string "null") (c :: tl)
          then Some (JNull, skipn 4 (c :: tl))
          else match p_number (c :: tl) with
               | Some (q, r) => Some (JNum q, r)
               | None => None
               end
      | [] => None
      end
  end
with p_elements (f : nat) (l : list ascii) (acc : list JVal) {struct f} : option (JVal * list ascii) :=
  match f with
  | O => None
  | S f' =>
      match p_value f' l with
      | Some (v, r) =>
          match skip_ws r with
          | ","%char :: r' => p_elements f' r' (acc ++ [v])
          | "]"%char :: r' => Some (JArr (acc ++ [v]), r')
          | _ => None
          end
      | None => None
      end
  end
with p_members (f : nat) (l : list ascii) (acc : list (string * JVal)) {struct f} : option (JVal * list ascii) :=
  match f with
  | O => None
  | S f' =>
      match skip_ws l with
      | c :: tl =>
          if Ascii.eqb c QUOTE then
            match p_string tl with
            | Some (k, r) =>
                match skip_ws r with
                | ":"%char :: r' =>
                    match p_value f' r' with
                    | Some (v, r2) =>
                        let acc' := dict_set (string_of_list_ascii k) v acc in
                        match skip_ws r2 with
                        | ","%char :: r3 => p_members f' r3 acc'
                        | "}"%char :: r3 => Some (JObj acc', r3)
                        | _ => None
                        end
                    | None => None
                    end
                | _ => None
                end
            | None => None
            end
          else None
      | [] => None
      end
  end.

(** [json.loads(s)]: one value, surrounded by whitespace only; [None] is a
    [JSONDecodeError]. *)
Definition loads (s : string) : option JVal :=
  let l := list_ascii_of_string s in
  match p_value (3 * length l + 3) l with
  | Some (v, r) => match skip_ws r with [] => Some v | _ => None end
  | None => None
  end.

End Json.

(** [str(x)] of a JSON value.  Strings print as themselves, [None], [True],
    [False] as in Python, integers in decimal.  Non-integral numbers print as
    [num/den] and containers in a bracketed form: Python's float repr and
    string escaping are not reproduced (the code only uses [str] of names,
    units and categories). *)
Definition z_str (z : Z) : string := NilEmpty.string_of_int (Z.to_int z).

Definition num_str (q : Q) : string :=
  if Z.eqb (Zpos (Qden q)) 1 then z_str (Qnum q)
  else (z_str (Qnum q) ++ "/" ++ z_str (Zpos (Qden q)))%string.

Fixpoint py_repr (v : JVal) : string :=
  match v with
  | JNull => "None"
  | JBool true => "True"
  | JBool false => "False"
  | JNum q => num_str q
  | JStr s => ("'" ++ s ++ "'")%string
  | JArr l => ("[" ++ join ", " (map py_repr l) ++ "]")%string
  | JObj kv =>
      ("{" ++ join ", " (map (fun kv => "'" ++ fst kv ++ "': " ++ py_repr (snd kv)) kv) ++ "}")%string
  end.

Definition py_str (v : JVal) : string :=
  match v with JStr s => s | _ => py_repr v end.

(** [float(x)]; [None] is a [ValueError] or [TypeError]. *)
Definition py_float (v : JVal) : option Q :=
  match v with
  | JNum q => Some q
  | JBool b => Some (if b then 1 else 0)%Q
  | JStr s => float_of_string s
  | _ => None
  end.

(** [d.get(k, default)] *)
Definition get_or (k : string) (d : list (string * JVal)) (dflt : JVal) : JVal :=
  match dict_get k d with Some v => v | None => dflt end.

(* ------------------------------------------------------------------ *)
(** ** [LLMInvoiceParser] (llm_invoice_parser.py) *)

Module LLMInvoiceParser.
Local Open Scope string_scope.

(** The item dict built in [_validate_and_clean_data]; [None] when a
    coercion raises [ValueError]/[TypeError] ([continue]). *)
Definition clean_item (item : list (string * JVal)) : option (list (string * JVal)) :=
  let name := strip (py_str (get_or "name" item (JStr "Unknown Item"))) in
  match py_float (get_or "quantity" item (JNum 1)) with
  | None => None
  | Some quantity =>
  let unit := strip (str_lower (py_str (get_or "unit" item (JStr "each")))) in
  match py_float (get_or "price" item (JNum 0)) with
  | None => None
  | Some price =>
  let category := strip (str_lower (py_str (get_or "category" item (JStr "other")))) in
  match py_float (get_or "confidence" item (JNum (8 # 10))) with
  | None => None
  | Some confidence =>
      Some [("name", JStr name); ("quantity", JNum quantity); ("unit", JStr unit);
            ("price", JNum price); ("category", JStr category);
            ("confidence", JNum confidence); ("attributes", JObj [])]
  end end end.

(** [if cleaned_item["name"] and cleaned_item["price"] > 0] *)
Definition item_ok (ci : list (string * JVal)) : bool :=
  match dict_get "name" ci, dict_get "price" ci with
  | Some (JStr n), Some (JNum p) => negb (String.eqb n "") && negb (Qle_bool p 0)
  | _, _ => false
  end.

Fixpoint valid_items (items : list JVal) : list (list (string * JVal)) :=
  match items with
  | [] => []
  | JObj it :: tl =>
      match clean_item it with
      | Some ci => if item_ok ci then ci :: valid_items tl else valid_items tl
      | None => valid_items tl
      end
  | _ :: tl => valid_items tl                    (* not isinstance(item, dict) *)
  end.

(** [for item in items]: a list iterates its elements, a string its characters,
    a dict its keys; other values raise [TypeError]. *)
Definition iterate (v : JVal) : Exc (list JVal) :=
  match v with
  | JArr l => Ret l
  | JStr s => Ret (map (fun c => JStr (String c EmptyString)) (list_ascii_of_string s))
  | JObj kv => Ret (map (fun kv => JStr (fst kv)) kv)
  | _ => Raise "TypeError: object is not iterable"
  end.

Fixpoint categorize (acc : list (string * JVal)) (items : list (list (string * JVal))) : list (string * JVal) :=
  match items with
  | [] => acc
  | it :: tl =>
      let c := py_str (get_or "category" it JNull) in
      let prev := match dict_get c acc with Some (JArr l) => l | _ => [] end in
      categorize (dict_set c (JArr (app prev [JObj it])) acc) tl
  end.

(** [_validate_and_clean_data] *)
Definition validate_and_clean_data (data : JVal) : Exc JVal :=
  match data with
  | JObj d =>
      let total := match get_or "total_amount" d JNull with
                   | JNull => JNull
                   | t => match py_float t with Some q => JNum q | None => JNull end
                   end in
      let* items := iterate (get_or "items" d (JArr [])) in
      let vi := valid_items items in
      Ret (JObj [("vendor_name", get_or "vendor_name" d JNull);
                 ("total_amount", total);
                 ("invoice_date", get_or "invoice_date" d JNull);
                 ("items", JArr (map JObj vi));
                 ("categorized_items", JObj (categorize [] vi));
                 ("parsing_confidence", get_or "parsing_confidence" d (JNum (8 # 10)));
                 ("item_count", JNum (inject_Z (Z.of_nat (length vi))))])
  | _ => Raise "AttributeError: object has no attribute 'get'"
  end.

Definition json_block_pattern : string := "(\{(?:[^{}]|(?R))*\})".

Fixpoint first_loadable (ms : list string) : JVal :=
  match ms with
  | [] => JNull
  | m :: tl => match Json.loads (strip m) with Some v => v | None => first_loadable tl end
  end.

(** [_extract_json_from_response]: [JNull] is Python's [None]. *)
Definition extract_json_from_response (llm_output : string) : Exc JVal :=
  let cleaned_output := strip llm_output in
  match Json.loads cleaned_output with
  | Some v => Ret v
  | None =>
      let* matches := Re.findall json_block_pattern cleaned_output Re.DOTALL in
      Ret (first_loadable matches)
  end.

(** What [requests.post] gives back: an exception (connection error, timeout)
    or a status code and a body. *)
Inductive HttpOutcome : Type :=
| HttpRaise (msg : string)
| HttpResp (status_code : Z) (text : string).

(** [_llm_parse_with_prompt]: every exception is caught, so the result is a
    validated dict or [None] ([JNull]). *)
Definition llm_parse_with_prompt (resp : HttpOutcome) : JVal :=
  match resp with
  | HttpRaise _ => JNull
  | HttpResp status text =>
      if negb (Z.eqb status 200) then JNull else
      match Json.loads text with                              (* response.json() *)
      | Some (JObj result) =>
          match get_or "response" result (JStr "") with
          | JStr o =>
              let llm_output := strip o in
              if String.eqb llm_output "" then JNull else
              match extract_json_from_response llm_output with
              | Ret parsed_data =>
                  if truthy parsed_data then
                    match validate_and_clean_data parsed_data with
                    | Ret v => v
                    | Raise _ => JNull
                    end
                  else JNull
              | Raise _ => JNull
              end
          | _ => JNull                                          (* .strip() on a non-str *)
          end
      | _ => JNull                                              (* decode error / .get on a non-dict *)
      end
  end.

Definition money_pattern : string := "\$([0-9,]+\.?[0-9]*)".
Definition date_pattern : string := "([A-Za-z]{3,9}\s+[0-9]{1,2},?\s+[0-9]{2,4})".

Definition vendor_words : list string := ["DISTRIBUTORS"; "COMPANY"; "FARM"; "MARKET"].

Fixpoint fb_vendor (lines : list string) : JVal :=
  match lines with
  | [] => JNull
  | l :: tl =>
      let line := strip l in
      if (5 <? slen line)%nat && existsb (fun w => contains (str_upper line) w) vendor_words
      then JStr line else fb_vendor tl
  end.

(** Lines scanned bottom-up; a failed [float] is passed over ([except: pass]). *)
Fixpoint fb_total (rev_lines : list string) : Exc JVal :=
  match rev_lines with
  | [] => Ret JNull
  | line :: tl =>
      if contains (str_lower line) "total" && contains line "$" then
        let* m := Re.search money_pattern line Re.NOFLAG in
        match m with
        | Some mo =>
            match float_of_string (remove_char ","%char (Re.group_or_empty mo 1)) with
            | Some q => Ret (JNum q)
            | None => fb_total tl
            end
        | None => fb_total tl
        end
      else fb_total tl
  end.

Fixpoint fb_date (lines : list string) : Exc JVal :=
  match lines with
  | [] => Ret JNull
  | line :: tl =>
      let* m := Re.search date_pattern line Re.NOFLAG in
      match m with
      | Some mo => Ret (JStr (Re.group_or_empty mo 1))
      | None => fb_date tl
      end
  end.

(** [_fallback_parse] *)
Definition fallback_parse (ocr_text : string) : Exc (list (string * JVal)) :=
  let lines := split "010"%char ocr_text in
  let vendor_name := fb_vendor (firstn 5 lines) in
  let* total_amount := fb_total (rev lines) in
  let* invoice_date := fb_date (firstn 10 lines) in
  Ret [("success", JBool true); ("vendor_name", vendor_name);
       ("total_amount", total_amount); ("invoice_date", invoice_date);
       ("items", JArr []); ("categorized_items", JObj []);
       ("parsing_confidence", JNum (3 # 10)); ("item_count", JNum 0)].

(** [_empty_result] *)
Definition empty_result : list (string * JVal) :=
  [("success", JBool true); ("vendor_name", JNull); ("total_amount", JNull);
   ("invoice_date", JNull); ("items", JArr []); ("categorized_items", JObj []);
   ("parsing_confidence", JNum 0); ("item_count", JNum 0)].

(** [parse_invoice], with the service probe and the structured-extraction
    step as parameters: [available] is the result of [_check_ollama_available]
    (which catches its own exceptions), [step text regex_result] stands for
    [_create_parsing_prompt] followed by [_llm_parse_with_prompt]. *)
Definition parse_invoice_with (available : bool) (step : string -> JVal -> Exc JVal)
           (ocr_text : string) : Exc JVal :=
  if String.eqb ocr_text "" || (slen (strip ocr_text) <? 10)%nat then Ret (JObj empty_result) else
  let* regex_result := fallback_parse ocr_text in
  let body : Exc JVal :=
    if negb available then Ret (JObj (dict_set "parsing_method" (JStr "regex-only") regex_result))
    else
      let* parsed_data := step ocr_text (JObj regex_result) in
      if truthy parsed_data then
        match parsed_data with
        | JObj d => Ret (JObj (dict_set "regex_result" (JObj regex_result)
                                 (dict_set "parsing_method" (JStr "llm+regex") d)))
        | _ => Raise "TypeError: item assignment"
        end
      else Ret (JObj (dict_set "parsing_method" (JStr "regex-fallback") regex_result)) in
  match body with
  | Ret v => Ret v
  | Raise e => Ret (JObj (dict_set "llm_error" (JStr e)
                          (dict_set "parsing_method" (JStr "regex-except") regex_result)))
  end.

(** [parse_invoice] against a service whose reply to the prompt built from
    the text and the heuristic result is [service text regex_result]. *)
Definition parse_invoice (available : bool) (service : string -> JVal -> HttpOutcome)
           (ocr_text : string) : Exc JVal :=
  parse_invoice_with available (fun t rr => Ret (llm_parse_with_prompt (service t rr))) ocr_text.

(** [self.model in name] for a listed name: a substring test for a string,
    membership for a list or a dict (its keys); other values raise
    [TypeError]. *)
Definition py_in (needle : string) (hay : JVal) : Exc bool :=
  match hay with
  | JStr s => Ret (contains s needle)
  | JArr l => Ret (existsb (fun v => match v with JStr s => String.eqb s needle | _ => false end) l)
  | JObj kv => Ret (existsb (fun kv => String.eqb (fst kv) needle) kv)
  | _ => Raise "TypeError: argument is not iterable"
  end.

(** [any(self.model in name for name in model_names)], stopping at the first
    hit. *)
Fixpoint any_in (needle : string) (names : list JVal) : Exc bool :=
  match names with
  | [] => Ret false
  | n :: tl => let* b := py_in needle n in if b then Ret true else any_in needle tl
  end.

(** [model['name']] *)
Definition model_name (m : JVal) : Exc JVal :=
  match m with
  | JObj d => match dict_get "name" d with Some v => Ret v | None => Raise "KeyError: 'name'" end
  | _ => Raise "TypeError: indices must be integers"
  end.

Fixpoint map_exc {A B} (f : A -> Exc B) (l : list A) : Exc (list B) :=
  match l with
  | [] => Ret []
  | x :: tl => let* y := f x in let* ys := map_exc f tl in Ret (y :: ys)
  end.

(** [model_names] from the body of the [/api/tags] reply:
    [response.json().get('models', [])], then [model['name']] for each. *)
Definition list_model_names (text : string) : Exc (list JVal) :=
  match Json.loads text with
  | Some (JObj r) =>
      let* models := iterate (get_or "models" r (JArr [])) in
      map_exc model_name models
  | Some _ => Raise "AttributeError: object has no attribute 'get'"
  | None => Raise "JSONDecodeError"
  end.

(** [_check_ollama_available], given the configured model and the reply to
    [GET /api/tags]: the returned flag and the value of [self.model]
    afterwards.  Every exception is caught and gives [False]. *)
Definition check_ollama_available (model : string) (resp : HttpOutcome) : bool * string :=
  let body : Exc (bool * string) :=
    match resp with
    | HttpRaise e => Raise e
    | HttpResp status text =>
        if negb (Z.eqb status 200) then Ret (false, model) else
        let* model_names := list_model_names text in
        let* model_available := any_in model model_names in
        if model_available then Ret (true, model) else
        match model_names with
        | [] => Ret (false, model)
        | JStr n :: _ => Ret (true, hd "" (split ":"%char n))
        | _ :: _ => Raise "AttributeError: object has no attribute 'split'"
        end
    end in
  match body with
  | Ret r => r
  | Raise _ => (false, model)
  end.

End LLMInvoiceParser.

(* ------------------------------------------------------------------ *)
(** ** [ImprovedInvoiceParser] (improved_invoice_parser.py) *)

Module ImprovedInvoiceParser.
Local Open Scope string_scope.

(** The [ExtractedItem] dataclass ([attributes] is always [{}] here). *)
Record ExtractedItem := {
  name : string;
  quantity : Q;
  unit : string;
  price : Q;
  category : string;
  confidence : Q
}.

Definition ingredient_categories : list (string * list string) :=
  [("protein", ["beef"; "chicken"; "pork"; "fish"; "tuna"; "salmon"; "ribeye"; "steak"]);
   ("vegetables", ["carrot"; "kale"; "arugula"; "potato"; "basil"; "onion"; "tomato"]);
   ("dairy", ["milk"; "cheese"; "butter"; "cream"; "eggs"]);
   ("grains", ["rice"; "bread"; "flour"; "pasta"]);
   ("beverages", ["water"; "coffee"; "tea"; "juice"]);
   ("other", [])].

(** [_categorize_ingredient] *)
Definition categorize_ingredient (nm : string) : string :=
  if String.eqb nm "" then "other" else
  let name_lower := str_lower nm in
  match find (fun ck => existsb (fun kw => contains name_lower kw) (snd ck)) ingredient_categories with
  | Some (c, _) => c
  | None => "other"
  end.

(** [_clean_text]: [\s+] (which includes newlines) becomes one space, then a
    space is put between a lower-case and an upper-case letter. *)
Definition clean_text (text : string) : Exc string :=
  let* t1 := Re.sub "\s+" " " text Re.NOFLAG in
  Re.sub "([a-z])([A-Z])" "\1 \2" t1 Re.NOFLAG.

Definition total_patterns_extended : list string :=
  ["TOTAL[:]\s*\$?([0-9,]+\.?[0-9]*)";
   "(?:Grand\s+)?Total[:]\s*\$?([0-9,]+\.?[0-9]*)";
   "Amount\s+Due[:]\s*\$?([0-9,]+\.?[0-9]*)";
   "Balance[:]\s*\$?([0-9,]+\.?[0-9]*)";
   "TOTAL\s*[:]\s*\$([0-9,]+\.?[0-9]*)";
   "TOTAL\s+\$([0-9,]+\.?[0-9]*)";
   "\$([0-9,]+\.?[0-9]*)\s*$"].

Definition total_patterns_global : list string :=
  ["TOTAL[:]\s*\$([0-9,]+\.?[0-9]*)";
   "TOTAL\s*[:]\s*\$([0-9,]+\.?[0-9]*)"].

(** The inner [for pattern in ...] loop: the first pattern whose group 1
    converts with [float] wins; a failed conversion moves to the next pattern. *)
Fixpoint try_total_patterns (pats : list string) (s : string) : Exc (option Q) :=
  match pats with
  | [] => Ret None
  | p :: tl =>
      let* m := Re.search p s Re.IGNORECASE in
      match m with
      | Some mo =>
          match float_of_string (remove_char ","%char (Re.group_or_empty mo 1)) with
          | Some amount => Ret (Some amount)
          | None => try_total_patterns tl s
          end
      | None => try_total_patterns tl s
      end
  end.

(** [for line in reversed(lines)], skipping lines that mention a subtotal. *)
Fixpoint total_scan (rev_lines : list string) : Exc (option Q) :=
  match rev_lines with
  | [] => Ret None
  | l :: tl =>
      let line := strip l in
      if contains (str_lower line) "subtotal" then total_scan tl else
      let* r := try_total_patterns total_patterns_extended line in
      match r with
      | Some amount => Ret (Some amount)
      | None => total_scan tl
      end
  end.

(** [_extract_total] *)
Definition extract_total (lines : list string) : Exc (option Q) :=
  let* r := total_scan (rev lines) in
  match r with
  | Some amount => Ret (Some amount)
  | None => try_total_patterns total_patterns_global (join " " lines)
  end.

(** The [total_amount] field of [parse_invoice]. *)
Definition parse_invoice_total (ocr_text : string) : Exc (option Q) :=
  if String.eqb ocr_text "" then Ret None else
  let* cleaned_text := clean_text ocr_text in
  extract_total (split "010"%char cleaned_text).

Definition row_patterns : list string :=
  ["^(\d+)\s+(lb|box|case|bottle|gal|bb)\s+([^($]*?)(?:\([^)]*\))?\s*([^$]*?)\s*\$([0-9]+\.?[0-9]*).*?$";
   "^(\d+)\s+(lb|box|case|bottle|gal|bb)\s+([^$]*?)\s*\$([0-9]+\.?[0-9]*).*?$";
   "^(\d+)\s+(lb|box|case|bottle|gal|bb)\s+(.*?)\s*\$([0-9]+\.?[0-9]*).*?$"].

Definition int_of_digits (s : string) : Z := digits_val 0 (list_ascii_of_string s).

Definition float_or_raise (s : string) : Exc Q :=
  match float_of_string s with Some q => Ret q | None => Raise "ValueError" end.

(** Body of the [if match:] branch for pattern number [idx]. *)
Definition row_item (idx : nat) (mo : Re.mobj) : Exc ExtractedItem :=
  let g := Re.group_or_empty mo in
  let qty := int_of_digits (g 1) in
  let u := str_lower (g 2) in
  let* pr_name :=
    if Nat.eqb idx 0 then
      let description := strip (g 3) in
      let origin := strip (g 4) in
      let* pr := float_or_raise (g 5) in
      Ret (pr, strip (description ++ " " ++ origin))
    else
      let description := strip (g 3) in
      let* pr := float_or_raise (g 4) in
      Ret (pr, description) in
  let '(pr, full_name0) := pr_name in
  let* full_name1 := Re.sub "\s+" " " full_name0 Re.NOFLAG in
  let full_name2 := strip full_name1 in
  let full_name := if String.eqb full_name2 "" then "Unknown Item" else full_name2 in
  Ret {| name := full_name; quantity := inject_Z qty; unit := u; price := pr;
         category := categorize_ingredient full_name; confidence := 95 # 100 |}.

Fixpoint try_row_patterns (idx : nat) (pats : list string) (line : string) : Exc (option ExtractedItem) :=
  match pats with
  | [] => Ret None
  | p :: tl =>
      let* m := Re.rmatch p line Re.IGNORECASE in
      match m with
      | Some mo => let* it := row_item idx mo in Ret (Some it)
      | None => try_row_patterns (S idx) tl line
      end
  end.

(** The last-resort extraction after the three patterns. *)
Definition row_fallback (line : string) : Exc (option ExtractedItem) :=
  let* price_match := Re.search "\$([0-9]+\.?[0-9]*)" line Re.NOFLAG in
  match price_match with
  | None => Ret None
  | Some pm =>
      let* pr := float_or_raise (Re.group_or_empty pm 1) in
      let* qty_match := Re.search "^(\d+)" (strip line) Re.NOFLAG in
      let* qty := match qty_match with
                  | Some qm => float_or_raise (Re.group_or_empty qm 1)
                  | None => Ret 1%Q
                  end in
      let* unit_match := Re.search "\d+\s*(lb|box|case|bottle|gal|bb)" line Re.IGNORECASE in
      let u := match unit_match with
               | Some um => str_lower (Re.group_or_empty um 1)
               | None => "each"
               end in
      let l := list_ascii_of_string line in
      let* nm := match unit_match with
                 | Some um => Ret (strip (Re.substr l (Re.m_end um) (Re.m_start pm)))
                 | None =>
                     let n0 := strip (Re.substr l 0 (Re.m_start pm)) in
                     let* n1 := Re.sub "^\d+\s*" "" n0 Re.NOFLAG in
                     Ret (strip n1)
                 end in
      if negb (String.eqb nm "") && (2 <? slen nm)%nat then
        Ret (Some {| name := nm; quantity := qty; unit := u; price := pr;
                     category := categorize_ingredient nm; confidence := 7 # 10 |})
      else Ret None
  end.

(** [_parse_table_row] *)
Definition parse_table_row (line : string) : Exc (option ExtractedItem) :=
  let* r := try_row_patterns 0 row_patterns line in
  match r with
  | Some it => Ret (Some it)
  | None => row_fallback line
  end.

(** [_looks_like_table_row] *)
Definition looks_like_table_row (line : string) : Exc bool :=
  let* m := Re.rmatch "^\s*\d+\s+[a-zA-Z]+\s+.*\$\d+\.?\d*" line Re.NOFLAG in
  match m with
  | Some _ => Ret true
  | None =>
      if contains line "|" && contains line "$" then Ret true
      else Ret (existsb (fun food => contains (str_lower line) food)
                        ["beef"; "chicken"; "kale"; "basil"; "arugula"; "carrot"; "organic"]
                && contains line "$")
  end.

Definition unit_words : list string := ["lb"; "box"; "case"; "bottle"; "gal"; "bb"].

Fixpoint item_texts (l : list ascii) (starts : list Re.mobj) : Exc (list string) :=
  match starts with
  | [] => Ret []
  | st :: tl =>
      let end_pos := match tl with nx :: _ => Re.m_start nx | [] => length l end in
      let item_text0 := strip (Re.substr l (Re.m_start st) end_pos) in
      let* item_text := Re.sub "\s+" " " item_text0 Re.NOFLAG in
      let* rest := item_texts l tl in
      if contains item_text "$" && (10 <? slen item_text)%nat
      then Ret (item_text :: rest) else Ret rest
  end.

Definition fallback_split_patterns : list string :=
  ["(\d+\s+(?:lb|box|case|bottle|gal|bb)\s+[^$]*?\$[0-9]+\.?[0-9]*[^0-9]*?)(?=\d+\s+(?:lb|box|case|bottle|gal|bb)|$)";
   "((?:lb|box|case|bottle|gal|bb)\s+[^$]*?\$[0-9]+\.?[0-9]*)";
   "([^$]*?\$[0-9]+\.?[0-9]*)"].

Definition valid_split_match (m : string) : bool :=
  (15 <? slen m)%nat && existsb (fun u => contains (str_lower m) u) unit_words && contains m "$".

Fixpoint fallback_split (pats : list string) (big_line : string) (acc : list string) : Exc (list string) :=
  match pats with
  | [] => Ret acc
  | p :: tl =>
      let* matches := Re.findall p big_line Re.IGNORECASE_DOTALL in
      let valid := filter valid_split_match (map strip matches) in
      let acc' := app acc valid in
      if (6 <=? length valid)%nat then Ret acc' else fallback_split tl big_line acc'
  end.

Fixpoint dedupe (seen : list string) (items : list string) : list string :=
  match items with
  | [] => []
  | it :: tl =>
      let key := str_lower (strip (substring 0 40 it)) in
      if existsb (String.eqb key) seen then dedupe seen tl
      else it :: dedupe (key :: seen) tl
  end.

(** [_split_ocr_line_by_items] *)
Definition split_ocr_line_by_items (big_line : string) : Exc (list string) :=
  let* starts := Re.finditer "(\d+\s+(?:lb|box|case|bottle|gal|bb|each))\s+" big_line Re.IGNORECASE in
  match starts with
  | [] => Ret []
  | _ =>
      let* items := item_texts (list_ascii_of_string big_line) starts in
      if (4 <=? length items)%nat then Ret items else
      let* all_items := fallback_split fallback_split_patterns big_line [] in
      Ret (dedupe [] all_items)
  end.

Definition is_header (line : string) : bool :=
  let ll := str_lower line in
  ((contains ll "qty" || contains ll "quantity") && contains ll "unit"
   && (contains ll "item" || contains ll "description"))
  || contains (remove_char " "%char ll) "qty unit item description".

Fixpoint find_header (i : nat) (lines : list string) : option nat :=
  match lines with
  | [] => None
  | l :: tl => if is_header l then Some (S i) else find_header (S i) tl
  end.

Fixpoint find_row_start (i : nat) (lines : list string) : Exc (option nat) :=
  match lines with
  | [] => Ret None
  | l :: tl =>
      let line := strip l in
      if (slen line <? 10)%nat then find_row_start (S i) tl else
      let* b := looks_like_table_row line in
      if b then Ret (Some i) else find_row_start (S i) tl
  end.

Definition stop_words : list string := ["subtotal"; "tax"; "delivery"; "total"].

(** The row loop, from the table start until a totals line. *)
Fixpoint table_rows (lines : list string) : Exc (list ExtractedItem) :=
  match lines with
  | [] => Ret []
  | l :: tl =>
      let line := strip l in
      if existsb (fun w => contains (str_lower line) w) stop_words then Ret [] else
      let* sep := Re.rmatch "^[-=_\s]+$" line Re.NOFLAG in
      if String.eqb line "" || (slen line <? 10)%nat
         || match sep with Some _ => true | None => false end
      then table_rows tl else
      let* it := parse_table_row line in
      let* rest := table_rows tl in
      match it with
      | Some item => Ret (item :: rest)
      | None => Ret rest
      end
  end.

(** [_extract_table_items] *)
Definition extract_table_items (lines0 : list string) : Exc (list ExtractedItem) :=
  let* lines :=
    match lines0 with
    | [big_line] =>
        if (500 <? slen big_line)%nat then
          let* split_lines := split_ocr_line_by_items big_line in
          match split_lines with [] => Ret lines0 | _ => Ret split_lines end
        else Ret lines0
    | _ => Ret lines0
    end in
  let* table_start :=
    match find_header 0 lines with
    | Some i => Ret (Some i)
    | None => find_row_start 0 lines
    end in
  match table_start with
  | None => Ret []
  | Some i => table_rows (skipn i lines)
  end.

(** The [items] of [parse_invoice] (before conversion with [_item_to_dict]). *)
Definition parse_invoice_items (ocr_text : string) : Exc (list ExtractedItem) :=
  if String.eqb ocr_text "" then Ret [] else
  let* cleaned_text := clean_text ocr_text in
  extract_table_items (split "010"%char cleaned_text).

(** [_item_to_dict] ([attributes] is [{}]). *)
Definition item_to_dict (item : ExtractedItem) : list (string * JVal) :=
  [("name", JStr (name item)); ("quantity", JNum (quantity item)); ("unit", JStr (unit item));
   ("price", JNum (price item)); ("category", JStr (category item));
   ("confidence", JNum (confidence item)); ("attributes", JObj [])].

(** [_categorize_items] *)
Definition categorize_items (items : list ExtractedItem) : list (string * JVal) :=
  fold_left (fun categorized item =>
               let prev := match dict_get (category item) categorized with
                           | Some (JArr l) => l
                           | _ => []
                           end in
               dict_set (category item) (JArr (app prev [JObj (item_to_dict item)])) categorized)
            items [].

End ImprovedInvoiceParser.

(* ------------------------------------------------------------------ *)
(** ** [CarbonService] (carbon_service.py) *)

Module CarbonService.
Local Open Scope string_scope.
Local Open Scope Q_scope.

(** [self.carbon_intensities], in insertion order. *)
Definition carbon_intensities : list (string * Q) :=
  [("beef", 60); ("ground beef", 60); ("steak", 60);
   ("lamb", 392 # 10); ("mutton", 392 # 10);
   ("pork", 121 # 10); ("bacon", 121 # 10); ("ham", 121 # 10);
   ("chicken", 69 # 10); ("turkey", 109 # 10);
   ("fish", 61 # 10); ("salmon", 119 # 10); ("tuna", 61 # 10); ("cod", 29 # 10);
   ("shrimp", 118 # 10); ("lobster", 22);
   ("cheese", 135 # 10); ("butter", 238 # 10); ("cream", 8);
   ("milk", 32 # 10); ("yogurt", 22 # 10);
   ("eggs", 42 # 10);
   ("rice", 4); ("wheat", 14 # 10); ("flour", 14 # 10);
   ("pasta", 14 # 10); ("bread", 13 # 10);
   ("potato", 3 # 10); ("sweet potato", 3 # 10);
   ("tomato", 23 # 10); ("local tomato", 7 # 10);
   ("onion", 3 # 10); ("local onion", 1 # 10);
   ("lettuce", 35 # 10); ("local lettuce", 8 # 10);
   ("spinach", 2); ("local spinach", 5 # 10);
   ("carrot", 4 # 10); ("local carrot", 1 # 10);
   ("bell pepper", 3); ("local bell pepper", 7 # 10);
   ("apple", 4 # 10); ("local apple", 1 # 10);
   ("banana", 7 # 10); ("orange", 4 # 10);
   ("lemon", 6 # 10); ("lime", 6 # 10);
   ("olive oil", 54 # 10); ("vegetable oil", 32 # 10);
   ("vinegar", 9 # 10); ("salt", 1 # 10);
   ("sugar", 18 # 10);
   ("basil", 21 # 10); ("oregano", 2); ("thyme", 2);
   ("black pepper", 7); ("garlic", 4 # 10);
   ("organic", 8 # 10);
   ("local", 3 # 10);
   ("imported", 25 # 10);
   ("default", 2)].

Fixpoint lookup (k : string) (d : list (string * Q)) : option Q :=
  match d with
  | [] => None
  | (k', v) :: tl => if String.eqb k k' then Some v else lookup k tl
  end.

(** [self.carbon_intensities[k]] for a key that is present. *)
Definition intensity (k : string) : Q :=
  match lookup k carbon_intensities with Some v => v | None => 0 end.

(** The modifier of the partial-match branch ([if]/[elif] chain). *)
Definition modifier (item_name : string) : Q :=
  if contains item_name "local" then 1 * (3 # 10)
  else if contains item_name "organic" then 1 * (8 # 10)
  else if contains item_name "imported" then 1 * (15 # 10)
  else 1.

(** [_find_carbon_intensity] *)
Definition find_carbon_intensity (item_name0 : string) : Q :=
  let item_name := strip (str_lower item_name0) in
  match lookup item_name carbon_intensities with
  | Some v => v
  | None =>
      match find (fun kv => contains item_name (fst kv) || contains (fst kv) item_name)
                 carbon_intensities with
      | Some (_, value) => value * modifier item_name
      | None =>
          if existsb (contains item_name) ["beef"; "meat"; "steak"] then intensity "beef"
          else if existsb (contains item_name) ["chicken"; "poultry"] then intensity "chicken"
          else if existsb (contains item_name) ["milk"; "cream"; "dairy"] then intensity "milk"
          else if existsb (contains item_name) ["vegetable"; "lettuce"; "green"] then 1
          else intensity "default"
      end
  end.

(** [_get_impact_level] *)
Definition get_impact_level (carbon_intensity : Q) : string :=
  if negb (Qle_bool carbon_intensity 20) then "high"
  else if negb (Qle_bool carbon_intensity 5) then "medium"
  else "low".

(** The fields of an [_calculate_item_emissions] result that the score reads. *)
Record ItemEmission := {
  em_name : string;
  impact_level : string;
  is_local : bool;
  is_organic : bool
}.

(** [_calculate_item_emissions], restricted to those fields. *)
Definition item_emission (item_name : string) : ItemEmission :=
  let nm := str_lower item_name in
  {| em_name := item_name;
     impact_level := get_impact_level (find_carbon_intensity nm);
     is_local := contains nm "local";
     is_organic := contains nm "organic" |}.

Definition item_score (it : ItemEmission) : Z :=
  let base := if String.eqb (impact_level it) "low" then 80%Z
              else if String.eqb (impact_level it) "medium" then 50%Z
              else 20%Z in
  let s1 := if is_local it then (base + 15)%Z else base in
  let s2 := if is_organic it then (s1 + 10)%Z else s1 in
  Z.min s2 100.

(** [_calculate_sustainability_score]: [int(total_score / n)] truncates; the
    float quotient of two small integers is exact enough that truncating it
    gives [Z.quot]. *)
Definition calculate_sustainability_score (item_emissions : list ItemEmission) : Z :=
  match item_emissions with
  | [] => 50%Z
  | _ =>
      let total_score := fold_left (fun acc it => (acc + item_score it)%Z) item_emissions 0%Z in
      Z.min (Z.quot total_score (Z.of_nat (length item_emissions))) 100
  end.

End CarbonService.

(* ------------------------------------------------------------------ *)
(** ** [OCRService._process_structured_data] (ocr_service.py) *)

Module OCRService.
Local Open Scope string_scope.
Local Open Scope Q_scope.

(** [line[1]] of an OCR entry: a [[text, confidence, ...]] list, a bare
    string, or anything else (skipped). *)
Inductive TextInfo : Type :=
| TIPair (text : string) (conf : Q)
| TIStr (text : string)
| TIOther.

(** An entry of [structured_data]: [[bbox, text_info, ...]] or an entry with
    fewer than two elements (skipped). *)
Inductive OcrLine : Type :=
| OLine (bbox : list (Q * Q)) (info : TextInfo)
| OShort.

Record column := { c_text : string; c_x : Q; c_conf : Q }.

(** Python's [round] on a float: to the nearest integer, ties to even. *)
Definition py_round (q : Q) : Z :=
  let f := Qfloor q in
  match Qcompare (q - inject_Z f) (1 # 2) with
  | Lt => f
  | Gt => (f + 1)%Z
  | Eq => if Z.even f then f else (f + 1)%Z
  end.

Definition mean (l : list Q) : Q :=
  fold_left Qplus l 0 / inject_Z (Z.of_nat (length l)).

(** [rows[row_key].append(...)], creating the key at the end when new. *)
Fixpoint add_to_row (k : Z) (c : column) (rows : list (Z * list column)) : list (Z * list column) :=
  match rows with
  | [] => [(k, [c])]
  | (k', cs) :: tl => if Z.eqb k k' then (k', app cs [c]) :: tl else (k', cs) :: add_to_row k c tl
  end.

(** One iteration of the grouping loop; entries that are skipped or raise
    inside the [try] leave [rows] unchanged (an empty [bbox] raises
    [ZeroDivisionError] before the row is created). *)
Definition add_line (rows : list (Z * list column)) (line : OcrLine) : list (Z * list column) :=
  match line with
  | OShort => rows
  | OLine bbox info =>
      let tc := match info with
                | TIPair t c => Some (t, c)
                | TIStr t => Some (t, 1%Q)
                | TIOther => None
                end in
      match tc with
      | None => rows
      | Some (text, confidence) =>
          if Qlt_le_dec confidence (1 # 2) then rows else
          match bbox with
          | [] => rows
          | _ =>
              let row_y := mean (map snd bbox) in
              let row_key := (py_round (row_y / 10) * 10)%Z in
              let col_x := mean (map fst bbox) in
              add_to_row row_key {| c_text := text; c_x := col_x; c_conf := confidence |} rows
          end
      end
  end.

Definition group_rows (structured_data : list OcrLine) : list (Z * list column) :=
  fold_left add_line structured_data [].

(** [sorted(rows.keys())] *)
Fixpoint insert_key (k : Z) (l : list Z) : list Z :=
  match l with
  | [] => [k]
  | k' :: tl => if Z.leb k k' then k :: l else k' :: insert_key k tl
  end.

Definition sort_keys (l : list Z) : list Z := fold_right insert_key [] l.

(** [sorted(columns, key=lambda x: x['x'])], stable. *)
Fixpoint insert_col (c : column) (l : list column) : list column :=
  match l with
  | [] => [c]
  | c' :: tl => if Qlt_le_dec (c_x c) (c_x c') then c :: l else c' :: insert_col c tl
  end.

Definition sort_cols (l : list column) : list column := fold_left (fun acc c => insert_col c acc) l [].

(** The column-joining loop for one row. *)
Fixpoint join_cols (row_text : string) (last_x : Q) (cols : list column) : string :=
  match cols with
  | [] => row_text
  | col :: tl =>
      let sep := if Qle_bool last_x 0 then ""
                 else let x_gap := c_x col - last_x in
                      if negb (Qle_bool x_gap 100) then "    "
                      else if negb (Qle_bool x_gap 50) then "  "
                      else " " in
      join_cols (row_text ++ sep ++ c_text col)
                (c_x col + inject_Z (Z.of_nat (slen (c_text col))) * 10) tl
  end.

Fixpoint row_of (k : Z) (rows : list (Z * list column)) : list column :=
  match rows with
  | [] => []
  | (k', cs) :: tl => if Z.eqb k k' then cs else row_of k tl
  end.

(** The emitted lines, each with its row key: rows in ascending key order,
    blank lines dropped by the final join's filter. *)
Definition layout_lines (structured_data : list OcrLine) : list (Z * string) :=
  let rows := group_rows structured_data in
  let structured_lines :=
    map (fun k => (k, strip (join_cols "" 0 (sort_cols (row_of k rows))))) (sort_keys (map fst rows)) in
  filter (fun kl => negb (String.eqb (strip (snd kl)) "")) structured_lines.

(** [_process_structured_data] *)
Definition process_structured_data (structured_data : list OcrLine) : string :=
  join (String "010"%char EmptyString) (map snd (layout_lines structured_data)).

End OCRService.

(* ------------------------------------------------------------------ *)
(** ** [CarbonService.calculate_footprint] and its helpers (carbon_service.py) *)

Module CarbonFootprint.
Import CarbonService.
Local Open Scope string_scope.
Local Open Scope Q_scope.

(** [_extract_quantity], applied to the text [str(quantity_str)]: the first
    number found, or 1.0; the bare [except] catches every error. *)
Definition extract_quantity (s : string) : Q :=
  match Re.findall "\d+\.?\d*" s Re.NOFLAG with
  | Ret (n :: _) => match float_of_string n with Some q => q | None => 1 end
  | _ => 1
  end.

(** [_categorize_item] *)
Definition categorize_item (item_name0 : string) : string :=
  let item_name := str_lower item_name0 in
  if existsb (contains item_name) ["beef"; "pork"; "chicken"; "fish"; "meat"] then "protein"
  else if existsb (contains item_name) ["milk"; "cheese"; "butter"; "cream"] then "dairy"
  else if existsb (contains item_name) ["tomato"; "lettuce"; "onion"; "carrot"; "vegetable"] then "vegetables"
  else if existsb (contains item_name) ["rice"; "wheat"; "bread"; "pasta"] then "grains"
  else if existsb (contains item_name) ["apple"; "orange"; "banana"; "fruit"] then "fruits"
  else "other".

(** [round(x, 2)]: to the nearest multiple of 0.01, ties to even (on the
    rational value). *)
Definition round2 (q : Q) : Q := inject_Z (OCRService.py_round (q * 100)) / 100.

(** [f"{x:.1f}"]: one decimal, ties to even, a minus sign for negative
    values. *)
Definition fmt_1f (q : Q) : string :=
  let neg := negb (Qle_bool 0 q) in
  let n := OCRService.py_round ((if neg then - q else q) * 10) in
  ((if neg then "-" else "") ++ z_str (n / 10) ++ "." ++ z_str (n mod 10))%string.

(** The dict built by [_calculate_item_emissions]. *)
Record Emission := {
  e_name : string;
  e_quantity : Q;
  e_carbon_intensity : Q;
  e_total_co2 : Q;
  e_impact_level : string;
  e_category : string;
  e_price : JVal;
  e_co2_per_dollar : Q;
  e_is_local : bool;
  e_is_organic : bool
}.

Section Footprint.

(** Python's [str()], which [_extract_quantity] applies to the quantity
    (for a string it is the string itself; for a float, its repr). *)
Variable to_str : JVal -> string.

(** [_calculate_item_emissions].  [name.lower()] raises on a non-string name;
    [price > 0] raises [TypeError] unless the price is a number or a bool. *)
Definition calculate_item_emissions (item : list (string * JVal)) : Exc Emission :=
  match get_or "name" item (JStr "") with
  | JStr s0 =>
      let name := str_lower s0 in
      let quantity := extract_quantity (to_str (get_or "quantity" item (JStr "1"))) in
      let price := get_or "price" item (JNum 0) in
      let carbon_intensity := find_carbon_intensity name in
      let total_co2 := quantity * carbon_intensity in
      let impact_level := get_impact_level carbon_intensity in
      let category := categorize_item name in
      let* per_dollar :=
        match price with
        | JNum p => Ret (if Qle_bool p 0 then 0 else total_co2 / p)
        | JBool b => Ret (if b then total_co2 / 1 else 0)
        | _ => Raise "TypeError: '>' not supported"
        end in
      Ret {| e_name := match get_or "name" item (JStr "Unknown") with JStr s => s | _ => "Unknown" end;
             e_quantity := quantity;
             e_carbon_intensity := carbon_intensity;
             e_total_co2 := round2 total_co2;
             e_impact_level := impact_level;
             e_category := category;
             e_price := price;
             e_co2_per_dollar := round2 per_dollar;
             e_is_local := contains name "local";
             e_is_organic := contains name "organic" |}
  | _ => Raise "AttributeError: object has no attribute 'lower'"
  end.

End Footprint.

(** The fields of an emission that [_calculate_sustainability_score] reads. *)
Definition to_item_emission (e : Emission) : ItemEmission :=
  {| em_name := e_name e; impact_level := e_impact_level e;
     is_local := e_is_local e; is_organic := e_is_organic e |}.

(** [_get_substitution_suggestion] *)
Definition get_substitution_suggestion (e : Emission) : string :=
  let n := str_lower (e_name e) in
  if String.eqb (e_category e) "protein" then
    if contains n "beef" then "Consider chicken, turkey, or plant-based alternatives"
    else if contains n "lamb" then "Consider chicken, pork, or plant-based alternatives"
    else "Consider local, organic, or seasonal alternatives"
  else if String.eqb (e_category e) "dairy" then "Consider plant-based alternatives or reduced quantities"
  else if String.eqb (e_category e) "vegetables" then "Consider local or seasonal alternatives"
  else "Consider local, organic, or seasonal alternatives".

(** The two kinds of recommendation dicts ([type] substitution, priority
    high; [type] sourcing, priority medium, fixed texts). *)
Inductive Recommendation : Type :=
| Substitution (current_item recommendation potential_reduction : string)
| Sourcing.

Definition is_high (e : Emission) : bool := String.eqb (e_impact_level e) "high".

(** [_generate_recommendations] *)
Definition generate_recommendations (item_emissions : list Emission) : list Recommendation :=
  let high_impact := filter is_high item_emissions in
  map (fun e => Substitution (e_name e) (get_substitution_suggestion e)
                             (fmt_1f (e_total_co2 e * (6 # 10)) ++ " kg CO2e"))
      (firstn 3 high_impact)
  ++ (if existsb (fun e => negb (e_is_local e)) item_emissions then [Sourcing] else []).

(** [emissions_by_category[category] += total_co2], the key created with
    0.0 at the end when new. *)
Fixpoint add_cat (c : string) (v : Q) (d : list (string * Q)) : list (string * Q) :=
  match d with
  | [] => [(c, 0 + v)]
  | (c', x) :: tl => if String.eqb c c' then (c', x + v) :: tl else (c', x) :: add_cat c v tl
  end.

Record Footprint := {
  total_emissions_kg : Q;
  emissions_by_item : list Emission;
  emissions_by_category : list (string * Q);
  sustainability_score : Z;
  recommendations : list Recommendation;
  total_items : nat;
  high_impact_items : nat;
  average_per_item : Q
}.

(** The loop of [calculate_footprint]; an item that is not a dict raises
    on [item.get].  The running totals are exact rationals, whereas Python
    adds doubles, so the sums computed here may differ from Python's in the
    last bits; only facts independent of those values are stated about them. *)
Fixpoint footprint_loop (to_str : JVal -> string) (items : list JVal) (total : Q)
         (acc : list Emission) (cats : list (string * Q))
         : Exc (Q * list Emission * list (string * Q)) :=
  match items with
  | [] => Ret (total, acc, cats)
  | JObj d :: tl =>
      let* e := calculate_item_emissions to_str d in
      footprint_loop to_str tl (total + e_total_co2 e) (app acc [e])
                     (add_cat (e_category e) (e_total_co2 e) cats)
  | _ :: _ => Raise "AttributeError: object has no attribute 'get'"
  end.

(** [calculate_footprint] *)
Definition calculate_footprint (to_str : JVal -> string) (items : list JVal) : Exc Footprint :=
  let* r := footprint_loop to_str items 0 [] [] in
  let '(total, item_emissions, by_category) := r in
  Ret {| total_emissions_kg := round2 total;
         emissions_by_item := item_emissions;
         emissions_by_category := by_category;
         sustainability_score := calculate_sustainability_score (map to_item_emission item_emissions);
         recommendations := generate_recommendations item_emissions;
         total_items := length items;
         high_impact_items := length (filter is_high item_emissions);
         average_per_item :=
           round2 (match items with [] => 0 | _ => total / inject_Z (Z.of_nat (length items)) end) |}.

End CarbonFootprint.

(* ------------------------------------------------------------------ *)
(** ** Auxiliary definitions for the statements below *)

(** [subseq l1 l2]: [l1] is [l2] with some elements left out, the others
    kept in order. *)
Inductive subseq {A : Type} : list A -> list A -> Prop :=
| subseq_nil : subseq [] []
| subseq_keep (x : A) (l1 l2 : list A) : subseq l1 l2 -> subseq (x :: l1) (x :: l2)
| subseq_skip (x : A) (l1 l2 : list A) : subseq l1 l2 -> subseq l1 (x :: l2).

(** Sum of a list of rationals. *)
Definition qsum (l : list Q) : Q := fold_right Qplus 0%Q l.

(** An item [calculate_footprint] accepts: a dict whose [name] (default
    [""]) is a string and whose [price] (default 0) is a number or a bool. *)
Definition emission_input_ok (it : JVal) : Prop :=
  exists d, it = JObj d /\
    match get_or "name" d (JStr "") with JStr _ => True | _ => False end /\
    match get_or "price" d (JNum 0) with JNum _ | JBool _ => True | _ => False end.

(** [re_only P fl r]: every character a consuming atom of [r] accepts
    under the flags [fl] satisfies [P] (lookaheads consume nothing). *)
Fixpoint re_only (P : ascii -> Prop) (fl : Re.flags) (r : Re.regex) : Prop :=
  match r with
  | Re.REps | Re.RBol | Re.REol | Re.RLook _ => True
  | Re.RLit p => forall c, Re.lit_match fl p c = true -> P c
  | Re.RAny => forall c, (Re.dotall fl || negb (Ascii.eqb c "010"%char)) = true -> P c
  | Re.RClass neg its => forall c, xorb neg (Re.class_match fl its c) = true -> P c
  | Re.RCat r1 r2 | Re.RAlt r1 r2 => re_only P fl r1 /\ re_only P fl r2
  | Re.RStar _ r1 | Re.ROpt _ r1 | Re.RGroup _ r1 => re_only P fl r1
  end.

(** The iteration loop of [Re.mt] on [RStar g r1], as a function of its
    counter. *)
Definition star_loop (fl : Re.flags) (fuel : nat) (g : bool) (r1 : Re.regex)
           (k : Re.mst -> option Re.mst) : nat -> Re.mst -> option Re.mst :=
  fix loop (f : nat) (st : Re.mst) {struct f} : option Re.mst :=
    match f with
    | O => k st
    | S f' =>
        let it := fun (_ : unit) =>
          Re.mt fl fuel r1 st (fun st' => if (Re.pos st' =? Re.pos st)%nat then None else loop f' st') in
        if g then Re.orelse (it tt) (fun _ => k st) else Re.orelse (k st) it
    end.

(** An OCR entry that [_process_structured_data] passes over: fewer than
    two elements, an unrecognised [text_info], a confidence below 0.5, or an
    empty [bbox] (whose mean raises [ZeroDivisionError], caught). *)
Definition ocr_skipped (line : OCRService.OcrLine) : bool :=
  match line with
  | OCRService.OShort => true
  | OCRService.OLine bbox info =>
      match info with
      | OCRService.TIOther => true
      | OCRService.TIPair _ c =>
          negb (Qle_bool (1 # 2) c) || match bbox with [] => true | _ => false end
      | OCRService.TIStr _ => match bbox with [] => true | _ => false end
      end
  end.

(** The order [sorted(..., key=lambda x: x['x'])] sorts columns by. *)
Definition col_le (a b : OCRService.column) : Prop := (OCRService.c_x a <= OCRService.c_x b)%Q.

(** The step a regex continuation receives: the remaining input loses a
    prefix [w] of accepted characters and the position moves by its length. *)
Definition steps (P : ascii -> Prop) (st st' : Re.mst) : Prop :=
  exists w, Re.rest st = (w ++ Re.rest st')%list /\ Re.pos st' = Re.pos st + List.length w /\ Forall P w.

(** A string whose only whitespace character is the space. *)
Definition ws_only_space (s : string) : Prop :=
  forall c, In c (list_ascii_of_string s) -> is_space c = true -> c = " "%char.

(** Every capture group [n] of a pattern accepts only characters
    satisfying [Pn n]. *)
Fixpoint re_caps (Pn : nat -> ascii -> Prop) (fl : Re.flags) (r : Re.regex) : Prop :=
  match r with
  | Re.RCat r1 r2 | Re.RAlt r1 r2 => re_caps Pn fl r1 /\ re_caps Pn fl r2
  | Re.RStar _ r1 | Re.ROpt _ r1 | Re.RLook r1 => re_caps Pn fl r1
  | Re.RGroup n r1 => re_only (Pn n) fl r1 /\ re_caps Pn fl r1
  | _ => True
  end.

(** The recorded spans of the captures, read in [input], satisfy [Pn]. *)
Definition caps_ok (Pn : nat -> ascii -> Prop) (input : list ascii) (cs : list (nat * (nat * nat))) : Prop :=
  forall n s e, In (n, (s, e)) cs -> Forall (Pn n) (firstn (e - s) (skipn s input)).

(** The groups of a row pattern read as numbers: the quantity (group 1) and
    the price (group [pg]). *)
Definition row_caps (pg : nat) (n : nat) (c : ascii) : Prop :=
  (n = 1%nat -> is_digit c = true) /\ (n = pg -> is_digit c = true \/ c = "."%char).

(* ================================================================== *)
(** * Properties *)

(** ** Dict and regex facts *)

Lemma dict_get_set_eq k v d : dict_get k (dict_set k v d) = Some v.
Proof.
  induction d as [|[k' v'] tl IH]; simpl.
  - rewrite String.eqb_refl. reflexivity.
  - destruct (String.eqb k k') eqn:E; simpl.
    + rewrite E. reflexivity.
    + rewrite E. exact IH.
Qed.

Lemma dict_get_set_neq k k' v d : k <> k' -> dict_get k (dict_set k' v d) = dict_get k d.
Proof.
  intros Hne. induction d as [|[k0 v0] tl IH]; simpl.
  - destruct (String.eqb k k') eqn:E; [apply String.eqb_eq in E; congruence | reflexivity].
  - destruct (String.eqb k' k0) eqn:E0; simpl.
    + apply String.eqb_eq in E0; subst k0.
      destruct (String.eqb k k') eqn:E; [apply String.eqb_eq in E; congruence | reflexivity].
    + destruct (String.eqb k k0); [reflexivity | exact IH].
Qed.

(** The pattern of [_extract_json_from_response] is rejected by [re]:
    [(?R)] is an extension of the third-party [regex] module only. *)
Lemma compile_json_block : Re.compile LLMInvoiceParser.json_block_pattern = Raise "re.error".
Proof. vm_compute. reflexivity. Qed.

(** ** [_fallback_parse] *)

Lemma fb_total_ret ls : exists v, LLMInvoiceParser.fb_total ls = Ret v.
Proof.
  induction ls as [|line tl [v IH]]; simpl.
  - eexists. reflexivity.
  - destruct (contains (str_lower line) "total" && contains line "$")%bool.
    + destruct (Re.search_from _ _ _ _ _) as [mo|]; [|eexists; exact IH].
      destruct (float_of_string _); [eexists; reflexivity | eexists; exact IH].
    + eexists. exact IH.
Qed.

Lemma fb_date_ret ls : exists v, LLMInvoiceParser.fb_date ls = Ret v.
Proof.
  induction ls as [|line tl [v IH]]; simpl.
  - eexists. reflexivity.
  - destruct (Re.search_from _ _ _ _ _); eexists; [reflexivity | exact IH].
Qed.

Lemma fallback_parse_ret text : exists rr, LLMInvoiceParser.fallback_parse text = Ret rr.
Proof.
  unfold LLMInvoiceParser.fallback_parse.
  destruct (fb_total_ret (rev (split "010"%char text))) as [t Ht].
  destruct (fb_date_ret (firstn 10 (split "010"%char text))) as [d Hd].
  cbv zeta. rewrite Ht, Hd. simpl.
  eexists. reflexivity.
Qed.

Lemma fallback_parse_items text rr :
  LLMInvoiceParser.fallback_parse text = Ret rr ->
  dict_get "items" rr = Some (JArr []) /\ dict_get "item_count" rr = Some (JNum 0).
Proof.
  unfold LLMInvoiceParser.fallback_parse.
  destruct (fb_total_ret (rev (split "010"%char text))) as [t Ht].
  destruct (fb_date_ret (firstn 10 (split "010"%char text))) as [d Hd].
  cbv zeta. rewrite Ht, Hd. simpl.
  intros H. inversion H. split; reflexivity.
Qed.

(** No exception leaves [parse_invoice], whatever the service probe and the
    structured-extraction step do. *)
Lemma parse_invoice_with_ret available step text :
  exists v, LLMInvoiceParser.parse_invoice_with available step text = Ret v.
Proof.
  unfold LLMInvoiceParser.parse_invoice_with.
  destruct (_ || _)%bool; [eexists; reflexivity|].
  destruct (fallback_parse_ret text) as [rr Hrr]. rewrite Hrr. simpl.
  destruct available; simpl; [|eexists; reflexivity].
  destruct (step text (JObj rr)) as [pd|e]; simpl; [|eexists; reflexivity].
  destruct (truthy pd); [destruct pd|]; eexists; reflexivity.
Qed.

Open Scope string_scope.

Lemma guard_long text :
  (10 <= slen (strip text))%nat ->
  (String.eqb text "" || (slen (strip text) <? 10)%nat)%bool = false.
Proof.
  intros H. destruct (String.eqb text "") eqn:E.
  - apply String.eqb_eq in E. subst text. simpl in H. lia.
  - simpl. apply Nat.ltb_ge. exact H.
Qed.

Lemma guard_short text :
  (slen (strip text) < 10)%nat ->
  (String.eqb text "" || (slen (strip text) <? 10)%nat)%bool = true.
Proof.
  intros H. apply Bool.orb_true_iff. right. apply Nat.ltb_lt. exact H.
Qed.

(** ** C10 *)

(** C10: [_fallback_parse] never yields line items ([items] is [[]] and
    [item_count] is [0] for every text), so every result of [parse_invoice]
    that is not tagged [llm+regex] (the service-unavailable path, the
    null-result path, the exception path and the short-text path) has an
    empty [items] list. *)
Theorem fallback_parse_has_no_items :
  (forall text rr, LLMInvoiceParser.fallback_parse text = Ret rr ->
     dict_get "items" rr = Some (JArr []) /\ dict_get "item_count" rr = Some (JNum 0)) /\
  (forall available step text r,
     LLMInvoiceParser.parse_invoice_with available step text = Ret (JObj r) ->
     dict_get "parsing_method" r <> Some (JStr "llm+regex") ->
     dict_get "items" r = Some (JArr [])).
Proof.
  split; [exact fallback_parse_items|].
  intros available step text r H Hpm.
  unfold LLMInvoiceParser.parse_invoice_with in H.
  destruct (_ || _)%bool.
  { inversion H. reflexivity. }
  destruct (fallback_parse_ret text) as [rr Hrr].
  destruct (fallback_parse_items text rr Hrr) as [Hi _].
  rewrite Hrr in H. simpl in H.
  destruct available; simpl in H.
  - destruct (step text (JObj rr)) as [pd|e]; simpl in H.
    + destruct (truthy pd).
      * destruct pd; inversion H; subst;
          repeat (rewrite dict_get_set_neq by discriminate); try exact Hi.
        exfalso. apply Hpm. rewrite dict_get_set_neq by discriminate. apply dict_get_set_eq.
      * inversion H. rewrite dict_get_set_neq by discriminate. exact Hi.
    + inversion H. do 2 (rewrite dict_get_set_neq by discriminate). exact Hi.
  - inversion H. rewrite dict_get_set_neq by discriminate. exact Hi.
Qed.

Lemma fallback_parse_has_no_items_witness :
  exists r,
    LLMInvoiceParser.parse_invoice_with false
      (fun t rr => Ret (LLMInvoiceParser.llm_parse_with_prompt (LLMInvoiceParser.HttpRaise "")))
      "ORGANIC HARVEST DISTRIBUTORS 10 lb Carrots $2.10 TOTAL: $2.10" = Ret (JObj r) /\
    dict_get "items" r = Some (JArr []).
Proof.
  eexists. split.
  - cbv. reflexivity.
  - apply (proj2 fallback_parse_has_no_items false
             (fun t rr => Ret (LLMInvoiceParser.llm_parse_with_prompt (LLMInvoiceParser.HttpRaise "")))
             "ORGANIC HARVEST DISTRIBUTORS 10 lb Carrots $2.10 TOTAL: $2.10").
    + cbv. reflexivity.
    + cbv. discriminate.
Defined.

(** ** C1 *)

(** C1 (counterexample): with the service available and a reply that does
    not yield usable data (an HTTP 500), [parse_invoice] tags the result
    [regex-fallback]; the tag [hybrid-fallback] never occurs. *)
Lemma parse_invoice_null_tag_counterexample :
  match LLMInvoiceParser.parse_invoice true (fun _ _ => LLMInvoiceParser.HttpResp 500 "")
          "ORGANIC HARVEST DISTRIBUTORS TOTAL: $427.95" with
  | Ret (JObj r) => dict_get "parsing_method" r = Some (JStr "regex-fallback") /\
                    dict_get "parsing_method" r <> Some (JStr "hybrid-fallback")
  | _ => False
  end.
Proof. vm_compute. split; [reflexivity | discriminate]. Qed.

(** C1 (amended): for a text whose stripped length is at least 10, when the
    service is available and the structured-extraction step returns a falsy
    value (such as null), [parse_invoice] returns the dictionary built by
    [_fallback_parse] with [parsing_method] set to [regex-fallback]; when the
    step raises, it returns that dictionary with [parsing_method] set to
    [regex-except] and [llm_error] set to the message. In every case
    [parse_invoice] returns a value and raises nothing. *)
Theorem parse_invoice_fallback_paths (step : string -> JVal -> Exc JVal) (text : string) :
  (10 <= slen (strip text))%nat ->
  exists rr, LLMInvoiceParser.fallback_parse text = Ret rr /\
    (forall v, step text (JObj rr) = Ret v -> truthy v = false ->
       LLMInvoiceParser.parse_invoice_with true step text =
       Ret (JObj (dict_set "parsing_method" (JStr "regex-fallback") rr))) /\
    (forall e, step text (JObj rr) = Raise e ->
       LLMInvoiceParser.parse_invoice_with true step text =
       Ret (JObj (dict_set "llm_error" (JStr e)
                    (dict_set "parsing_method" (JStr "regex-except") rr)))) /\
    (forall available, exists v, LLMInvoiceParser.parse_invoice_with available step text = Ret v).
Proof.
  intros Hlen.
  destruct (fallback_parse_ret text) as [rr Hrr].
  exists rr. split; [exact Hrr|]. split; [|split].
  - intros v Hs Hf. unfold LLMInvoiceParser.parse_invoice_with.
    rewrite (guard_long text Hlen), Hrr. simpl. rewrite Hs. simpl. rewrite Hf. reflexivity.
  - intros e Hs. unfold LLMInvoiceParser.parse_invoice_with.
    rewrite (guard_long text Hlen), Hrr. simpl. rewrite Hs. reflexivity.
  - intros available. apply parse_invoice_with_ret.
Qed.

Lemma parse_invoice_fallback_paths_witness :
  (10 <= slen (strip "ORGANIC HARVEST DISTRIBUTORS TOTAL: $427.95"))%nat /\
  exists rr, LLMInvoiceParser.fallback_parse "ORGANIC HARVEST DISTRIBUTORS TOTAL: $427.95" = Ret rr.
Proof.
  split.
  - vm_compute. lia.
  - destruct (parse_invoice_fallback_paths (fun _ _ => Ret JNull)
                "ORGANIC HARVEST DISTRIBUTORS TOTAL: $427.95")
      as [rr [Hrr _]].
    + vm_compute. lia.
    + exists rr. exact Hrr.
Defined.

(** ** C2 *)

(** C2 (counterexample): the result for an empty text has no
    [parsing_method] key, so it is not tagged [heuristic]. *)
Lemma parse_invoice_empty_tag_counterexample :
  match LLMInvoiceParser.parse_invoice true (fun _ _ => LLMInvoiceParser.HttpResp 500 "") "" with
  | Ret (JObj r) => dict_get "parsing_method" r = None /\
                    dict_get "parsing_method" r <> Some (JStr "heuristic")
  | _ => False
  end.
Proof. vm_compute. split; [reflexivity | discriminate]. Qed.

(** C2 (amended): when the text is empty or its stripped length is below 10,
    [parse_invoice] returns, without consulting the service or the heuristic
    parser, the empty result: success true, no vendor, total or date (all
    null), an empty item list, confidence 0, item count 0, and no
    [parsing_method] key. *)
Theorem parse_invoice_short_text (available : bool) (step : string -> JVal -> Exc JVal)
  (text : string) :
  (slen (strip text) < 10)%nat ->
  LLMInvoiceParser.parse_invoice_with available step text = Ret (JObj LLMInvoiceParser.empty_result) /\
  dict_get "success" LLMInvoiceParser.empty_result = Some (JBool true) /\
  dict_get "vendor_name" LLMInvoiceParser.empty_result = Some JNull /\
  dict_get "total_amount" LLMInvoiceParser.empty_result = Some JNull /\
  dict_get "invoice_date" LLMInvoiceParser.empty_result = Some JNull /\
  dict_get "items" LLMInvoiceParser.empty_result = Some (JArr []) /\
  dict_get "parsing_confidence" LLMInvoiceParser.empty_result = Some (JNum 0) /\
  dict_get "item_count" LLMInvoiceParser.empty_result = Some (JNum 0) /\
  dict_get "parsing_method" LLMInvoiceParser.empty_result = None.
Proof.
  intros H. split.
  - unfold LLMInvoiceParser.parse_invoice_with. rewrite (guard_short text H). reflexivity.
  - repeat split.
Qed.

Lemma parse_invoice_short_text_witness :
  (slen (strip "  hi  ") < 10)%nat /\
  LLMInvoiceParser.parse_invoice_with true (fun _ _ => Ret JNull) "  hi  "
  = Ret (JObj LLMInvoiceParser.empty_result).
Proof.
  split; [vm_compute; lia|].
  apply (parse_invoice_short_text true (fun _ _ => Ret JNull) "  hi  ").
  vm_compute. lia.
Defined.

(** ** C3 *)

Lemma bind_ret {A B} (m : Exc A) (f : A -> Exc B) b :
  exc_bind m f = Ret b -> exists a, m = Ret a /\ f a = Ret b.
Proof. destruct m as [a|e]; simpl; [eauto | discriminate]. Qed.

Ltac bind_in H := apply bind_ret in H as [? [? H]].

Lemma row_item_name idx mo it :
  ImprovedInvoiceParser.row_item idx mo = Ret it -> ImprovedInvoiceParser.name it <> "".
Proof.
  unfold ImprovedInvoiceParser.row_item. intros H.
  apply bind_ret in H as [[pr fn0] [_ H]].
  apply bind_ret in H as [fn1 [_ H]].
  inversion H; subst; clear H. cbn.
  destruct (String.eqb (strip fn1) "") eqn:E; [discriminate|].
  intros C. rewrite C in E. discriminate.
Qed.

Lemma try_row_patterns_name pats : forall idx line it,
  ImprovedInvoiceParser.try_row_patterns idx pats line = Ret (Some it) ->
  ImprovedInvoiceParser.name it <> "".
Proof.
  induction pats as [|p tl IH]; intros idx line it H; cbn [ImprovedInvoiceParser.try_row_patterns] in H.
  - discriminate.
  - apply bind_ret in H as [m [_ H]]. destruct m as [mo|].
    + apply bind_ret in H as [it' [Hr H]]. inversion H; subst.
      eapply row_item_name; eassumption.
    + eapply IH; eassumption.
Qed.

Lemma row_fallback_name line it :
  ImprovedInvoiceParser.row_fallback line = Ret (Some it) -> ImprovedInvoiceParser.name it <> "".
Proof.
  unfold ImprovedInvoiceParser.row_fallback. intros H. cbv zeta in H.
  apply bind_ret in H as [pm [_ H]]. destruct pm as [pm|]; [|discriminate].
  bind_in H. bind_in H. bind_in H. bind_in H.
  apply bind_ret in H as [nm [_ H]].
  match type of H with (if ?c then _ else _) = _ => destruct c eqn:E end; [|discriminate].
  inversion H; subst; clear H. cbn.
  apply andb_true_iff in E as [E _]. apply negb_true_iff in E.
  intros C. rewrite C in E. discriminate.
Qed.

Lemma parse_table_row_name line it :
  ImprovedInvoiceParser.parse_table_row line = Ret (Some it) -> ImprovedInvoiceParser.name it <> "".
Proof.
  unfold ImprovedInvoiceParser.parse_table_row. intros H.
  apply bind_ret in H as [r [Hr H]]. destruct r as [it'|].
  - inversion H; subst. eapply try_row_patterns_name; eassumption.
  - eapply row_fallback_name; eassumption.
Qed.

Lemma table_rows_names lines : forall items,
  ImprovedInvoiceParser.table_rows lines = Ret items ->
  Forall (fun it => ImprovedInvoiceParser.name it <> "") items.
Proof.
  induction lines as [|l tl IH]; intros items H; cbn [ImprovedInvoiceParser.table_rows] in H.
  - inversion H. constructor.
  - cbv zeta in H.
    match type of H with (if ?c then _ else _) = _ => destruct c end.
    { inversion H. constructor. }
    apply bind_ret in H as [sep [_ H]].
    match type of H with (if ?c then _ else _) = _ => destruct c end.
    { apply IH. exact H. }
    apply bind_ret in H as [it [Hit H]].
    apply bind_ret in H as [rest [Hrest H]].
    destruct it as [item|]; inversion H; subst.
    + constructor; [eapply parse_table_row_name; eassumption | apply IH; exact Hrest].
    + apply IH. exact Hrest.
Qed.

Lemma parse_invoice_items_names text items :
  ImprovedInvoiceParser.parse_invoice_items text = Ret items ->
  Forall (fun it => ImprovedInvoiceParser.name it <> "") items.
Proof.
  unfold ImprovedInvoiceParser.parse_invoice_items. intros H.
  destruct (String.eqb text "").
  { inversion H. constructor. }
  apply bind_ret in H as [ct [_ H]].
  unfold ImprovedInvoiceParser.extract_table_items in H.
  apply bind_ret in H as [lines [_ H]].
  apply bind_ret in H as [ts [_ H]].
  destruct ts as [i|].
  - eapply table_rows_names. exact H.
  - inversion H. constructor.
Qed.

Lemma item_ok_spec ci :
  LLMInvoiceParser.item_ok ci = true ->
  exists n p, dict_get "name" ci = Some (JStr n) /\ n <> "" /\
              dict_get "price" ci = Some (JNum p) /\ (0 < p)%Q.
Proof.
  unfold LLMInvoiceParser.item_ok.
  destruct (dict_get "name" ci) as [[]|]; try discriminate.
  destruct (dict_get "price" ci) as [[]|]; try discriminate.
  intros H. apply andb_true_iff in H as [H1 H2].
  apply negb_true_iff in H1. apply negb_true_iff in H2.
  do 2 eexists. split; [reflexivity|]. split.
  - intros C. subst. discriminate.
  - split; [reflexivity|]. apply Qnot_le_lt. intros C.
    apply Qle_bool_iff in C. congruence.
Qed.

Lemma valid_items_ok items ci :
  In ci (LLMInvoiceParser.valid_items items) -> LLMInvoiceParser.item_ok ci = true.
Proof.
  induction items as [|a tl IH]; simpl; [contradiction|].
  destruct a as [| | | | |it]; try exact IH.
  destruct (LLMInvoiceParser.clean_item it) as [c|]; [|exact IH].
  destruct (LLMInvoiceParser.item_ok c) eqn:E; [|exact IH].
  intros [<-|Hin]; [exact E | apply IH; exact Hin].
Qed.

Lemma validate_items_ok data r l :
  LLMInvoiceParser.validate_and_clean_data data = Ret (JObj r) ->
  dict_get "items" r = Some (JArr l) ->
  Forall (fun x => exists ci, x = JObj ci /\ LLMInvoiceParser.item_ok ci = true) l.
Proof.
  destruct data as [| | | | |d]; try discriminate.
  unfold LLMInvoiceParser.validate_and_clean_data. intros H Hl. cbv zeta in H.
  apply bind_ret in H as [items [_ H]].
  inversion H; subst; clear H. simpl in Hl. inversion Hl; subst; clear Hl.
  apply Forall_forall. intros x Hx. apply in_map_iff in Hx as [ci [<- Hin]].
  exists ci. split; [reflexivity|]. eapply valid_items_ok. exact Hin.
Qed.

(** C3 (counterexample): neither extraction path checks the quantity. A
    model item with quantity 0 survives [_validate_and_clean_data], and the
    heuristic table parser returns an item of quantity 0 for the row
    [0 lb Carrots $2.10]. *)
Lemma item_quantity_counterexample :
  match LLMInvoiceParser.validate_and_clean_data
          (JObj [("items", JArr [JObj [("name", JStr "Carrots"); ("quantity", JNum 0%Q);
                                       ("price", JNum 2%Q)]])]) with
  | Ret (JObj r) =>
      match dict_get "items" r with
      | Some (JArr [JObj ci]) => dict_get "quantity" ci = Some (JNum 0%Q)
      | _ => False
      end
  | _ => False
  end /\
  match ImprovedInvoiceParser.parse_invoice_items "0 lb Carrots $2.10" with
  | Ret [it] => ImprovedInvoiceParser.name it = "Carrots" /\ ImprovedInvoiceParser.quantity it = 0%Q
  | _ => False
  end.
Proof. vm_compute. split; [reflexivity | split; reflexivity]. Qed.

(** C3 (amended): every item returned by the heuristic table parser has a
    non-empty name, and every item kept by [_validate_and_clean_data] has a
    non-empty name and a price greater than 0; the quantity is not checked
    on either path. *)
Theorem extracted_item_invariants :
  (forall text items, ImprovedInvoiceParser.parse_invoice_items text = Ret items ->
     Forall (fun it => ImprovedInvoiceParser.name it <> "") items) /\
  (forall data r l, LLMInvoiceParser.validate_and_clean_data data = Ret (JObj r) ->
     dict_get "items" r = Some (JArr l) ->
     Forall (fun x => exists ci n p, x = JObj ci /\
               dict_get "name" ci = Some (JStr n) /\ n <> "" /\
               dict_get "price" ci = Some (JNum p) /\ (0 < p)%Q) l).
Proof.
  split; [exact parse_invoice_items_names|].
  intros data r l H Hl.
  eapply Forall_impl; [|exact (validate_items_ok data r l H Hl)].
  intros x [ci [-> Hok]]. exists ci.
  destruct (item_ok_spec ci Hok) as [n [p Hnp]]. exists n, p. split; [reflexivity | exact Hnp].
Qed.

Lemma extracted_item_invariants_witness :
  Forall (fun it => ImprovedInvoiceParser.name it <> "")
    [{| ImprovedInvoiceParser.name := "Carrots"; ImprovedInvoiceParser.quantity := 10;
        ImprovedInvoiceParser.unit := "lb"; ImprovedInvoiceParser.price := 210 # 100;
        ImprovedInvoiceParser.category := "vegetables";
        ImprovedInvoiceParser.confidence := 95 # 100 |}] /\
  Forall (fun x => exists ci n p, x = JObj ci /\
            dict_get "name" ci = Some (JStr n) /\ n <> "" /\
            dict_get "price" ci = Some (JNum p) /\ (0 < p)%Q)
    [JObj [("name", JStr "Kale"); ("quantity", JNum 1%Q); ("unit", JStr "each");
           ("price", JNum 3%Q); ("category", JStr "other"); ("confidence", JNum (8 # 10));
           ("attributes", JObj [])]].
Proof.
  split.
  - apply (proj1 extracted_item_invariants "10 lb Carrots $2.10").
    vm_compute. reflexivity.
  - eapply (proj2 extracted_item_invariants
              (JObj [("items", JArr [JObj [("name", JStr "Kale"); ("price", JNum 3%Q)];
                                     JObj [("name", JStr "Free"); ("price", JNum 0%Q)]])])).
    + cbv. reflexivity.
    + vm_compute. reflexivity.
Defined.

(** ** C4 *)

(** C4 (code bug): [_clean_text] turns every run of whitespace, newlines
    included, into one space, so the cleaned invoice is a single line. That
    line contains [subtotal] and is skipped by the bottom-up scan, and the
    global fallback pattern [TOTAL[:]...], matched case-insensitively, first
    matches inside [Subtotal: $378.85]. The total extracted is therefore
    378.85, not 427.95, both for the two-line text and for the same lines
    after an invoice header and a row. *)
Theorem extract_total_picks_subtotal :
  ImprovedInvoiceParser.parse_invoice_total "Subtotal: $378.85
TOTAL: $427.95" = Ret (Some (37885 # 100)) /\
  ImprovedInvoiceParser.parse_invoice_total "ORGANIC HARVEST DISTRIBUTORS
10 lb Carrots $2.10
Subtotal: $378.85
TOTAL: $427.95" = Ret (Some (37885 # 100)).
Proof. split; vm_compute; reflexivity. Qed.

(** ** C5 *)

(** C5 (code bug): the brace-scan pattern [(\{(?:[^{}]|(?R))*\})] uses the
    recursion construct [(?R)] of the third-party [regex] module, which
    Python's [re] rejects ("Recursive-safe pattern" shows a recursive scan
    was meant).  So the direct parse of the trimmed output is the only
    recovery step that works: every output whose trimmed form is not itself
    valid JSON makes [re.findall] raise [re.error], whether its JSON sits in
    a fenced code block or amid prose; there is also no fenced-code-block
    step.  The caller [_llm_parse_with_prompt] turns the error into [None]. *)
Theorem extract_json_scan_raises :
  (forall out v, Json.loads (strip out) = Some v ->
     LLMInvoiceParser.extract_json_from_response out = Ret v) /\
  (forall out, Json.loads (strip out) = None ->
     LLMInvoiceParser.extract_json_from_response out = Raise "re.error") /\
  LLMInvoiceParser.extract_json_from_response "```json {} ```" = Raise "re.error" /\
  LLMInvoiceParser.extract_json_from_response "Here is the data: {} done" = Raise "re.error".
Proof.
  split; [|split; [|split]].
  - intros out v H. unfold LLMInvoiceParser.extract_json_from_response. cbv zeta.
    rewrite H. reflexivity.
  - intros out H. unfold LLMInvoiceParser.extract_json_from_response. cbv zeta.
    rewrite H. unfold Re.findall. rewrite compile_json_block. reflexivity.
  - vm_compute. reflexivity.
  - vm_compute. reflexivity.
Qed.

Lemma extract_json_scan_raises_witness :
  LLMInvoiceParser.extract_json_from_response " {} " = Ret (JObj []) /\
  LLMInvoiceParser.extract_json_from_response "Result: {}" = Raise "re.error".
Proof.
  split.
  - apply (proj1 extract_json_scan_raises " {} " (JObj [])). vm_compute. reflexivity.
  - apply (proj1 (proj2 extract_json_scan_raises) "Result: {}"). vm_compute. reflexivity.
Defined.

(** ** C6 *)

Lemma clean_item_category it ci :
  LLMInvoiceParser.clean_item it = Some ci ->
  dict_get "category" ci =
  Some (JStr (strip (str_lower (py_str (get_or "category" it (JStr "other")))))).
Proof.
  unfold LLMInvoiceParser.clean_item. cbv zeta.
  destruct (py_float (get_or "quantity" it (JNum 1))); [|discriminate].
  destruct (py_float (get_or "price" it (JNum 0))); [|discriminate].
  destruct (py_float (get_or "confidence" it (JNum (8 # 10)))); [|discriminate].
  intros H. inversion H. reflexivity.
Qed.

Lemma valid_items_sources items :
  exists srcs, subseq (map JObj srcs) items /\
    Forall2 (fun it ci => LLMInvoiceParser.clean_item it = Some ci)
            srcs (LLMInvoiceParser.valid_items items).
Proof.
  induction items as [|a tl [srcs [Hs HF]]]; simpl.
  - exists []. split; constructor.
  - destruct a as [| | | | |it];
      try (exists srcs; split; [apply subseq_skip; exact Hs | exact HF]).
    destruct (LLMInvoiceParser.clean_item it) as [c|] eqn:Ec;
      [|exists srcs; split; [apply subseq_skip; exact Hs | exact HF]].
    destruct (LLMInvoiceParser.item_ok c);
      [|exists srcs; split; [apply subseq_skip; exact Hs | exact HF]].
    exists (it :: srcs). split; [apply subseq_keep; exact Hs|].
    constructor; [exact Ec | exact HF].
Qed.

(** C6 (counterexample): a category outside the six known ones is not
    mapped to [other]; [Meat] (with surrounding blanks) is stored as
    [meat]. *)
Lemma validated_category_counterexample :
  match LLMInvoiceParser.validate_and_clean_data
          (JObj [("items", JArr [JObj [("name", JStr "Ribeye"); ("price", JNum 2%Q);
                                       ("category", JStr " Meat ")]])]) with
  | Ret (JObj r) =>
      match dict_get "items" r with
      | Some (JArr [JObj ci]) => dict_get "category" ci = Some (JStr "meat") /\
                                 dict_get "category" ci <> Some (JStr "other")
      | _ => False
      end
  | _ => False
  end.
Proof. vm_compute. split; [reflexivity | discriminate]. Qed.

(** C6 (amended): each item kept by [_validate_and_clean_data] is the
    cleaned form of its own source item: the kept items are built, in order,
    from a subsequence of the dicts the input's [items] iterates over
    (entries that are not dicts are skipped), and the category stored for
    each of them is that source item's [category] value (default [other])
    converted with [str], lower-cased and stripped.  No mapping of unknown
    categories to [other] takes place. *)
Theorem validated_category_is_lowered (d r : list (string * JVal)) :
  LLMInvoiceParser.validate_and_clean_data (JObj d) = Ret (JObj r) ->
  exists its srcs l,
    LLMInvoiceParser.iterate (get_or "items" d (JArr [])) = Ret its /\
    dict_get "items" r = Some (JArr (map JObj l)) /\
    subseq (map JObj srcs) its /\
    Forall2 (fun it ci =>
               LLMInvoiceParser.clean_item it = Some ci /\
               dict_get "category" ci =
               Some (JStr (strip (str_lower (py_str (get_or "category" it (JStr "other")))))))
            srcs l.
Proof.
  intros H.
  unfold LLMInvoiceParser.validate_and_clean_data in H. cbv zeta in H.
  destruct (LLMInvoiceParser.iterate (get_or "items" d (JArr []))) as [its|e] eqn:Eit;
    [|discriminate].
  cbn [exc_bind] in H. inversion H; subst r; clear H.
  destruct (valid_items_sources its) as [srcs [Hs HF]].
  exists its, srcs, (LLMInvoiceParser.valid_items its).
  split; [reflexivity|]. split; [reflexivity|]. split; [exact Hs|].
  eapply Forall2_impl; [|exact HF].
  intros it ci Hc. split; [exact Hc | apply clean_item_category; exact Hc].
Qed.

Lemma validated_category_is_lowered_witness :
  let d := [("items", JArr [JStr "not a dict";
                            JObj [("name", JStr "Ribeye"); ("price", JNum 2%Q);
                                  ("category", JStr " Meat ")]])] in
  exists r, LLMInvoiceParser.validate_and_clean_data (JObj d) = Ret (JObj r) /\
  exists its srcs l,
    LLMInvoiceParser.iterate (get_or "items" d (JArr [])) = Ret its /\
    dict_get "items" r = Some (JArr (map JObj l)) /\
    subseq (map JObj srcs) its /\
    Forall2 (fun it ci =>
               LLMInvoiceParser.clean_item it = Some ci /\
               dict_get "category" ci =
               Some (JStr (strip (str_lower (py_str (get_or "category" it (JStr "other")))))))
            srcs l.
Proof.
  cbv zeta. eexists. split.
  - vm_compute. reflexivity.
  - apply validated_category_is_lowered. vm_compute. reflexivity.
Defined.

(** ** C7 *)

Lemma find_lookup (f : string * Q -> bool) tbl k v :
  NoDup (map fst tbl) -> find f tbl = Some (k, v) -> CarbonService.lookup k tbl = Some v.
Proof.
  induction tbl as [|[k' v'] tl IH]; simpl; [discriminate|].
  intros Hnd Hf. inversion Hnd as [|? ? Hnotin Hnd']; subst.
  destruct (f (k', v')).
  - inversion Hf; subst. rewrite String.eqb_refl. reflexivity.
  - destruct (String.eqb k k') eqn:E.
    + apply String.eqb_eq in E. subst k'. exfalso. apply Hnotin.
      apply find_some in Hf as [Hin _]. apply (in_map fst) in Hin. exact Hin.
    + apply IH; assumption.
Qed.

Lemma nodup_of_check (l : list string) :
  (fix go (l : list string) : bool :=
     match l with
     | [] => true
     | x :: tl => negb (existsb (String.eqb x) tl) && go tl
     end) l = true -> NoDup l.
Proof.
  induction l as [|x tl IH]; intros H; [constructor|].
  apply andb_true_iff in H as [H1 H2]. constructor; [|exact (IH H2)].
  intros Hin. apply negb_true_iff in H1.
  assert (C : existsb (String.eqb x) tl = true).
  { apply existsb_exists. exists x. split; [exact Hin | apply String.eqb_refl]. }
  congruence.
Qed.

Lemma carbon_keys_nodup : NoDup (map fst CarbonService.carbon_intensities).
Proof. apply nodup_of_check. vm_compute. reflexivity. Qed.

(** C7 (counterexample): the modifiers are an [if]/[elif] chain, so only the
    first applicable one is used: [local organic carrot] first matches the
    key [carrot] (0.4) and gets 0.4 x 0.3 = 0.12, not 0.4 x 0.3 x 0.8. *)
Lemma partial_match_modifier_counterexample :
  CarbonService.find_carbon_intensity "local organic carrot" == 12 # 100 /\
  ~ (CarbonService.find_carbon_intensity "local organic carrot" == (4 # 10) * (3 # 10) * (8 # 10)).
Proof. vm_compute. split; [reflexivity | intros H; discriminate H]. Qed.

(** C7 (amended): when the lower-cased, stripped name has no exact entry and
    the first table key (in table order) related to it by substring in
    either direction has value [v], the intensity is [v] times a single
    modifier: 0.3 if the name contains [local]; otherwise 0.8 if it contains
    [organic]; otherwise 1.5 if it contains [imported]; otherwise 1. In
    particular, a name containing [local] (for example also [organic])
    whose first matching key is [carrot] resolves to 0.12, with impact level
    [low]. *)
Theorem partial_match_intensity (name0 k : string) (v : Q) :
  CarbonService.lookup (strip (str_lower name0)) CarbonService.carbon_intensities = None ->
  find (fun kv => contains (strip (str_lower name0)) (fst kv) ||
                  contains (fst kv) (strip (str_lower name0)))
       CarbonService.carbon_intensities = Some (k, v) ->
  let n := strip (str_lower name0) in
  (contains n "local" = true ->
     CarbonService.find_carbon_intensity name0 == v * (3 # 10)) /\
  (contains n "local" = false -> contains n "organic" = true ->
     CarbonService.find_carbon_intensity name0 == v * (8 # 10)) /\
  (contains n "local" = false -> contains n "organic" = false -> contains n "imported" = true ->
     CarbonService.find_carbon_intensity name0 == v * (15 # 10)) /\
  (contains n "local" = false -> contains n "organic" = false -> contains n "imported" = false ->
     CarbonService.find_carbon_intensity name0 == v) /\
  (k = "carrot" -> contains n "local" = true ->
     CarbonService.find_carbon_intensity name0 == 12 # 100 /\
     CarbonService.get_impact_level (CarbonService.find_carbon_intensity name0) = "low").
Proof.
  intros Hl Hf n.
  assert (E : CarbonService.find_carbon_intensity name0 = (v * CarbonService.modifier n)%Q).
  { unfold CarbonService.find_carbon_intensity. cbv zeta. rewrite Hl, Hf. reflexivity. }
  rewrite E. unfold CarbonService.modifier.
  split; [|split; [|split; [|split]]].
  - intros H1. rewrite H1. rewrite Qmult_1_l. reflexivity.
  - intros H1 H2. rewrite H1, H2. rewrite Qmult_1_l. reflexivity.
  - intros H1 H2 H3. rewrite H1, H2, H3. rewrite Qmult_1_l. reflexivity.
  - intros H1 H2 H3. rewrite H1, H2, H3. rewrite Qmult_1_r. reflexivity.
  - intros -> H1. rewrite H1.
    pose proof (find_lookup _ _ _ _ carbon_keys_nodup Hf) as Hv.
    vm_compute in Hv. inversion Hv; subst v.
    split; vm_compute; reflexivity.
Qed.

Lemma partial_match_intensity_witness :
  CarbonService.find_carbon_intensity "local organic carrot" == 12 # 100 /\
  CarbonService.get_impact_level (CarbonService.find_carbon_intensity "local organic carrot") = "low".
Proof.
  apply (partial_match_intensity "local organic carrot" "carrot" (4 # 10)).
  - vm_compute. reflexivity.
  - vm_compute. reflexivity.
  - reflexivity.
  - vm_compute. reflexivity.
Defined.

(** ** C8 *)

Lemma item_score_bounds it : (20 <= CarbonService.item_score it <= 100)%Z.
Proof.
  unfold CarbonService.item_score. cbv zeta.
  destruct (String.eqb (CarbonService.impact_level it) "low");
  [|destruct (String.eqb (CarbonService.impact_level it) "medium")];
  destruct (CarbonService.is_local it); destruct (CarbonService.is_organic it); lia.
Qed.

Lemma score_sum_bounds es : forall acc,
  (acc + 20 * Z.of_nat (length es) <=
   fold_left (fun acc it => acc + CarbonService.item_score it) es acc <=
   acc + 100 * Z.of_nat (length es))%Z.
Proof.
  induction es as [|it tl IH]; intros acc; simpl; [lia|].
  pose proof (item_score_bounds it). specialize (IH (acc + CarbonService.item_score it)%Z). lia.
Qed.

(** C8 (counterexample): the score truncates the mean. For [carrot]
    (score 80) and [local carrot bunch] (score 95) the mean is 87.5, while
    the returned score is 87. *)
Lemma sustainability_score_counterexample :
  map CarbonService.item_score
      [CarbonService.item_emission "carrot"; CarbonService.item_emission "local carrot bunch"]
  = [80%Z; 95%Z] /\
  CarbonService.calculate_sustainability_score
      [CarbonService.item_emission "carrot"; CarbonService.item_emission "local carrot bunch"]
  = 87%Z /\
  (2 * 87 <> 80 + 95)%Z.
Proof. split; [|split]; [vm_compute; reflexivity | vm_compute; reflexivity | lia]. Qed.

(** C8 (amended): the score is 50 for an empty sequence and otherwise the
    sum of the per-item scores [min(100, base + bonuses)] divided by the
    number of items and truncated toward zero (the cap at 100 on the result
    never changes it); each per-item score lies between 20 and 100, and the
    score always lies in [0, 100]. *)
Theorem sustainability_score_truncated_mean es :
  CarbonService.calculate_sustainability_score es =
    match es with
    | [] => 50%Z
    | _ => Z.quot (fold_left (fun acc it => acc + CarbonService.item_score it)%Z es 0%Z)
                  (Z.of_nat (length es))
    end /\
  Forall (fun it => 20 <= CarbonService.item_score it <= 100)%Z es /\
  (0 <= CarbonService.calculate_sustainability_score es <= 100)%Z.
Proof.
  assert (Hq : forall it tl,
    let l := it :: tl in
    let t := fold_left (fun acc it => acc + CarbonService.item_score it)%Z l 0%Z in
    (0 <= Z.quot t (Z.of_nat (length l)) <= 100)%Z).
  { intros it tl l t.
    pose proof (score_sum_bounds l 0%Z) as Hb. fold t in Hb.
    assert (Hn : (0 < Z.of_nat (length l))%Z) by (simpl; lia).
    rewrite Z.quot_div_nonneg by lia. split.
    - apply Z.div_pos; lia.
    - apply Z.div_le_upper_bound; lia. }
  split; [|split].
  - destruct es as [|it tl]; [reflexivity|].
    unfold CarbonService.calculate_sustainability_score.
    apply Z.min_l. apply (Hq it tl).
  - apply Forall_forall. intros it _. apply item_score_bounds.
  - destruct es as [|it tl]; [simpl; lia|].
    unfold CarbonService.calculate_sustainability_score.
    pose proof (Hq it tl) as H. cbv zeta in H. lia.
Qed.

(** ** C9 *)

Section Layout.
Import OCRService.

Lemma add_to_row_keys k c rows x :
  In x (map fst (add_to_row k c rows)) <-> x = k \/ In x (map fst rows).
Proof.
  induction rows as [|[k' cs] tl IH]; simpl; [intuition congruence|].
  destruct (Z.eqb k k') eqn:E; simpl.
  - apply Z.eqb_eq in E. subst k'. intuition congruence.
  - rewrite IH. intuition congruence.
Qed.

Lemma add_to_row_nodup k c rows :
  NoDup (map fst rows) -> NoDup (map fst (add_to_row k c rows)).
Proof.
  induction rows as [|[k' cs] tl IH]; simpl; intros Hnd.
  - constructor; [intros [] | constructor].
  - inversion Hnd as [|? ? Hnotin Hnd']; subst.
    destruct (Z.eqb k k') eqn:E; simpl.
    + exact Hnd.
    + constructor; [|exact (IH Hnd')].
      rewrite add_to_row_keys. intros [Heq|Hin].
      * subst k'. rewrite Z.eqb_refl in E. discriminate.
      * exact (Hnotin Hin).
Qed.

Lemma add_to_row_length k c rows :
  (length (add_to_row k c rows) <= S (length rows))%nat.
Proof.
  induction rows as [|[k' cs] tl IH]; simpl; [lia|].
  destruct (Z.eqb k k'); simpl; lia.
Qed.

Lemma add_line_props rows line :
  (NoDup (map fst rows) -> NoDup (map fst (add_line rows line))) /\
  (length (add_line rows line) <= S (length rows))%nat.
Proof.
  unfold add_line.
  destruct line as [bbox info|]; [|split; [tauto | lia]].
  destruct info as [t c|t|]; cbv zeta;
    try (split; [tauto | lia]);
    (destruct (Qlt_le_dec _ _); [split; [tauto | lia]|]);
    (destruct bbox as [|p ps]; [split; [tauto | lia]|]);
    (split; [apply add_to_row_nodup | apply add_to_row_length]).
Qed.

Lemma group_rows_props es : forall acc,
  (NoDup (map fst acc) -> NoDup (map fst (fold_left add_line es acc))) /\
  (length (fold_left add_line es acc) <= length acc + length es)%nat.
Proof.
  induction es as [|e tl IH]; intros acc; simpl; [split; [tauto | lia]|].
  destruct (add_line_props acc e) as [H1 H2].
  destruct (IH (add_line acc e)) as [H3 H4].
  split; [tauto | lia].
Qed.

Lemma insert_key_in k l x : In x (insert_key k l) <-> x = k \/ In x l.
Proof.
  induction l as [|k' tl IH]; simpl; [intuition congruence|].
  destruct (Z.leb k k'); simpl; [intuition congruence|]. rewrite IH. intuition congruence.
Qed.

Lemma insert_key_length k l : length (insert_key k l) = S (length l).
Proof.
  induction l as [|k' tl IH]; simpl; [reflexivity|].
  destruct (Z.leb k k'); simpl; [reflexivity | rewrite IH; reflexivity].
Qed.

Lemma insert_key_sorted k l :
  StronglySorted Z.lt l -> ~ In k l -> StronglySorted Z.lt (insert_key k l).
Proof.
  induction l as [|k' tl IH]; simpl; intros Hs Hn.
  - constructor; constructor.
  - inversion Hs as [|? ? Hs' Hf]; subst.
    destruct (Z.leb k k') eqn:E.
    + apply Z.leb_le in E.
      assert (Hlt : (k < k')%Z) by (assert (k <> k') by (intros Heq; apply Hn; left; congruence); lia).
      constructor; [exact Hs|]. constructor; [exact Hlt|].
      eapply Forall_impl; [|exact Hf]. intros a Ha. lia.
    + apply Z.leb_gt in E. constructor.
      * apply IH; [exact Hs' | tauto].
      * apply Forall_forall. intros a Ha. apply insert_key_in in Ha as [->|Ha]; [lia|].
        rewrite Forall_forall in Hf. exact (Hf a Ha).
Qed.

Lemma sort_keys_props l :
  NoDup l ->
  StronglySorted Z.lt (sort_keys l) /\ length (sort_keys l) = length l /\
  (forall x, In x (sort_keys l) <-> In x l).
Proof.
  induction l as [|a tl IH]; intros Hnd.
  - split; [constructor | split; [reflexivity | tauto]].
  - inversion Hnd as [|? ? Hnotin Hnd']; subst.
    destruct (IH Hnd') as [Hs [Hl Hin]].
    unfold sort_keys. simpl. fold (sort_keys tl).
    split; [|split].
    + apply insert_key_sorted; [exact Hs|]. rewrite Hin. exact Hnotin.
    + rewrite insert_key_length, Hl. reflexivity.
    + intros x. rewrite insert_key_in, Hin. simpl. intuition congruence.
Qed.

Lemma filter_sorted_fst {B} (f : Z * B -> bool) (l : list (Z * B)) :
  StronglySorted Z.lt (map fst l) -> StronglySorted Z.lt (map fst (filter f l)).
Proof.
  induction l as [|[k v] tl IH]; simpl; intros Hs; [constructor|].
  inversion Hs as [|? ? Hs' Hf]; subst.
  destruct (f (k, v)); simpl; [|exact (IH Hs')].
  constructor; [exact (IH Hs')|].
  apply Forall_forall. intros x Hx. apply in_map_iff in Hx as [[k2 v2] [<- Hx]].
  apply filter_In in Hx as [Hx _]. rewrite Forall_forall in Hf.
  apply Hf. apply (in_map fst) in Hx. exact Hx.
Qed.

Lemma filter_length_le' {A} (f : A -> bool) (l : list A) :
  (length (filter f l) <= length l)%nat.
Proof. induction l as [|a tl IH]; simpl; [lia|]. destruct (f a); simpl; lia. Qed.

End Layout.

(** C9: the layout reconstructor emits at most one line per input fragment
    (the emitted lines being its non-blank rows, each one a bucket of
    fragments), the emitted lines appear in strictly ascending order of
    their vertical-bucket key [round(y / 10) * 10], and an empty input
    produces the empty string. *)
Theorem layout_lines_sorted (es : list OCRService.OcrLine) :
  (length (OCRService.layout_lines es) <= length es)%nat /\
  StronglySorted Z.lt (map fst (OCRService.layout_lines es)) /\
  OCRService.process_structured_data [] = "".
Proof.
  destruct (group_rows_props es []) as [Hnd Hlen].
  specialize (Hnd (NoDup_nil _)). simpl in Hlen.
  fold (OCRService.group_rows es) in Hnd, Hlen.
  destruct (sort_keys_props _ Hnd) as [Hs [Hl _]].
  unfold OCRService.layout_lines. cbv zeta.
  split; [|split].
  - eapply Nat.le_trans; [apply filter_length_le'|].
    rewrite length_map, Hl, length_map. exact Hlen.
  - apply filter_sorted_fst. rewrite map_map. simpl. rewrite map_id. exact Hs.
  - reflexivity.
Qed.

(* ================================================================== *)
(** * Further properties of the carbon service *)

Section CarbonExtras.
Import CarbonService CarbonFootprint.
Local Open Scope Q_scope.

Lemma lookup_in k tbl v : lookup k tbl = Some v -> In (k, v) tbl.
Proof.
  induction tbl as [|[k' v'] tl IH]; simpl; [discriminate|].
  destruct (String.eqb k k') eqn:E.
  - intros H. inversion H; subst. apply String.eqb_eq in E. subst. left. reflexivity.
  - intros H. right. apply IH, H.
Qed.

Lemma carbon_values_bounds kv : In kv carbon_intensities -> 0 <= snd kv <= 60.
Proof.
  intros Hin.
  assert (C : forallb (fun kv => Qle_bool 0 (snd kv) && Qle_bool (snd kv) 60) carbon_intensities = true)
    by (vm_compute; reflexivity).
  rewrite forallb_forall in C. apply C in Hin.
  apply andb_true_iff in Hin as [H1 H2]. apply Qle_bool_iff in H1, H2. split; assumption.
Qed.

(** [_find_carbon_intensity] always returns a value between 0 and 90
    kg CO2e per kg: the table values lie in [0, 60], and the partial-match
    modifier is at most 1.5. *)
Theorem find_carbon_intensity_bounds (name : string) :
  0 <= find_carbon_intensity name <= 90.
Proof.
  unfold find_carbon_intensity. cbv zeta.
  destruct (lookup _ carbon_intensities) as [v|] eqn:E.
  { apply lookup_in, carbon_values_bounds in E. simpl in E. lra. }
  destruct (find _ carbon_intensities) as [[k v]|] eqn:F.
  { apply find_some in F as [F _]. apply carbon_values_bounds in F. simpl in F.
    unfold modifier.
    destruct (contains _ "local"); [lra|].
    destruct (contains _ "organic"); [lra|].
    destruct (contains _ "imported"); lra. }
  repeat match goal with |- context [if ?b then _ else _] => destruct b end;
    split; apply Qle_bool_iff; vm_compute; reflexivity.
Qed.

Lemma in_firstn {A} n (l : list A) x : In x (firstn n l) -> In x l.
Proof. intros H. rewrite <- (firstn_skipn n l). apply in_or_app. left. exact H. Qed.

(** [_generate_recommendations] emits at most four recommendations: one
    substitution for each of the first three high-impact items, in their
    order (the i-th naming the i-th high-impact item and giving its
    suggestion), and no other substitution; then a single sourcing
    recommendation, present exactly when some item is not local, and always
    last. *)
Theorem generate_recommendations_shape (es : list Emission) :
  let rs := generate_recommendations es in
  (length rs <= 4)%nat /\
  length rs = (Nat.min 3 (length (filter is_high es))
               + (if existsb (fun e => negb (e_is_local e)) es then 1 else 0))%nat /\
  (forall i e, (i < 3)%nat -> nth_error (filter is_high es) i = Some e ->
     exists p, nth_error rs i = Some (Substitution (e_name e) (get_substitution_suggestion e) p)) /\
  (In Sourcing rs <-> exists e, In e es /\ e_is_local e = false) /\
  (forall c r p, In (Substitution c r p) rs ->
     exists e, In e es /\ is_high e = true /\ e_name e = c /\ r = get_substitution_suggestion e) /\
  (forall i, nth_error rs i = Some Sourcing -> i = pred (length rs)).
Proof.
  cbv zeta. unfold generate_recommendations. cbv zeta.
  set (subs := map _ (firstn 3 (filter is_high es))).
  assert (Hsub : forall x, In x subs -> exists c r p, x = Substitution c r p /\
             exists e, In e es /\ is_high e = true /\ e_name e = c /\ r = get_substitution_suggestion e).
  { intros x Hx. unfold subs in Hx. apply in_map_iff in Hx as [e [<- He]].
    apply in_firstn in He. apply filter_In in He as [He Hh].
    do 3 eexists. split; [reflexivity|]. exists e. auto. }
  assert (Hlen : (length subs <= 3)%nat).
  { unfold subs. rewrite length_map, length_firstn. lia. }
  assert (Hex : existsb (fun e => negb (e_is_local e)) es = true <->
                exists e, In e es /\ e_is_local e = false).
  { rewrite existsb_exists. split; intros [e [H1 H2]]; exists e; split; auto.
    - destruct (e_is_local e); [discriminate|reflexivity].
    - rewrite H2. reflexivity. }
  split; [|split; [|split; [|split; [|split]]]].
  - rewrite length_app. destruct existsb; simpl; lia.
  - rewrite length_app. unfold subs. rewrite length_map, length_firstn.
    destruct existsb; reflexivity.
  - intros i e Hi He. eexists.
    rewrite nth_error_app1.
    + unfold subs. rewrite nth_error_map, nth_error_firstn.
      destruct (Nat.ltb_spec i 3); [|lia]. rewrite He. reflexivity.
    + unfold subs. rewrite length_map, length_firstn.
      assert (Hs : (i < length (filter is_high es))%nat)
        by (apply nth_error_Some; congruence).
      lia.
  - rewrite <- Hex. rewrite in_app_iff. split.
    + intros [H|H].
      * apply Hsub in H as [? [? [? [H _]]]]. discriminate.
      * destruct existsb; [reflexivity|destruct H].
    + intros ->. right. left. reflexivity.
  - intros c r p H. apply in_app_iff in H as [H|H].
    + apply Hsub in H as [c' [r' [p' [Heq He]]]]. inversion Heq; subst. exact He.
    + destruct existsb; simpl in H; [destruct H as [H|[]]; discriminate|destruct H].
  - intros i Hi. rewrite length_app.
    destruct (Nat.lt_ge_cases i (length subs)) as [Hl|Hl].
    + rewrite nth_error_app1 in Hi by exact Hl.
      apply nth_error_In in Hi. apply Hsub in Hi as [? [? [? [H _]]]]. discriminate.
    + rewrite nth_error_app2 in Hi by exact Hl.
      destruct existsb; simpl in *.
      * destruct (i - length subs)%nat eqn:E; simpl in Hi; [lia|].
        destruct n; discriminate.
      * destruct (i - length subs)%nat; discriminate.
Qed.

Lemma add_cat_keys c v d x : In x (map fst (add_cat c v d)) <-> x = c \/ In x (map fst d).
Proof.
  induction d as [|[c' y] tl IH]; simpl; [intuition congruence|].
  destruct (String.eqb c c') eqn:E; simpl.
  - apply String.eqb_eq in E. subst c'. intuition congruence.
  - rewrite IH. intuition congruence.
Qed.

Lemma add_cat_nodup c v d : NoDup (map fst d) -> NoDup (map fst (add_cat c v d)).
Proof.
  induction d as [|[c' y] tl IH]; simpl; intros Hnd.
  - constructor; [intros []|constructor].
  - inversion Hnd as [|? ? Hn Hnd']; subst.
    destruct (String.eqb c c') eqn:E; simpl; [exact Hnd|].
    constructor; [|exact (IH Hnd')].
    rewrite add_cat_keys. intros [H|H]; [|exact (Hn H)].
    subst c'. rewrite String.eqb_refl in E. discriminate.
Qed.

Lemma add_cat_sum c v d : qsum (map snd (add_cat c v d)) == qsum (map snd d) + v.
Proof.
  induction d as [|[c' y] tl IH]; simpl.
  - unfold qsum. simpl. ring.
  - destruct (String.eqb c c'); simpl; unfold qsum in *; simpl; [ring|].
    rewrite IH. ring.
Qed.

Lemma footprint_loop_props ts items : forall tot acc cats t es cs,
  footprint_loop ts items tot acc cats = Ret (t, es, cs) ->
  exists es', es = (acc ++ es')%list /\ length es' = length items /\
    t == tot + qsum (map e_total_co2 es') /\
    qsum (map snd cs) == qsum (map snd cats) + qsum (map e_total_co2 es') /\
    (NoDup (map fst cats) -> NoDup (map fst cs)) /\
    (forall x, In x (map fst cs) <-> In x (map fst cats) \/ exists e, In e es' /\ e_category e = x).
Proof.
  induction items as [|it tl IH]; intros tot acc cats t es cs H; simpl in H.
  - inversion H; subst. exists []. rewrite app_nil_r. unfold qsum. simpl.
    split; [reflexivity|]. split; [reflexivity|].
    split; [ring|]. split; [ring|]. split; [auto|].
    intros x. split; [intros Hx; left; exact Hx|intros [Hx|[e [[] _]]]; exact Hx].
  - destruct it as [| | | | |d]; try discriminate.
    destruct (calculate_item_emissions ts d) as [e|] eqn:Ee; [|discriminate]. simpl in H.
    apply IH in H as [es' [Hes [Hl [Ht [Hc [Hn Hk]]]]]].
    exists (e :: es'). rewrite <- app_assoc in Hes. simpl.
    split; [exact Hes|]. split; [rewrite Hl; reflexivity|].
    unfold qsum in *. simpl.
    split; [rewrite Ht; ring|].
    split; [rewrite Hc, add_cat_sum; unfold qsum; ring|].
    split; [intros Hnd; apply Hn, add_cat_nodup, Hnd|].
    intros x. rewrite Hk, add_cat_keys. split.
    + intros [[Hx|Hx]|[e' [H1 H2]]].
      * right. exists e. split; [left; reflexivity|congruence].
      * left. exact Hx.
      * right. exists e'. split; [right; exact H1|exact H2].
    + intros [Hx|[e' [[H1|H1] H2]]].
      * left. right. exact Hx.
      * subst e'. left. left. congruence.
      * right. exists e'. split; assumption.
Qed.

Lemma sustainability_score_range (l : list ItemEmission) :
  (20 <= calculate_sustainability_score l <= 100)%Z.
Proof.
  unfold calculate_sustainability_score. destruct l as [|it tl]; [lia|].
  set (n := length (it :: tl)).
  pose proof (score_sum_bounds (it :: tl) 0) as Hb. fold n in Hb.
  assert (Hn : (0 < Z.of_nat n)%Z) by (unfold n; simpl; lia).
  set (tot := fold_left _ _ _) in *.
  rewrite Z.quot_div_nonneg by lia.
  split; [|apply Z.le_min_r].
  apply Z.min_glb; [|lia].
  apply Z.div_le_lower_bound; lia.
Qed.

Lemma footprint_loop_items ts items : forall tot acc cats t es cs,
  footprint_loop ts items tot acc cats = Ret (t, es, cs) ->
  exists es', es = (acc ++ es')%list /\
    Forall2 (fun it e => exists d, it = JObj d /\ calculate_item_emissions ts d = Ret e) items es'.
Proof.
  induction items as [|it tl IH]; intros tot acc cats t es cs H; simpl in H.
  - inversion H; subst. exists []. rewrite app_nil_r. split; [reflexivity | constructor].
  - destruct it as [| | | | |d]; try discriminate.
    destruct (calculate_item_emissions ts d) as [e|] eqn:Ee; [|discriminate]. simpl in H.
    apply IH in H as [es' [Hes HF]].
    exists (e :: es'). rewrite <- app_assoc in Hes. split; [exact Hes|].
    constructor; [exists d; split; [reflexivity | exact Ee] | exact HF].
Qed.

(** [calculate_footprint], when it returns: the summary counts every input
    item; the per-item list holds, in order, the result of
    [_calculate_item_emissions] for each input item (each of them a dict);
    the high-impact count is at most the item count; the score lies in
    [20, 100]; and the category keys are distinct and are exactly the
    categories of the items. *)
Theorem calculate_footprint_summary (to_str : JVal -> string) (items : list JVal) (f : Footprint) :
  calculate_footprint to_str items = Ret f ->
  total_items f = length items /\
  length (emissions_by_item f) = length items /\
  Forall2 (fun it e => exists d, it = JObj d /\ calculate_item_emissions to_str d = Ret e)
          items (emissions_by_item f) /\
  (high_impact_items f <= total_items f)%nat /\
  (20 <= sustainability_score f <= 100)%Z /\
  NoDup (map fst (emissions_by_category f)) /\
  (forall c, In c (map fst (emissions_by_category f)) <->
             exists e, In e (emissions_by_item f) /\ e_category e = c).
Proof.
  unfold calculate_footprint. intros H.
  destruct (footprint_loop to_str items 0 [] []) as [[[t es] cs]|] eqn:E; [|discriminate].
  simpl in H. inversion H; subst f. clear H. simpl.
  pose proof (footprint_loop_items _ _ _ _ _ _ _ _ E) as [es2 [Hes2 HF]].
  simpl in Hes2. subst es2.
  apply footprint_loop_props in E as [es' [Hes [Hl [_ [_ [Hn Hk]]]]]].
  simpl in Hes. subst es'.
  split; [reflexivity|]. split; [exact Hl|]. split; [exact HF|].
  split; [rewrite <- Hl; apply filter_length_le'|].
  split; [apply sustainability_score_range|].
  split; [apply Hn; constructor|].
  intros c. rewrite Hk. simpl. intuition.
Qed.

Lemma calculate_footprint_summary_witness :
  let items := [JObj [("name", JStr "Ground Beef"); ("quantity", JStr "2 lbs"); ("price", JNum 18)];
                JObj [("name", JStr "local carrot"); ("price", JBool true)]] in
  exists f, calculate_footprint py_str items = Ret f /\
  total_items f = length items /\
  length (emissions_by_item f) = length items /\
  Forall2 (fun it e => exists d, it = JObj d /\ calculate_item_emissions py_str d = Ret e)
          items (emissions_by_item f) /\
  (high_impact_items f <= total_items f)%nat /\
  (20 <= sustainability_score f <= 100)%Z /\
  NoDup (map fst (emissions_by_category f)) /\
  (forall c, In c (map fst (emissions_by_category f)) <->
             exists e, In e (emissions_by_item f) /\ e_category e = c).
Proof.
  cbv zeta. eexists. split.
  - cbv. reflexivity.
  - apply (calculate_footprint_summary py_str). vm_compute. reflexivity.
Defined.

Lemma calculate_item_emissions_ok ts d :
  (exists e, calculate_item_emissions ts d = Ret e) <-> emission_input_ok (JObj d).
Proof.
  unfold emission_input_ok, calculate_item_emissions.
  split.
  - intros [e H]. exists d. split; [reflexivity|].
    destruct (get_or "name" d (JStr "")); try discriminate.
    split; [exact I|].
    destruct (get_or "price" d (JNum 0)); simpl in H; try discriminate; exact I.
  - intros [d' [Hd [Hn Hp]]]. inversion Hd; subst d'.
    destruct (get_or "name" d (JStr "")); try contradiction.
    destruct (get_or "price" d (JNum 0)); try contradiction; eexists; reflexivity.
Qed.

Lemma footprint_loop_ok ts items : forall tot acc cats,
  (exists r, footprint_loop ts items tot acc cats = Ret r) <-> Forall emission_input_ok items.
Proof.
  induction items as [|it tl IH]; intros tot acc cats; simpl.
  - split; [constructor|eauto].
  - rewrite Forall_cons_iff.
    destruct it as [| | | | |d]; simpl;
      try (split; [intros [r H]; discriminate|intros [[d [Hd _]] _]; discriminate]).
    rewrite <- calculate_item_emissions_ok.
    destruct (calculate_item_emissions ts d) as [e|] eqn:E; simpl.
    + rewrite IH. split; [intros H; split; [eauto|exact H]|intros [_ H]; exact H].
    + split; [intros [r H]; discriminate|intros [[e H] _]; congruence].
Qed.

(** [calculate_footprint] raises exactly when some item is not a dict, has a
    [name] that is not a string (it calls [.lower()] on it), or has a
    [price] that is neither a number nor a bool (it compares it with 0);
    a missing name or price takes the default and is accepted. *)
Theorem calculate_footprint_succeeds (to_str : JVal -> string) (items : list JVal) :
  (exists f, calculate_footprint to_str items = Ret f) <-> Forall emission_input_ok items.
Proof.
  unfold calculate_footprint. rewrite <- (footprint_loop_ok to_str items 0 [] []).
  destruct (footprint_loop to_str items 0 [] []) as [[[t es] cs]|]; simpl.
  - split; eauto.
  - split; intros [r H]; discriminate.
Qed.

End CarbonExtras.

(* ================================================================== *)
(** * Soundness of the regex matcher: what a match can consume *)

Section RegexFacts.
Import Re.
Local Open Scope list_scope.

Lemma mt_star fl fuel g r1 st k :
  mt fl fuel (RStar g r1) st k = star_loop fl fuel g r1 k fuel st.
Proof. reflexivity. Qed.

Lemma star_loop_S fl fuel g r1 k f st :
  star_loop fl fuel g r1 k (S f) st =
  (if g then orelse (mt fl fuel r1 st (fun st' => if (pos st' =? pos st)%nat then None
                                                  else star_loop fl fuel g r1 k f st'))
                    (fun _ => k st)
   else orelse (k st) (fun _ => mt fl fuel r1 st (fun st' => if (pos st' =? pos st)%nat then None
                                                            else star_loop fl fuel g r1 k f st'))).
Proof. reflexivity. Qed.

Lemma orelse_some {A} (a : option A) b x :
  orelse a b = Some x -> a = Some x \/ b tt = Some x.
Proof. destruct a; simpl; [left|right]; congruence. Qed.

Lemma steps_refl P st : steps P st st.
Proof. exists []. simpl. split; [reflexivity|]. split; [lia|constructor]. Qed.

Lemma steps_trans P a b c : steps P a b -> steps P b c -> steps P a c.
Proof.
  intros [w1 [H1 [H2 H3]]] [w2 [H4 [H5 H6]]]. exists (w1 ++ w2).
  rewrite <- app_assoc, <- H4, length_app. split; [exact H1|]. split; [lia|].
  apply Forall_app. split; assumption.
Qed.

Lemma steps_advance P st c tl : rest st = c :: tl -> P c -> steps P st (advance st tl).
Proof.
  intros H Hc. exists [c]. simpl. rewrite H. split; [reflexivity|]. split; [lia|].
  constructor; [exact Hc|constructor].
Qed.

Lemma mt_only P fl fuel r : re_only P fl r -> forall st k res,
  mt fl fuel r st k = Some res -> exists st', k st' = Some res /\ steps P st st'.
Proof.
  induction r as [| p | | neg its | | | r1 IH1 r2 IH2 | r1 IH1 r2 IH2 | g r1 IH | g r1 IH | n r1 IH | r1 IH];
    simpl; intros Ho st k res H.
  - exists st. split; [exact H|apply steps_refl].
  - destruct (rest st) as [|c tl] eqn:E; [discriminate|].
    destruct (lit_match fl p c) eqn:Em; [|discriminate].
    exists (advance st tl). split; [exact H|]. apply (steps_advance P st c tl E). apply Ho, Em.
  - destruct (rest st) as [|c tl] eqn:E; [discriminate|].
    destruct (dotall fl || negb (Ascii.eqb c "010"%char)) eqn:Em; [|discriminate].
    exists (advance st tl). split; [exact H|]. apply (steps_advance P st c tl E). apply Ho, Em.
  - destruct (rest st) as [|c tl] eqn:E; [discriminate|].
    destruct (xorb neg (class_match fl its c)) eqn:Em; [|discriminate].
    exists (advance st tl). split; [exact H|]. apply (steps_advance P st c tl E). apply Ho, Em.
  - destruct (pos st =? 0)%nat; [|discriminate]. exists st. split; [exact H|apply steps_refl].
  - destruct (rest st) as [|c [|c' tl]].
    + exists st. split; [exact H|apply steps_refl].
    + destruct (Ascii.eqb c "010"%char); [|discriminate]. exists st. split; [exact H|apply steps_refl].
    + discriminate.
  - destruct Ho as [Ho1 Ho2].
    apply (IH1 Ho1) in H as [st1 [H1 S1]]. apply (IH2 Ho2) in H1 as [st2 [H2 S2]].
    exists st2. split; [exact H2|]. eapply steps_trans; eassumption.
  - destruct Ho as [Ho1 Ho2].
    apply orelse_some in H as [H|H]; [apply (IH1 Ho1) in H|apply (IH2 Ho2) in H]; exact H.
  - change (star_loop fl fuel g r1 k fuel st = Some res) in H.
    revert st H. generalize fuel at 2 as f0. intros f0.
    induction f0 as [|f IHf]; intros st H.
    + exists st. split; [exact H|apply steps_refl].
    + rewrite star_loop_S in H.
      assert (Hit : mt fl fuel r1 st (fun st' => if (pos st' =? pos st)%nat then None
                                               else star_loop fl fuel g r1 k f st') = Some res ->
                    exists st', k st' = Some res /\ steps P st st').
      { intros Hm. apply (IH Ho) in Hm as [st1 [H1 S1]].
        destruct (pos st1 =? pos st)%nat; [discriminate|].
        apply IHf in H1 as [st2 [H2 S2]]. exists st2. split; [exact H2|]. eapply steps_trans; eassumption. }
      destruct g; apply orelse_some in H as [H|H];
        try (apply Hit; exact H); exists st; (split; [exact H|apply steps_refl]).
  - destruct g; apply orelse_some in H as [H|H];
      try (apply (IH Ho) in H; exact H); exists st; (split; [exact H|apply steps_refl]).
  - apply (IH Ho) in H as [st1 [H1 [w [S1 [S2 S3]]]]].
    exists (set_cap st1 n (pos st, pos st1)). split; [exact H1|].
    exists w. simpl. split; [exact S1|]. split; [exact S2|exact S3].
  - destruct (mt fl fuel r1 st Some) as [st1|]; [|discriminate].
    eexists. split; [exact H|]. exists []. simpl. split; [reflexivity|]. split; [lia|constructor].
Qed.

Lemma firstn_length_app {A} (w l : list A) : firstn (length w) (w ++ l) = w.
Proof. induction w as [|a w IH]; simpl; [reflexivity|rewrite IH; reflexivity]. Qed.

(** A match found by [try_at] spans a segment [w] of the input whose
    characters are all accepted by the atoms of the pattern. *)
Lemma try_at_only P fl r input p m : re_only P fl r -> try_at fl r input p = Some m ->
  exists w, group_or_empty m 0 = string_of_list_ascii w /\ Forall P w /\
            exists pre post, input = pre ++ w ++ post.
Proof.
  intros Ho. unfold try_at.
  destruct (mt fl (S (length input)) r {| pos := p; rest := skipn p input; caps := [] |} Some)
    as [st|] eqn:E; [|discriminate].
  intros H. inversion H; subst m. clear H.
  apply (mt_only P fl _ r Ho) in E as [st' [Hk [w [H1 [H2 H3]]]]].
  inversion Hk; subst st'. simpl in H1, H2.
  exists w. split; [|split; [exact H3|]].
  - unfold group_or_empty, group, substr. simpl.
    rewrite H1, H2. replace (p + length w - p) with (length w) by lia.
    rewrite firstn_length_app. reflexivity.
  - exists (firstn p input), (rest st). rewrite <- H1. symmetry. apply firstn_skipn.
Qed.

Lemma search_from_try fl r l n : forall p m,
  search_from fl r l p n = Some m -> exists q, try_at fl r l q = Some m.
Proof.
  induction n as [|n IH]; intros p m; simpl;
    destruct (try_at fl r l p) as [m'|] eqn:E; intros H.
  - inversion H; subst. exists p. exact E.
  - discriminate.
  - inversion H; subst. exists p. exact E.
  - apply IH in H. exact H.
Qed.

Lemma iter_from_try fl r l n : forall p m,
  In m (iter_from fl r l p n) -> exists q, try_at fl r l q = Some m.
Proof.
  induction n as [|n IH]; intros p m; simpl; [intros []|].
  destruct (length l <? p)%nat; [intros []|].
  destruct (search_from fl r l p (length l - p)) as [m'|] eqn:E; [|intros []].
  intros [H|H].
  - subst m'. eapply search_from_try. exact E.
  - apply IH in H. exact H.
Qed.

End RegexFacts.

(* ================================================================== *)
(** * [_extract_quantity] *)

Section QuantityFacts.

Lemma lstrip_in l c : In c (lstrip_l l) -> In c l.
Proof. induction l as [|a l IH]; simpl; [auto|]. destruct (is_space a); simpl; auto. Qed.

Lemma strip_in s c : In c (list_ascii_of_string (strip s)) -> In c (list_ascii_of_string s).
Proof.
  unfold strip. rewrite list_ascii_of_string_of_list_ascii.
  intros H. apply in_rev in H. apply lstrip_in in H. apply in_rev in H. apply lstrip_in in H. exact H.
Qed.

Lemma sign_split l neg l1 :
  match l with
  | "-"%char :: tl => (true, tl)
  | "+"%char :: tl => (false, tl)
  | _ => (false, l) end = (neg, l1) ->
  (neg = true -> l = "-"%char :: l1) /\ (l1 = l \/ exists c, l = c :: l1).
Proof.
  destruct l as [|c tl]; [intros H; inversion H; subst; split; [discriminate|left; reflexivity]|].
  destruct c as [[] [] [] [] [] [] [] []]; intros H; inversion H; subst;
    (split; [try discriminate; reflexivity|]); (right; eexists; reflexivity) || (left; reflexivity).
Qed.

Lemma span_digits_digits l : Forall (fun c => is_digit c = true) (fst (span_digits l)).
Proof.
  induction l as [|c tl IH]; simpl; [constructor|].
  destruct (is_digit c) eqn:E; [|constructor].
  destruct (span_digits tl) as [d r]. simpl in *. constructor; assumption.
Qed.

Lemma span_digits_none l : (forall c, In c l -> is_digit c = false) -> fst (span_digits l) = [].
Proof.
  destruct l as [|c tl]; simpl; [reflexivity|]. intros H. rewrite (H c (or_introl eq_refl)). reflexivity.
Qed.

Lemma frac_digits l2 fp l3 :
  match l2 with
  | "."%char :: tl => span_digits tl
  | _ => ([], l2) end = (fp, l3) ->
  Forall (fun c => is_digit c = true) fp /\
  ((forall c, In c l2 -> is_digit c = false) -> fp = []).
Proof.
  destruct l2 as [|c tl]; [intros H; inversion H; subst; split; [constructor|reflexivity]|].
  destruct c as [[] [] [] [] [] [] [] []]; intros H;
    try (inversion H; subst; split; [constructor|reflexivity]).
  pose proof (span_digits_digits tl) as D. pose proof (span_digits_none tl) as N.
  rewrite H in D, N. simpl in D, N. split; [exact D|].
  intros Hn. apply N. intros c Hc. apply Hn. right. exact Hc.
Qed.

Lemma digits_val_nonneg l : forall acc, (0 <= acc)%Z -> Forall (fun c => is_digit c = true) l ->
  (0 <= digits_val acc l)%Z.
Proof.
  induction l as [|c tl IH]; intros acc Ha Hd; simpl; [exact Ha|].
  inversion Hd as [|? ? Hc Htl]; subst. apply IH; [|exact Htl].
  unfold is_digit in Hc. apply andb_true_iff in Hc as [H1 _]. apply Nat.leb_le in H1.
  unfold digit_val. lia.
Qed.

Lemma float_of_string_nonneg s q :
  float_of_string s = Some q -> ~ In "-"%char (list_ascii_of_string s) -> (0 <= q)%Q.
Proof.
  intros H Hn. unfold float_of_string in H.
  set (l := list_ascii_of_string (strip s)) in H.
  destruct (match l with
            | "-"%char :: tl => (true, tl)
            | "+"%char :: tl => (false, tl)
            | _ => (false, l) end) as [neg l1] eqn:E1.
  destruct (span_digits l1) as [ip l2] eqn:E2.
  destruct (match l2 with
            | "."%char :: tl => span_digits tl
            | _ => ([], l2) end) as [fp l3] eqn:E3.
  cbv zeta in H.
  assert (Hneg : neg = false).
  { destruct neg; [|reflexivity]. exfalso. apply sign_split in E1 as [E1 _].
    apply Hn, strip_in. fold l. rewrite (E1 eq_refl). left. reflexivity. }
  subst neg.
  assert (Hm : (0 <= digits_val 0 (ip ++ fp))%Z).
  { apply digits_val_nonneg; [lia|]. apply Forall_app. split.
    - pose proof (span_digits_digits l1) as D. rewrite E2 in D. exact D.
    - apply frac_digits in E3 as [D _]. exact D. }
  destruct (_ && _); [discriminate|].
  match type of H with context [match ?x with Some _ => _ | None => _ end] => destruct x as [ex|] end;
    [|discriminate].
  inversion H; subst q. clear H.
  set (e := (ex - Z.of_nat (length fp))%Z).
  destruct (0 <=? e)%Z.
  - assert (0 <= 10 ^ e)%Z by (apply Z.pow_nonneg; lia).
    unfold Qle. simpl. nia.
  - unfold Qle. simpl. lia.
Qed.

Lemma span_digits_none' l : (forall c, In c l -> is_digit c = false) -> span_digits l = ([], l).
Proof.
  destruct l as [|c tl]; simpl; [reflexivity|]. intros H. rewrite (H c (or_introl eq_refl)). reflexivity.
Qed.

Lemma float_of_string_nodigit s :
  (forall c, In c (list_ascii_of_string s) -> is_digit c = false) -> float_of_string s = None.
Proof.
  intros Hn. unfold float_of_string.
  set (l := list_ascii_of_string (strip s)).
  assert (Hl : forall c, In c l -> is_digit c = false) by (intros c Hc; apply Hn, strip_in, Hc).
  destruct (match l with
            | "-"%char :: tl => (true, tl)
            | "+"%char :: tl => (false, tl)
            | _ => (false, l) end) as [neg l1] eqn:E1.
  assert (Hl1 : forall c, In c l1 -> is_digit c = false).
  { apply sign_split in E1 as [_ [E|[c0 E]]]; intros c Hc; apply Hl.
    - rewrite <- E. exact Hc.
    - rewrite E. right. exact Hc. }
  cbv beta iota zeta. rewrite (span_digits_none' l1 Hl1).
  destruct (match l1 with
            | "."%char :: tl => span_digits tl
            | _ => ([], l1) end) as [fp l3] eqn:E3.
  apply frac_digits in E3 as [_ E3]. rewrite (E3 Hl1). reflexivity.
Qed.

Lemma quantity_findall s ns :
  Re.findall "\d+\.?\d*" s Re.NOFLAG = Ret ns -> forall n, In n ns ->
  exists w, n = string_of_list_ascii w /\
            Forall (fun c => is_digit c = true \/ c = "."%char) w /\
            exists pre post, list_ascii_of_string s = (pre ++ w ++ post)%list.
Proof.
  unfold Re.findall. destruct (Re.compile _) as [[r g]|] eqn:Hc; [|discriminate].
  assert (Hr : re_only (fun c => is_digit c = true \/ c = "."%char) Re.NOFLAG r /\ g = 0%nat).
  { vm_compute in Hc. inversion Hc; subst r g. split; [|reflexivity].
    cbn [re_only]. repeat split; intros c Hc';
      cbv [Re.class_match Re.class_has existsb Re.citem_match xorb orb andb Re.icase Re.NOFLAG
           Re.lit_match] in Hc'.
    + left. destruct (is_digit c); [reflexivity|discriminate].
    + left. destruct (is_digit c); [reflexivity|discriminate].
    + right. apply Ascii.eqb_eq in Hc'. symmetry. exact Hc'.
    + left. destruct (is_digit c); [reflexivity|discriminate]. }
  destruct Hr as [Hr ->].
  cbn [exc_bind fst snd]. intros H. injection H as H. subst ns.
  intros n Hn. apply in_map_iff in Hn as [m [Hnm Hm]]. simpl in Hnm. subst n.
  destruct (iter_from_try Re.NOFLAG r (list_ascii_of_string s)
              (S (length (list_ascii_of_string s))) 0 m Hm) as [q Hq].
  apply (try_at_only _ _ _ _ _ _ Hr) in Hq as [w [Hw [HP Hs]]].
  exists w. split; [exact Hw|]. split; [exact HP|exact Hs].
Qed.

(** [_extract_quantity] never returns a negative quantity, and returns 1.0
    for a text without any decimal digit. *)
Theorem extract_quantity_range (s : string) :
  (0 <= CarbonFootprint.extract_quantity s)%Q /\
  ((forall c, In c (list_ascii_of_string s) -> is_digit c = false) ->
   CarbonFootprint.extract_quantity s = 1%Q).
Proof.
  unfold CarbonFootprint.extract_quantity.
  destruct (Re.findall "\d+\.?\d*" s Re.NOFLAG) as [ns|e] eqn:E;
    [|split; [discriminate|reflexivity]].
  destruct ns as [|n ns]; [split; [discriminate|reflexivity]|].
  destruct (quantity_findall s _ E n (or_introl eq_refl)) as [w [-> [HP [pre [post Hs]]]]].
  split.
  - destruct (float_of_string (string_of_list_ascii w)) as [q|] eqn:F; [|discriminate].
    apply (float_of_string_nonneg _ _ F).
    rewrite list_ascii_of_string_of_list_ascii. intros Hin.
    rewrite Forall_forall in HP. destruct (HP _ Hin) as [H|H]; [discriminate|discriminate].
  - intros Hnd. rewrite float_of_string_nodigit; [reflexivity|].
    rewrite list_ascii_of_string_of_list_ascii. intros c Hc. apply Hnd.
    rewrite Hs. apply in_or_app. right. apply in_or_app. left. exact Hc.
Qed.

End QuantityFacts.

Lemma extract_quantity_range_witness :
  CarbonFootprint.extract_quantity "a dozen" = 1%Q /\ (0 <= CarbonFootprint.extract_quantity "a dozen")%Q.
Proof.
  destruct (extract_quantity_range "a dozen") as [H1 H2]. split; [|exact H1].
  apply H2. intros c Hc. simpl in Hc.
  repeat (destruct Hc as [<-|Hc]; [reflexivity|]). destruct Hc.
Defined.

(* ================================================================== *)
(** * [_calculate_item_emissions] *)

Section EmissionFacts.
Import CarbonService CarbonFootprint.
Local Open Scope Q_scope.

Lemma py_round_nonneg q : 0 <= q -> (0 <= OCRService.py_round q)%Z.
Proof.
  intros H. unfold OCRService.py_round.
  assert (Hf : (0 <= Qfloor q)%Z).
  { change 0%Z with (Qfloor 0). apply Qfloor_resp_le. exact H. }
  destruct (_ ?= _); [destruct (Z.even _)| |]; lia.
Qed.

Lemma round2_nonneg q : 0 <= q -> 0 <= round2 q.
Proof.
  intros H. unfold round2.
  assert (Hz : 0 <= inject_Z (OCRService.py_round (q * 100))).
  { change 0 with (inject_Z 0). rewrite <- Zle_Qle. apply py_round_nonneg. lra. }
  unfold Qdiv. apply Qmult_le_0_compat; [exact Hz|]. apply Qinv_le_0_compat. lra.
Qed.

(** Every per-item result of [_calculate_item_emissions] has a carbon
    intensity in [0, 90], the impact level of that intensity, and a
    quantity, rounded total CO2 and rounded CO2 per dollar that are never
    negative (whatever the price, which may be zero or negative). *)
Theorem item_emission_ranges (to_str : JVal -> string) (d : list (string * JVal)) (e : Emission) :
  calculate_item_emissions to_str d = Ret e ->
  0 <= e_carbon_intensity e <= 90 /\
  e_impact_level e = get_impact_level (e_carbon_intensity e) /\
  0 <= e_quantity e /\ 0 <= e_total_co2 e /\ 0 <= e_co2_per_dollar e.
Proof.
  unfold calculate_item_emissions.
  destruct (get_or "name" d (JStr "")) as [| | |s0| |]; try discriminate.
  cbv zeta.
  set (q := extract_quantity _). set (ci := find_carbon_intensity _).
  assert (Hq : 0 <= q) by apply extract_quantity_range.
  assert (Hci : 0 <= ci <= 90) by apply find_carbon_intensity_bounds.
  assert (Ht : 0 <= q * ci) by (apply Qmult_le_0_compat; lra).
  intros H.
  assert (Hp : exists pd, 0 <= pd /\
                 Ret e = Ret {| e_name := match get_or "name" d (JStr "Unknown") with
                                          | JStr s => s | _ => "Unknown" end;
                                e_quantity := q; e_carbon_intensity := ci;
                                e_total_co2 := round2 (q * ci);
                                e_impact_level := get_impact_level ci;
                                e_category := categorize_item (str_lower s0);
                                e_price := get_or "price" d (JNum 0);
                                e_co2_per_dollar := round2 pd;
                                e_is_local := contains (str_lower s0) "local";
                                e_is_organic := contains (str_lower s0) "organic" |}).
  { destruct (get_or "price" d (JNum 0)) as [|b|p| | |]; simpl in H; try discriminate.
    - destruct b; eexists; (split; [|symmetry; exact H]); [|lra].
      unfold Qdiv. apply Qmult_le_0_compat; [exact Ht|]. apply Qinv_le_0_compat. lra.
    - destruct (Qle_bool p 0) eqn:Ep; eexists; (split; [|symmetry; exact H]); [lra|].
      assert (0 < p).
      { apply Qnot_le_lt. intros Hle. apply Qle_bool_iff in Hle. congruence. }
      unfold Qdiv. apply Qmult_le_0_compat; [exact Ht|]. apply Qinv_le_0_compat. lra. }
  destruct Hp as [pd [Hpd He]]. inversion He; subst e. simpl.
  split; [exact Hci|]. split; [reflexivity|]. split; [exact Hq|].
  split; apply round2_nonneg; assumption.
Qed.

Lemma item_emission_ranges_witness :
  let d := [("name", JStr "Lamb Chops"); ("quantity", JStr "3 lbs"); ("price", JNum (-5))] in
  exists e, calculate_item_emissions py_str d = Ret e /\
  0 <= e_carbon_intensity e <= 90 /\
  e_impact_level e = get_impact_level (e_carbon_intensity e) /\
  0 <= e_quantity e /\ 0 <= e_total_co2 e /\ 0 <= e_co2_per_dollar e.
Proof.
  cbv zeta. eexists. split.
  - cbv. reflexivity.
  - apply (item_emission_ranges py_str
             [("name", JStr "Lamb Chops"); ("quantity", JStr "3 lbs"); ("price", JNum (-5))]).
    vm_compute. reflexivity.
Defined.

End EmissionFacts.

(* ================================================================== *)
(** * Grouping items by category *)

Section Grouping.
Local Open Scope list_scope.

Lemma dict_set_keys k v d x : In x (map fst (dict_set k v d)) <-> x = k \/ In x (map fst d).
Proof.
  induction d as [|[k' y] tl IH]; simpl; [intuition congruence|].
  destruct (String.eqb k k') eqn:E; simpl.
  - apply String.eqb_eq in E. subst k'. intuition congruence.
  - rewrite IH. intuition congruence.
Qed.

Lemma dict_set_nodup k v d : NoDup (map fst d) -> NoDup (map fst (dict_set k v d)).
Proof.
  induction d as [|[k' y] tl IH]; simpl; intros Hnd.
  - constructor; [intros []|constructor].
  - inversion Hnd as [|? ? Hn Hnd']; subst.
    destruct (String.eqb k k') eqn:E; simpl; [exact Hnd|].
    constructor; [|exact (IH Hnd')].
    rewrite dict_set_keys. intros [H|H]; [|exact (Hn H)].
    subst k'. rewrite String.eqb_refl in E. discriminate.
Qed.

Variables (A : Type) (key : A -> string) (val : A -> JVal).

Lemma group_fold_get items : forall acc c,
  dict_get c (fold_left (fun acc x =>
                dict_set (key x)
                  (JArr (match dict_get (key x) acc with Some (JArr l) => l | _ => [] end ++ [val x]))
                  acc) items acc) =
  match filter (fun x => String.eqb (key x) c) items with
  | [] => dict_get c acc
  | l => Some (JArr (match dict_get c acc with Some (JArr l0) => l0 | _ => [] end ++ map val l))
  end.
Proof.
  induction items as [|x tl IH]; intros acc c; simpl; [reflexivity|].
  rewrite IH. destruct (String.eqb (key x) c) eqn:E.
  - apply String.eqb_eq in E. subst c. rewrite dict_get_set_eq.
    destruct (filter _ tl) as [|y ys]; simpl; [reflexivity|].
    rewrite <- app_assoc. reflexivity.
  - assert (Hne : c <> key x) by (intros ->; rewrite String.eqb_refl in E; discriminate).
    rewrite (dict_get_set_neq c (key x) _ _ Hne). reflexivity.
Qed.

Lemma group_fold_nodup items : forall acc,
  NoDup (map fst acc) ->
  NoDup (map fst (fold_left (fun acc x =>
                dict_set (key x)
                  (JArr (match dict_get (key x) acc with Some (JArr l) => l | _ => [] end ++ [val x]))
                  acc) items acc)).
Proof.
  induction items as [|x tl IH]; intros acc Hnd; simpl; [exact Hnd|].
  apply IH, dict_set_nodup, Hnd.
Qed.

End Grouping.

(** [_categorize_items] groups the items by their [category]: its keys are
    distinct, and the entry of a category is the list of the [_item_to_dict]
    forms of exactly the items of that category, in input order (no entry
    when there is none). *)
Theorem categorize_items_partition (items : list ImprovedInvoiceParser.ExtractedItem) :
  NoDup (map fst (ImprovedInvoiceParser.categorize_items items)) /\
  forall c, dict_get c (ImprovedInvoiceParser.categorize_items items) =
    match filter (fun it => String.eqb (ImprovedInvoiceParser.category it) c) items with
    | [] => None
    | l => Some (JArr (map (fun it => JObj (ImprovedInvoiceParser.item_to_dict it)) l))
    end.
Proof.
  split.
  - exact (group_fold_nodup _ ImprovedInvoiceParser.category
             (fun it => JObj (ImprovedInvoiceParser.item_to_dict it)) items [] (NoDup_nil _)).
  - intros c.
    exact (group_fold_get _ ImprovedInvoiceParser.category
             (fun it => JObj (ImprovedInvoiceParser.item_to_dict it)) items [] c).
Qed.

Lemma categorize_fold acc items :
  LLMInvoiceParser.categorize acc items =
  fold_left (fun acc x =>
     dict_set (py_str (get_or "category" x JNull))
       (JArr (app (match dict_get (py_str (get_or "category" x JNull)) acc with
                   | Some (JArr l) => l | _ => [] end) [JObj x]))
       acc) items acc.
Proof.
  revert acc. induction items as [|x tl IH]; intros acc; simpl; [reflexivity|]. apply IH.
Qed.

(** [_validate_and_clean_data]: the result lists the kept items, counts them
    in [item_count], and its [categorized_items] groups exactly these items
    by category, in order, under distinct keys. *)
Theorem validate_and_clean_data_partition (data : JVal) (r : list (string * JVal)) :
  LLMInvoiceParser.validate_and_clean_data data = Ret (JObj r) ->
  exists vi cat,
    dict_get "items" r = Some (JArr (map JObj vi)) /\
    dict_get "item_count" r = Some (JNum (inject_Z (Z.of_nat (length vi)))) /\
    dict_get "categorized_items" r = Some (JObj cat) /\
    NoDup (map fst cat) /\
    forall c, dict_get c cat =
      match filter (fun it => String.eqb (py_str (get_or "category" it JNull)) c) vi with
      | [] => None
      | l => Some (JArr (map JObj l))
      end.
Proof.
  destruct data as [| | | | |d]; try discriminate.
  unfold LLMInvoiceParser.validate_and_clean_data. intros H. cbv zeta in H.
  apply bind_ret in H as [items [_ H]].
  inversion H; subst r; clear H.
  set (vi := LLMInvoiceParser.valid_items items).
  exists vi, (LLMInvoiceParser.categorize [] vi). simpl.
  split; [reflexivity|]. split; [reflexivity|]. split; [reflexivity|].
  rewrite categorize_fold. split.
  - apply (group_fold_nodup _ (fun x => py_str (get_or "category" x JNull)) JObj vi []).
    constructor.
  - intros c. exact (group_fold_get _ (fun x => py_str (get_or "category" x JNull)) JObj vi [] c).
Qed.

Lemma validate_and_clean_data_partition_witness :
  exists r, LLMInvoiceParser.validate_and_clean_data
      (JObj [("items", JArr [JObj [("name", JStr "Kale"); ("price", JNum 3); ("category", JStr "Vegetables")];
                             JObj [("name", JStr "Ribeye"); ("price", JNum 20); ("category", JStr "protein")];
                             JObj [("name", JStr "Carrots"); ("price", JStr "2.10"); ("category", JStr " vegetables")]])])
    = Ret (JObj r) /\
  exists vi cat,
    dict_get "items" r = Some (JArr (map JObj vi)) /\
    dict_get "item_count" r = Some (JNum (inject_Z (Z.of_nat (length vi)))) /\
    dict_get "categorized_items" r = Some (JObj cat) /\
    NoDup (map fst cat) /\
    forall c, dict_get c cat =
      match filter (fun it => String.eqb (py_str (get_or "category" it JNull)) c) vi with
      | [] => None
      | l => Some (JArr (map JObj l))
      end.
Proof.
  eexists. split.
  - cbv. reflexivity.
  - apply (validate_and_clean_data_partition
             (JObj [("items", JArr [JObj [("name", JStr "Kale"); ("price", JNum 3); ("category", JStr "Vegetables")];
                                    JObj [("name", JStr "Ribeye"); ("price", JNum 20); ("category", JStr "protein")];
                                    JObj [("name", JStr "Carrots"); ("price", JStr "2.10"); ("category", JStr " vegetables")]])])).
    vm_compute. reflexivity.
Defined.

(* ================================================================== *)
(** * The heuristic table parser *)

Section TableParser.
Import ImprovedInvoiceParser.
Local Open Scope list_scope.

(** The row loop of [_extract_table_items] stops at the first line that
    mentions [subtotal], [tax], [delivery] or [total] (in any case): that line
    and every line after it are never parsed. *)
Theorem table_rows_stop (pre : list string) (l : string) (post : list string) :
  existsb (fun w => contains (str_lower (strip l)) w) stop_words = true ->
  table_rows (pre ++ l :: post) = table_rows pre.
Proof.
  intros Hs. induction pre as [|a pre IH]; simpl.
  - simpl in Hs. rewrite Hs. reflexivity.
  - rewrite IH. reflexivity.
Qed.

Lemma table_rows_stop_witness :
  table_rows (["2 lb Carrots $4.00"] ++ "Delivery fee $5.00" :: ["3 lb Beef $30.00"])
  = table_rows ["2 lb Carrots $4.00"].
Proof. apply table_rows_stop. vm_compute. reflexivity. Defined.

Lemma dedupe_gen (key : string -> string)
      (Hkey : forall it, key it = str_lower (strip (substring 0 40 it))) items : forall seen,
  (forall o, In o (dedupe seen items) ->
     ~ In (key o) seen /\ find (fun it => String.eqb (key it) (key o)) items = Some o) /\
  NoDup (map key (dedupe seen items)) /\
  (forall it, In it items -> In (key it) seen \/ exists o, In o (dedupe seen items) /\ key o = key it).
Proof.
  induction items as [|x tl IH]; intros seen; simpl.
  - split; [intros o []|]. split; [constructor|intros it []].
  - rewrite <- Hkey.
    destruct (existsb (String.eqb (key x)) seen) eqn:E.
    + assert (Hx : In (key x) seen).
      { apply existsb_exists in E as [y [Hy Heq]]. apply String.eqb_eq in Heq. subst. exact Hy. }
      destruct (IH seen) as [H1 [H2 H3]].
      split; [|split; [exact H2|]].
      * intros o Ho. destruct (H1 o Ho) as [Hn Hf]. split; [exact Hn|].
        destruct (String.eqb (key x) (key o)) eqn:E2; [|exact Hf].
        apply String.eqb_eq in E2. rewrite <- E2 in Hn. contradiction.
      * intros it [<-|Hit]; [left; exact Hx|]. apply H3, Hit.
    + assert (Hx : ~ In (key x) seen).
      { intros Hy. assert (C : existsb (String.eqb (key x)) seen = true).
        { apply existsb_exists. exists (key x). split; [exact Hy|apply String.eqb_refl]. }
        congruence. }
      destruct (IH (key x :: seen)) as [H1 [H2 H3]].
      split; [|split].
      * intros o [<-|Ho].
        -- split; [exact Hx|]. rewrite String.eqb_refl. reflexivity.
        -- destruct (H1 o Ho) as [Hn Hf]. split; [intros Hy; apply Hn; right; exact Hy|].
           destruct (String.eqb (key x) (key o)) eqn:E2; [|exact Hf].
           apply String.eqb_eq in E2. exfalso. apply Hn. left. exact E2.
      * simpl. constructor; [|exact H2].
        intros Hin. apply in_map_iff in Hin as [o [Hk Ho]].
        destruct (H1 o Ho) as [Hn _]. apply Hn. left. symmetry. exact Hk.
      * intros it [<-|Hit].
        -- right. exists x. split; [left; reflexivity|reflexivity].
        -- destruct (H3 it Hit) as [[Hk|Hk]|[o [Ho Hk]]].
           ++ right. exists x. split; [left; reflexivity|exact Hk].
           ++ left. exact Hk.
           ++ right. exists o. split; [right; exact Ho|exact Hk].
Qed.

(** The de-duplication step of [_split_ocr_line_by_items] keeps, for each
    key (the lower-cased, stripped first 40 characters), exactly one item:
    the first item of the input with that key. *)
Theorem dedupe_first_per_key (items : list string) :
  let key := fun it => str_lower (strip (substring 0 40 it)) in
  let out := dedupe [] items in
  NoDup (map key out) /\
  (forall it, In it items -> exists o, In o out /\ key o = key it) /\
  (forall o, In o out -> find (fun it => String.eqb (key it) (key o)) items = Some o).
Proof.
  cbv zeta.
  destruct (dedupe_gen (fun it => str_lower (strip (substring 0 40 it))) (fun _ => eq_refl) items [])
    as [H1 [H2 H3]].
  split; [exact H2|]. split.
  - intros it Hit. destruct (H3 it Hit) as [[]|H]. exact H.
  - intros o Ho. apply H1, Ho.
Qed.

Lemma is_prefix_app p l : is_prefix_l p l = true -> exists b, l = p ++ b.
Proof.
  revert l. induction p as [|a p IH]; intros l H; [exists l; reflexivity|].
  destruct l as [|c l]; simpl in H; [discriminate|].
  apply andb_true_iff in H as [H1 H2]. apply Ascii.eqb_eq in H1. subst c.
  destruct (IH l H2) as [b ->]. exists b. reflexivity.
Qed.

Lemma contains_app p l : contains_l p l = true -> exists a b, l = a ++ p ++ b.
Proof.
  induction l as [|c l IH]; simpl; intros H.
  - destruct p; [exists [], []; reflexivity|discriminate].
  - apply orb_true_iff in H as [H|H].
    + apply is_prefix_app in H as [b Hb]. exists [], b. exact Hb.
    + destruct (IH H) as [a [b ->]]. exists (c :: a), b. reflexivity.
Qed.

(** The header test of [_extract_table_items]: its second disjunct, looking for
    [qty unit item description] in the line with its spaces removed, can
    never hold, so a header is exactly a line that mentions [qty] or
    [quantity], [unit], and [item] or [description] (in any case). *)
Theorem is_header_keywords (line : string) :
  is_header line =
  let ll := str_lower line in
  (contains ll "qty" || contains ll "quantity") && contains ll "unit"
  && (contains ll "item" || contains ll "description").
Proof.
  unfold is_header. cbv zeta.
  replace (contains (remove_char " "%char (str_lower line)) "qty unit item description") with false;
    [apply orb_false_r|].
  symmetry. destruct (contains _ _) eqn:E; [|reflexivity]. exfalso.
  unfold contains, remove_char in E. rewrite list_ascii_of_string_of_list_ascii in E.
  apply contains_app in E as [a [b Hab]].
  assert (Hin : In " "%char (filter (fun x => negb (Ascii.eqb x " "%char))
                                    (list_ascii_of_string (str_lower line)))).
  { rewrite Hab. apply in_or_app. right. apply in_or_app. left. simpl. tauto. }
  apply filter_In in Hin as [_ Hin]. discriminate Hin.
Qed.

End TableParser.

(* ================================================================== *)
(** * Layout reconstruction *)

Section LayoutExtras.
Import OCRService.
Local Open Scope list_scope.

Lemma add_line_skipped rows x : ocr_skipped x = true -> add_line rows x = rows.
Proof.
  unfold ocr_skipped, add_line.
  destruct x as [bbox info|]; [|reflexivity].
  destruct info as [t c|t|]; cbv zeta; intros H; try reflexivity.
  - destruct (Qlt_le_dec c (1 # 2)) as [Hc|Hc]; [reflexivity|].
    destruct bbox as [|p ps]; [reflexivity|].
    rewrite orb_false_r in H. apply negb_true_iff in H.
    apply Qle_bool_iff in Hc. congruence.
  - destruct (Qlt_le_dec 1 (1 # 2)); [reflexivity|].
    destruct bbox; [reflexivity|discriminate].
Qed.

(** An OCR entry that is malformed, has a confidence below 0.5 or an empty
    bounding box has no effect on the reconstructed text: inserting it
    anywhere in the input leaves the emitted lines, and so the result of
    [_process_structured_data], unchanged. *)
Theorem layout_ignores_skipped (pre : list OcrLine) (x : OcrLine) (post : list OcrLine) :
  ocr_skipped x = true ->
  layout_lines (pre ++ x :: post) = layout_lines (pre ++ post) /\
  process_structured_data (pre ++ x :: post) = process_structured_data (pre ++ post).
Proof.
  intros Hx.
  assert (E : group_rows (pre ++ x :: post) = group_rows (pre ++ post)).
  { unfold group_rows. rewrite !fold_left_app. simpl. rewrite add_line_skipped by exact Hx.
    reflexivity. }
  assert (L : layout_lines (pre ++ x :: post) = layout_lines (pre ++ post)).
  { unfold layout_lines. rewrite E. reflexivity. }
  split; [exact L|]. unfold process_structured_data. rewrite L. reflexivity.
Qed.

Lemma layout_ignores_skipped_witness :
  ocr_skipped (OLine [(5, 0)%Q] (TIPair "noise" (3 # 10))) = true /\
  (layout_lines ([OLine [(0, 0)%Q; (40, 10)%Q] (TIPair "Kale" 1)] ++
                 OLine [(5, 0)%Q] (TIPair "noise" (3 # 10)) :: [OLine [(0, 30)%Q] (TIStr "Beef")]) =
   layout_lines ([OLine [(0, 0)%Q; (40, 10)%Q] (TIPair "Kale" 1)] ++ [OLine [(0, 30)%Q] (TIStr "Beef")]) /\
   process_structured_data ([OLine [(0, 0)%Q; (40, 10)%Q] (TIPair "Kale" 1)] ++
                 OLine [(5, 0)%Q] (TIPair "noise" (3 # 10)) :: [OLine [(0, 30)%Q] (TIStr "Beef")]) =
   process_structured_data ([OLine [(0, 0)%Q; (40, 10)%Q] (TIPair "Kale" 1)] ++ [OLine [(0, 30)%Q] (TIStr "Beef")])).
Proof.
  split.
  - vm_compute. reflexivity.
  - apply (layout_ignores_skipped [OLine [(0, 0)%Q; (40, 10)%Q] (TIPair "Kale" 1)]
             (OLine [(5, 0)%Q] (TIPair "noise" (3 # 10))) [OLine [(0, 30)%Q] (TIStr "Beef")]).
    vm_compute. reflexivity.
Defined.

Lemma lstrip_suffix l : exists p, l = p ++ lstrip_l l.
Proof.
  induction l as [|c tl [p IH]]; simpl; [exists []; reflexivity|].
  destruct (is_space c); [exists (c :: p); simpl; congruence | exists []; reflexivity].
Qed.

Lemma lstrip_head l : match lstrip_l l with [] => True | c :: _ => is_space c = false end.
Proof.
  induction l as [|c tl IH]; simpl; [exact I|].
  destruct (is_space c) eqn:E; [exact IH | exact E].
Qed.

Lemma lstrip_fix l : match l with [] => True | c :: _ => is_space c = false end -> lstrip_l l = l.
Proof. destruct l as [|c tl]; simpl; [reflexivity|]. intros ->. reflexivity. Qed.

Lemma strip_idem s : strip (strip s) = strip s.
Proof.
  unfold strip. rewrite list_ascii_of_string_of_list_ascii.
  set (a := lstrip_l (list_ascii_of_string s)).
  set (b := lstrip_l (rev a)).
  assert (Ha : match a with [] => True | c :: _ => is_space c = false end) by apply lstrip_head.
  assert (Hb : match b with [] => True | c :: _ => is_space c = false end) by apply lstrip_head.
  destruct (lstrip_suffix (rev a)) as [p Hp]. fold b in Hp.
  assert (Ea : a = rev b ++ rev p) by (rewrite <- rev_app_distr, <- Hp, rev_involutive; reflexivity).
  assert (E1 : lstrip_l (rev b) = rev b).
  { apply lstrip_fix. destruct (rev b) as [|c tl]; [exact I|]. rewrite Ea in Ha. exact Ha. }
  rewrite E1, rev_involutive, (lstrip_fix b Hb). reflexivity.
Qed.

Lemma group_rows_keys10 es : forall acc,
  Forall (fun k => (k mod 10 = 0)%Z) (map fst acc) ->
  Forall (fun k => (k mod 10 = 0)%Z) (map fst (fold_left add_line es acc)).
Proof.
  induction es as [|e tl IH]; intros acc Hacc; simpl; [exact Hacc|].
  apply IH. unfold add_line.
  destruct e as [bbox info|]; [|exact Hacc].
  destruct info as [t c|t|]; cbv zeta; try exact Hacc;
    (destruct (Qlt_le_dec _ _); [exact Hacc|]);
    (destruct bbox as [|pt pts]; [exact Hacc|]);
    apply Forall_forall; intros x Hx; apply add_to_row_keys in Hx;
    (destruct Hx as [->|Hx]; [apply Z_mod_mult | rewrite Forall_forall in Hacc; exact (Hacc x Hx)]).
Qed.

(** Every line emitted by the layout reconstruction is non-blank and already
    stripped of surrounding whitespace, and its row key is a multiple of
    10 (a bucket [round(y / 10) * 10]). *)
Theorem layout_lines_clean (es : list OcrLine) (k : Z) (t : string) :
  In (k, t) (layout_lines es) ->
  t <> "" /\ strip t = t /\ (k mod 10 = 0)%Z.
Proof.
  unfold layout_lines. intros H. apply filter_In in H as [Hin Hne]. simpl in Hne.
  apply in_map_iff in Hin as [k' [Ekt Hk]]. injection Ekt as <- <-.
  set (u := join_cols "" 0 (sort_cols (row_of k' (group_rows es)))) in *.
  split; [|split].
  - intros E. rewrite E in Hne. discriminate.
  - apply strip_idem.
  - destruct (group_rows_props es []) as [Hnd _].
    specialize (Hnd (NoDup_nil _)). fold (group_rows es) in Hnd.
    destruct (sort_keys_props _ Hnd) as [_ [_ Hsk]].
    apply Hsk in Hk.
    pose proof (group_rows_keys10 es [] (Forall_nil _)) as H10.
    fold (group_rows es) in H10. rewrite Forall_forall in H10. exact (H10 k' Hk).
Qed.

Lemma layout_lines_clean_witness :
  In (40%Z, "Kale  2 lbs") (layout_lines [OLine [(0, 38)%Q; (30, 42)%Q] (TIPair "Kale" 1);
                                          OLine [(120, 40)%Q] (TIStr "2 lbs")]) /\
  ("Kale  2 lbs" <> "" /\ strip "Kale  2 lbs" = "Kale  2 lbs" /\ (40 mod 10 = 0)%Z).
Proof.
  split.
  - vm_compute. left. reflexivity.
  - apply (layout_lines_clean [OLine [(0, 38)%Q; (30, 42)%Q] (TIPair "Kale" 1);
                               OLine [(120, 40)%Q] (TIStr "2 lbs")] 40%Z "Kale  2 lbs").
    vm_compute. left. reflexivity.
Defined.

Lemma insert_col_hd a c l : HdRel col_le a l -> col_le a c -> HdRel col_le a (insert_col c l).
Proof.
  destruct l as [|c' tl]; simpl; intros H Hac; [constructor; exact Hac|].
  destruct (Qlt_le_dec (c_x c) (c_x c')); constructor; [exact Hac|].
  inversion H; assumption.
Qed.

Lemma insert_col_sorted c l : Sorted col_le l -> Sorted col_le (insert_col c l).
Proof.
  induction l as [|c' tl IH]; simpl; intros Hs; [repeat constructor|].
  inversion Hs as [|? ? Hs' Hhd]; subst.
  destruct (Qlt_le_dec (c_x c) (c_x c')) as [Hlt|Hle].
  - constructor; [exact Hs|]. constructor. unfold col_le. apply Qlt_le_weak. exact Hlt.
  - constructor; [exact (IH Hs')|]. apply insert_col_hd; [exact Hhd | exact Hle].
Qed.

Lemma insert_col_perm c l : Permutation (c :: l) (insert_col c l).
Proof.
  induction l as [|c' tl IH]; simpl; [reflexivity|].
  destruct (Qlt_le_dec (c_x c) (c_x c')); [reflexivity|].
  rewrite perm_swap. constructor. exact IH.
Qed.

Lemma sorted_all_ge c l : Sorted col_le l -> HdRel col_le c l -> Forall (col_le c) l.
Proof.
  intros Hs Hh. apply Sorted_StronglySorted in Hs; [|intros x y z; unfold col_le; apply Qle_trans].
  revert c Hh. induction Hs as [|a tl Hs IH Hf]; intros c Hh; [constructor|].
  inversion Hh as [|? ? Hca]; subst. constructor; [exact Hca|].
  eapply Forall_impl; [|exact Hf]. intros x Hx. unfold col_le in *. eapply Qle_trans; eassumption.
Qed.

Lemma insert_col_filter v c l :
  Sorted col_le l ->
  filter (fun d => Qeq_bool (c_x d) v) (insert_col c l) =
  filter (fun d => Qeq_bool (c_x d) v) l ++ filter (fun d => Qeq_bool (c_x d) v) [c].
Proof.
  induction l as [|c' tl IH]; simpl; intros Hs; [reflexivity|].
  inversion Hs as [|? ? Hs' Hhd]; subst.
  destruct (Qlt_le_dec (c_x c) (c_x c')) as [Hlt|Hle].
  - assert (Hall : Forall (fun d => Qeq_bool (c_x d) v = true -> Qeq_bool (c_x c) v = false) (c' :: tl)).
    { apply Forall_forall. intros d Hd Hdv.
      assert (Hge : (c_x c' <= c_x d)%Q).
      { destruct Hd as [<-|Hd]; [apply Qle_refl|].
        pose proof (sorted_all_ge c' tl Hs' Hhd) as Hf. rewrite Forall_forall in Hf. exact (Hf d Hd). }
      apply Qeq_bool_iff in Hdv. destruct (Qeq_bool (c_x c) v) eqn:E; [|reflexivity].
      apply Qeq_bool_iff in E. exfalso. lra. }
    simpl. destruct (Qeq_bool (c_x c) v) eqn:Ec.
    + assert (Hnone : filter (fun d => Qeq_bool (c_x d) v) (c' :: tl) = []).
      { clear - Hall Ec. revert Hall. generalize (c' :: tl). intros l0 Hall0.
        induction Hall0 as [|d ds Hd Hds IHd]; [reflexivity|]. simpl.
        destruct (Qeq_bool (c_x d) v) eqn:Ed; [discriminate (Hd eq_refl) | exact IHd]. }
      simpl in Hnone. rewrite Hnone. destruct (Qeq_bool (c_x c') v); [discriminate|]. reflexivity.
    + rewrite app_nil_r. reflexivity.
  - simpl. rewrite (IH Hs'). destruct (Qeq_bool (c_x c') v); reflexivity.
Qed.

Lemma sort_cols_gen l : forall acc,
  Sorted col_le acc ->
  Sorted col_le (fold_left (fun acc c => insert_col c acc) l acc) /\
  Permutation (acc ++ l) (fold_left (fun acc c => insert_col c acc) l acc) /\
  (forall v, filter (fun d => Qeq_bool (c_x d) v) (fold_left (fun acc c => insert_col c acc) l acc) =
             filter (fun d => Qeq_bool (c_x d) v) acc ++ filter (fun d => Qeq_bool (c_x d) v) l).
Proof.
  induction l as [|c tl IH]; intros acc Hs; simpl.
  - split; [exact Hs|]. split; [rewrite app_nil_r; reflexivity|]. intros v. rewrite app_nil_r. reflexivity.
  - destruct (IH (insert_col c acc) (insert_col_sorted c acc Hs)) as [H1 [H2 H3]].
    split; [exact H1|]. split.
    + rewrite <- H2. rewrite <- (Permutation_middle acc tl c).
      change (c :: acc ++ tl) with ((c :: acc) ++ tl).
      apply Permutation_app_tail. apply insert_col_perm.
    + intros v. rewrite H3, (insert_col_filter v c acc Hs), <- app_assoc. simpl.
      destruct (Qeq_bool (c_x c) v); reflexivity.
Qed.

(** The columns of a row are joined from left to right: [sorted(columns,
    key=lambda x: x['x'])] returns the same columns ordered by
    non-decreasing x, and columns with the same x keep their order in the
    OCR output (the sort is stable). *)
Theorem sort_cols_stable (cols : list column) :
  Sorted (fun a b => (c_x a <= c_x b)%Q) (sort_cols cols) /\
  Permutation cols (sort_cols cols) /\
  (forall v, filter (fun d => Qeq_bool (c_x d) v) (sort_cols cols) =
             filter (fun d => Qeq_bool (c_x d) v) cols).
Proof.
  destruct (sort_cols_gen cols [] (Sorted_nil _)) as [H1 [H2 H3]].
  split; [exact H1|]. split; [exact H2|]. exact H3.
Qed.

End LayoutExtras.

(* ================================================================== *)
(** * Substitution suggestions *)

Section SuggestionFacts.
Import CarbonService CarbonFootprint.

Lemma char_lower_idem c : char_lower (char_lower c) = char_lower c.
Proof. destruct c as [[] [] [] [] [] [] [] []]; vm_compute; reflexivity. Qed.

Lemma str_lower_idem s : str_lower (str_lower s) = str_lower s.
Proof.
  unfold str_lower. rewrite list_ascii_of_string_of_list_ascii, map_map.
  f_equal. apply map_ext. apply char_lower_idem.
Qed.

Lemma emission_category ts d e :
  calculate_item_emissions ts d = Ret e -> e_category e = categorize_item (e_name e).
Proof.
  unfold calculate_item_emissions, get_or.
  destruct (dict_get "name" d) as [v|] eqn:Hn.
  - destruct v; try discriminate.
    destruct (match dict_get "price" d with Some v => v | None => JNum 0 end); try discriminate;
      simpl; intros H; injection H as <-; simpl; unfold categorize_item; rewrite str_lower_idem; reflexivity.
  - destruct (match dict_get "price" d with Some v => v | None => JNum 0 end); try discriminate;
      simpl; intros H; injection H as <-; simpl; vm_compute; reflexivity.
Qed.

Lemma suggestion_lamb_cat e :
  e_category e = categorize_item (e_name e) ->
  (get_substitution_suggestion e = "Consider chicken, pork, or plant-based alternatives" <->
   (let n := str_lower (e_name e) in
    contains n "lamb" && negb (contains n "beef") &&
    existsb (contains n) ["pork"; "chicken"; "fish"; "meat"]) = true).
Proof.
  intros Hc. unfold get_substitution_suggestion. rewrite Hc. unfold categorize_item.
  cbv zeta. cbn [existsb].
  destruct (contains (str_lower (e_name e)) "beef"), (contains (str_lower (e_name e)) "pork"),
    (contains (str_lower (e_name e)) "chicken"), (contains (str_lower (e_name e)) "fish"),
    (contains (str_lower (e_name e)) "meat"), (contains (str_lower (e_name e)) "lamb");
    cbn [orb andb negb]; cbv beta iota;
    repeat match goal with |- context [String.eqb (if ?b then _ else _) _] => destruct b end;
    cbn [String.eqb Ascii.eqb Bool.eqb];
    repeat match goal with |- context [if ?b then _ else _] => destruct b end;
    split; intros H; try reflexivity; discriminate.
Qed.

(** The lamb suggestion ("Consider chicken, pork, or plant-based
    alternatives") is given to an emission of [_calculate_item_emissions]
    exactly when its lower-cased name contains "lamb", does not contain
    "beef", and contains one of "pork", "chicken", "fish" or "meat":
    [_categorize_item] has no "lamb" keyword, so an item named only as lamb
    is never in the protein category and never gets it. *)
Theorem lamb_suggestion (to_str : JVal -> string) (d : list (string * JVal)) (e : Emission) :
  calculate_item_emissions to_str d = Ret e ->
  (get_substitution_suggestion e = "Consider chicken, pork, or plant-based alternatives" <->
   (let n := str_lower (e_name e) in
    contains n "lamb" && negb (contains n "beef") &&
    existsb (contains n) ["pork"; "chicken"; "fish"; "meat"]) = true).
Proof.
  intros H. apply suggestion_lamb_cat. exact (emission_category to_str d e H).
Qed.

Lemma lamb_suggestion_witness :
  exists e, calculate_item_emissions py_str [("name", JStr "Lamb Chops"); ("price", JNum 12)] = Ret e /\
  (get_substitution_suggestion e = "Consider chicken, pork, or plant-based alternatives" <->
   (let n := str_lower (e_name e) in
    contains n "lamb" && negb (contains n "beef") &&
    existsb (contains n) ["pork"; "chicken"; "fish"; "meat"]) = true).
Proof.
  eexists. split.
  - cbv. reflexivity.
  - apply (lamb_suggestion py_str [("name", JStr "Lamb Chops"); ("price", JNum 12)]).
    vm_compute. reflexivity.
Defined.

End SuggestionFacts.

(* ================================================================== *)
(** * Model selection *)

Section OllamaFacts.
Import LLMInvoiceParser.

Lemma split_l_head_nosep sep l :
  match split_l sep l with w :: _ => ~ In sep w | [] => True end.
Proof.
  induction l as [|c tl IH]; simpl; [tauto|].
  destruct (Ascii.eqb c sep) eqn:E; simpl; [tauto|].
  destruct (split_l sep tl) as [|w ws]; simpl.
  - intros [H|H]; [subst; rewrite Ascii.eqb_refl in E; discriminate | exact H].
  - intros [H|H]; [subst; rewrite Ascii.eqb_refl in E; discriminate | exact (IH H)].
Qed.

Lemma split_head_nosep sep s : ~ In sep (list_ascii_of_string (hd "" (split sep s))).
Proof.
  unfold split. pose proof (split_l_head_nosep sep (list_ascii_of_string s)) as H.
  destruct (split_l sep (list_ascii_of_string s)) as [|w ws]; simpl.
  - intros [].
  - rewrite list_ascii_of_string_of_list_ascii. exact H.
Qed.

(** [_check_ollama_available] only changes [self.model] when it returns
    [True] for a [200] reply whose model list is non-empty, whose first
    entry is a string and in none of whose entries the configured model
    occurs; the new model is that first entry up to its first ':' (so it
    carries no tag).  A [False] result always leaves the model unchanged. *)
Theorem check_ollama_model_switch (model : string) (resp : HttpOutcome) (b : bool) (m' : string) :
  check_ollama_available model resp = (b, m') ->
  (b = false -> m' = model) /\
  (m' <> model ->
   b = true /\
   exists text n names,
     resp = HttpResp 200 text /\ list_model_names text = Ret (JStr n :: names) /\
     any_in model (JStr n :: names) = Ret false /\
     m' = hd "" (split ":"%char n) /\ ~ In ":"%char (list_ascii_of_string m')).
Proof.
  unfold check_ollama_available.
  destruct resp as [e|st text].
  - intros H. injection H as <- <-. split; [reflexivity | intros C; exfalso; exact (C eq_refl)].
  - destruct (Z.eqb st 200) eqn:Est; simpl.
    2: { intros H. injection H as <- <-. split; [reflexivity | intros C; exfalso; exact (C eq_refl)]. }
    apply Z.eqb_eq in Est. subst st.
    destruct (list_model_names text) as [names|e] eqn:Hl; simpl.
    2: { intros H. injection H as <- <-. split; [reflexivity | intros C; exfalso; exact (C eq_refl)]. }
    destruct (any_in model names) as [av|e] eqn:Ha; simpl.
    2: { intros H. injection H as <- <-. split; [reflexivity | intros C; exfalso; exact (C eq_refl)]. }
    destruct av.
    { intros H. injection H as <- <-. split; [discriminate | intros C; exfalso; exact (C eq_refl)]. }
    destruct names as [|v names].
    { intros H. injection H as <- <-. split; [reflexivity | intros C; exfalso; exact (C eq_refl)]. }
    destruct v; intros H; injection H as <- <-;
      try (split; [reflexivity | intros C; exfalso; exact (C eq_refl)]).
    split; [discriminate|]. intros _. split; [reflexivity|].
    exists text, s, names. split; [reflexivity|]. split; [exact Hl|]. split; [exact Ha|].
    split; [reflexivity | apply split_head_nosep].
Qed.

Lemma check_ollama_model_switch_witness :
  let q := String "034"%char EmptyString in
  let body := "{" ++ q ++ "models" ++ q ++ ":[{" ++ q ++ "name" ++ q ++ ":" ++ q ++ "mistral:7b" ++ q ++ "}]}" in
  check_ollama_available "llama2" (HttpResp 200 body) = (true, "mistral") /\
  ((true = false -> "mistral" = "llama2") /\
   ("mistral" <> "llama2" ->
    true = true /\
    exists text n names,
      HttpResp 200 body = HttpResp 200 text /\ list_model_names text = Ret (JStr n :: names) /\
      any_in "llama2" (JStr n :: names) = Ret false /\
      "mistral" = hd "" (split ":"%char n) /\ ~ In ":"%char (list_ascii_of_string "mistral"))).
Proof.
  cbv zeta. split.
  - vm_compute. reflexivity.
  - apply check_ollama_model_switch. vm_compute. reflexivity.
Defined.

End OllamaFacts.

(* ================================================================== *)
(** * Text cleaning *)

Section CleanTextFacts.
Import Re.
Local Open Scope list_scope.

Lemma lao_app (s1 s2 : string) :
  list_ascii_of_string (s1 ++ s2)%string = list_ascii_of_string s1 ++ list_ascii_of_string s2.
Proof. induction s1 as [|a s1 IH]; simpl; [reflexivity | rewrite IH; reflexivity]. Qed.

Lemma in_firstn_nth {A} k (l : list A) c :
  In c (firstn k l) -> exists i, (i < k)%nat /\ nth_error l i = Some c.
Proof.
  revert l. induction k as [|k IH]; intros l H; [destruct H|].
  destruct l as [|a l]; [destruct H|]. destruct H as [<-|H].
  - exists 0. split; [lia | reflexivity].
  - destruct (IH l H) as [i [Hi Hn]]. exists (S i). split; [lia | exact Hn].
Qed.

Lemma nth_error_skipn' {A} a (l : list A) i : nth_error (skipn a l) i = nth_error l (a + i).
Proof.
  revert l. induction a as [|a IH]; intros l; [reflexivity|].
  destruct l as [|x l]; simpl; [destruct i; reflexivity | apply IH].
Qed.

Lemma substr_in l a b c :
  In c (list_ascii_of_string (substr l a b)) -> exists q, (a <= q < b)%nat /\ nth_error l q = Some c.
Proof.
  unfold substr. rewrite list_ascii_of_string_of_list_ascii. intros H.
  destruct (in_firstn_nth _ _ _ H) as [i [Hi Hn]]. rewrite nth_error_skipn' in Hn.
  exists (a + i). split; [lia | exact Hn].
Qed.

Lemma search_from_spec fl r l n : forall p,
  (forall m, search_from fl r l p n = Some m ->
     exists q, (p <= q)%nat /\ try_at fl r l q = Some m /\
               forall q', (p <= q' < q)%nat -> try_at fl r l q' = None) /\
  (search_from fl r l p n = None -> forall q', (p <= q' <= p + n)%nat -> try_at fl r l q' = None).
Proof.
  induction n as [|n IH]; intros p; simpl; destruct (try_at fl r l p) as [m'|] eqn:E.
  - split; [|discriminate]. intros m H. injection H as <-.
    exists p. split; [lia|]. split; [exact E | intros; lia].
  - split; [discriminate|]. intros _ q' Hq. replace q' with p by lia. exact E.
  - split; [|discriminate]. intros m H. injection H as <-.
    exists p. split; [lia|]. split; [exact E | intros; lia].
  - destruct (IH (S p)) as [H1 H2]. split.
    + intros m H. destruct (H1 m H) as [q [Hq [Hm Hb]]].
      exists q. split; [lia|]. split; [exact Hm|].
      intros q' Hq'. destruct (Nat.eq_dec q' p) as [->|Hne]; [exact E|]. apply Hb. lia.
    + intros H q' Hq'. destruct (Nat.eq_dec q' p) as [->|Hne]; [exact E|]. apply (H2 H). lia.
Qed.

Lemma mt_ws fl fuel st k :
  mt fl fuel (RCat (RCat (RClass false [CSpace]) (RStar true (RClass false [CSpace]))) REps) st k =
  match rest st with
  | c :: tl => if xorb false (class_match fl [CSpace] c)
               then mt fl fuel (RStar true (RClass false [CSpace])) (advance st tl) k else None
  | [] => None
  end.
Proof. reflexivity. Qed.

Lemma star_greedy_some fl fuel r1 st : mt fl fuel (RStar true r1) st Some <> None.
Proof.
  rewrite mt_star. destruct fuel as [|f]; [discriminate|].
  rewrite star_loop_S. destruct (mt _ _ r1 st _); discriminate.
Qed.

Lemma ws_try_at input q :
  (try_at NOFLAG (RCat (RCat (RClass false [CSpace]) (RStar true (RClass false [CSpace]))) REps)
          input q = None ->
   forall c, nth_error input q = Some c -> is_space c = false) /\
  (forall m, try_at NOFLAG (RCat (RCat (RClass false [CSpace]) (RStar true (RClass false [CSpace]))) REps)
               input q = Some m -> m_start m = q /\ (q < m_end m)%nat /\ m_input m = input).
Proof.
  unfold try_at. rewrite mt_ws. cbn [rest].
  pose proof (nth_error_skipn' q input 0) as Hnth. rewrite Nat.add_0_r in Hnth.
  destruct (skipn q input) as [|c tl]; cbn [nth_error] in Hnth; rewrite <- Hnth; cbv beta iota.
  - split; [intros _ c H; discriminate | intros m H; discriminate].
  - cbn [xorb].
    assert (Hcm : class_match NOFLAG [CSpace] c = is_space c).
    { unfold class_match, class_has. simpl. rewrite !orb_false_r. reflexivity. }
    rewrite Hcm. destruct (is_space c) eqn:Ec; cbv beta iota.
    + destruct (mt NOFLAG (S (length input)) (RStar true (RClass false [CSpace]))
                  (advance {| pos := q; rest := c :: tl; caps := [] |} tl) Some) as [st'|] eqn:Hm.
      * split; [discriminate|]. intros m H. injection H as <-. cbn [m_start m_end m_input].
        assert (Ho : re_only (fun _ => True) NOFLAG (RStar true (RClass false [CSpace])))
          by (simpl; intros; exact I).
        destruct (mt_only _ _ _ _ Ho _ _ _ Hm) as [st'' [Hk [w [_ [Hp _]]]]].
        injection Hk as ->. simpl in Hp. split; [reflexivity|]. split; [lia | reflexivity].
      * exfalso. exact (star_greedy_some _ _ _ _ Hm).
    + split; [intros _ c' H; injection H as <-; exact Ec | intros m H; discriminate].
Qed.

Lemma ws_only_space_app s1 s2 : ws_only_space s1 -> ws_only_space s2 -> ws_only_space (s1 ++ s2)%string.
Proof.
  unfold ws_only_space. rewrite lao_app. intros H1 H2 c Hc.
  apply in_app_or in Hc as [Hc|Hc]; [exact (H1 c Hc) | exact (H2 c Hc)].
Qed.

Lemma ws_gap l a b :
  (forall q, (a <= q < b)%nat -> forall c, nth_error l q = Some c -> is_space c = false) ->
  ws_only_space (substr l a b).
Proof.
  intros H c Hc Hs. destruct (substr_in _ _ _ _ Hc) as [q [Hq Hn]].
  rewrite (H q Hq c Hn) in Hs. discriminate.
Qed.

Lemma ws_splice l n : forall p,
  (length l < p + n)%nat ->
  ws_only_space (splice l [" "%char] p
    (iter_from NOFLAG (RCat (RCat (RClass false [CSpace]) (RStar true (RClass false [CSpace]))) REps) l p n)).
Proof.
  induction n as [|n IH]; intros p Hn.
  - simpl. apply ws_gap. intros; lia.
  - simpl. destruct (length l <? p)%nat eqn:Hlp.
    + simpl. apply ws_gap. apply Nat.ltb_lt in Hlp. intros; lia.
    + apply Nat.ltb_ge in Hlp.
      destruct (search_from_spec NOFLAG
                  (RCat (RCat (RClass false [CSpace]) (RStar true (RClass false [CSpace]))) REps)
                  l (length l - p) p) as [H1 H2].
      destruct (search_from _ _ l p (length l - p)) as [m|] eqn:Hs.
      * destruct (H1 m eq_refl) as [q [Hq [Hm Hb]]].
        destruct (proj2 (ws_try_at l q) m Hm) as [Hst [Hen _]].
        assert (E : (m_end m =? m_start m)%nat = false) by (apply Nat.eqb_neq; lia).
        rewrite E. simpl.
        apply ws_only_space_app.
        -- apply ws_gap. intros q' Hq'. apply (proj1 (ws_try_at l q')). apply Hb. lia.
        -- intros c Hc Hsp. simpl in Hc. destruct Hc as [<-|Hc]; [reflexivity|].
           refine (IH (m_end m) _ c Hc Hsp). lia.
      * simpl. apply ws_gap. intros q' Hq'. apply (proj1 (ws_try_at l q')). apply (H2 eq_refl). lia.
Qed.

Lemma splice_chars l t last ms c :
  In c (list_ascii_of_string (splice l t last ms)) ->
  In c l \/ exists m, In m ms /\ In c (list_ascii_of_string (expand m t)).
Proof.
  revert last. induction ms as [|m ms IH]; intros last H; simpl in H.
  - destruct (substr_in _ _ _ _ H) as [q [_ Hn]]. left. exact (nth_error_In _ _ Hn).
  - rewrite !lao_app in H. apply in_app_or in H as [H|H].
    + destruct (substr_in _ _ _ _ H) as [q [_ Hn]]. left. exact (nth_error_In _ _ Hn).
    + apply in_app_or in H as [H|H].
      * right. exists m. split; [left; reflexivity | exact H].
      * destruct (IH _ H) as [Hl|[m' [Hm' Hc]]]; [left; exact Hl|].
        right. exists m'. split; [right; exact Hm' | exact Hc].
Qed.

Lemma group_or_empty_in m n c :
  In c (list_ascii_of_string (group_or_empty m n)) -> In c (m_input m).
Proof.
  unfold group_or_empty, group. destruct (n =? 0)%nat.
  - intros H. destruct (substr_in _ _ _ _ H) as [q [_ Hn]]. exact (nth_error_In _ _ Hn).
  - destruct (find _ (m_caps m)) as [[? [s e]]|]; [|intros []].
    intros H. destruct (substr_in _ _ _ _ H) as [q [_ Hn]]. exact (nth_error_In _ _ Hn).
Qed.

Lemma split_l_nosep sep l : ~ In sep l -> split_l sep l = [l].
Proof.
  induction l as [|c tl IH]; simpl; intros H; [reflexivity|].
  destruct (Ascii.eqb c sep) eqn:E.
  - apply Ascii.eqb_eq in E. subst. exfalso. apply H. left. reflexivity.
  - rewrite IH by tauto. reflexivity.
Qed.

End CleanTextFacts.

Lemma clean_text_spec (text : string) :
  exists t, ImprovedInvoiceParser.clean_text text = Ret t /\
    (forall c, In c (list_ascii_of_string t) -> is_space c = true -> c = " "%char) /\
    split "010"%char t = [t] /\
    ImprovedInvoiceParser.parse_invoice_items text =
      (if String.eqb text "" then Ret [] else ImprovedInvoiceParser.extract_table_items [t]).
Proof.
  assert (C1 : Re.compile "\s+" =
    Ret (Re.RCat (Re.RCat (Re.RClass false [Re.CSpace]) (Re.RStar true (Re.RClass false [Re.CSpace]))) Re.REps, 0))
    by (vm_compute; reflexivity).
  assert (C2 : Re.compile "([a-z])([A-Z])" =
    Ret (Re.RCat (Re.RGroup 1 (Re.RCat (Re.RClass false [Re.CRange "a" "z"]) Re.REps))
           (Re.RCat (Re.RGroup 2 (Re.RCat (Re.RClass false [Re.CRange "A" "Z"]) Re.REps)) Re.REps), 2))
    by (vm_compute; reflexivity).
  set (l := list_ascii_of_string text).
  set (t1 := Re.splice l [" "%char] 0
               (Re.iter_from Re.NOFLAG
                  (Re.RCat (Re.RCat (Re.RClass false [Re.CSpace])
                                    (Re.RStar true (Re.RClass false [Re.CSpace]))) Re.REps)
                  l 0 (S (length l)))).
  assert (H1 : ws_only_space t1) by (apply ws_splice; lia).
  set (R2 := Re.RCat (Re.RGroup 1 (Re.RCat (Re.RClass false [Re.CRange "a" "z"]) Re.REps))
               (Re.RCat (Re.RGroup 2 (Re.RCat (Re.RClass false [Re.CRange "A" "Z"]) Re.REps)) Re.REps)).
  set (l1 := list_ascii_of_string t1).
  set (t := Re.splice l1 (list_ascii_of_string "\1 \2") 0 (Re.iter_from Re.NOFLAG R2 l1 0 (S (length l1)))).
  assert (Ht : ImprovedInvoiceParser.clean_text text = Ret t).
  { unfold ImprovedInvoiceParser.clean_text, Re.sub. rewrite C1. cbn [exc_bind fst].
    fold l. fold t1. rewrite C2. cbn [exc_bind fst]. reflexivity. }
  assert (H2 : ws_only_space t).
  { intros c Hc Hs. destruct (splice_chars _ _ _ _ _ Hc) as [Hl|[m [Hm He]]]; [exact (H1 c Hl Hs)|].
    destruct (iter_from_try _ _ _ _ _ _ Hm) as [q Hq].
    assert (Hin : Re.m_input m = l1).
    { unfold Re.try_at in Hq. destruct (Re.mt _ _ _ _ _); [|discriminate].
      injection Hq as <-. reflexivity. }
    change (list_ascii_of_string "\1 \2") with ["\"%char; "1"%char; " "%char; "\"%char; "2"%char] in He.
    simpl in He. rewrite !lao_app in He. simpl in He.
    apply in_app_or in He as [He|[<-|He]]; [| reflexivity |].
    - apply group_or_empty_in in He. rewrite Hin in He. exact (H1 c He Hs).
    - rewrite ?lao_app in He. simpl in He. rewrite ?app_nil_r in He.
      apply group_or_empty_in in He. rewrite Hin in He. exact (H1 c He Hs). }
  exists t. split; [exact Ht|]. split; [exact H2|]. split.
  - unfold split. rewrite split_l_nosep.
    + simpl. rewrite string_of_list_ascii_of_string. reflexivity.
    + intros Hn. pose proof (H2 _ Hn eq_refl) as E. discriminate E.
  - unfold ImprovedInvoiceParser.parse_invoice_items. destruct (String.eqb text ""); [reflexivity|].
    rewrite Ht. cbn [exc_bind]. unfold split. rewrite split_l_nosep.
    + simpl. rewrite string_of_list_ascii_of_string. reflexivity.
    + intros Hn. pose proof (H2 _ Hn eq_refl) as E. discriminate E.
Qed.

(** [_clean_text] never raises, and its result contains no whitespace
    character other than the space: the first substitution turns every run
    of [\s] (newlines included) into one space and the second only inserts
    spaces.  So [cleaned_text.split('\n')] in [parse_invoice] always yields
    exactly one line, and the table extraction always sees the whole text as
    a single line. *)
Theorem clean_text_single_line (text : string) :
  exists t, ImprovedInvoiceParser.clean_text text = Ret t /\
    (forall c, In c (list_ascii_of_string t) -> is_space c = true -> c = " "%char) /\
    split "010"%char t = [t] /\
    ImprovedInvoiceParser.parse_invoice_items text =
      (if String.eqb text "" then Ret [] else ImprovedInvoiceParser.extract_table_items [t]).
Proof. exact (clean_text_spec text). Qed.

(** [_categorize_ingredient] always returns one of the six category names
    of [ingredient_categories], it ignores letter case, and a result other
    than "other" comes with a keyword of that category that occurs in the
    lower-cased name. *)
Theorem categorize_ingredient_props (nm : string) :
  In (ImprovedInvoiceParser.categorize_ingredient nm) (map fst ImprovedInvoiceParser.ingredient_categories) /\
  ImprovedInvoiceParser.categorize_ingredient (str_lower nm) = ImprovedInvoiceParser.categorize_ingredient nm /\
  (ImprovedInvoiceParser.categorize_ingredient nm = "other" \/
   exists kws kw, In (ImprovedInvoiceParser.categorize_ingredient nm, kws) ImprovedInvoiceParser.ingredient_categories /\
                  In kw kws /\ contains (str_lower nm) kw = true).
Proof.
  unfold ImprovedInvoiceParser.categorize_ingredient.
  assert (Hl : String.eqb (str_lower nm) "" = String.eqb nm "") by (destruct nm; reflexivity).
  rewrite Hl, str_lower_idem.
  destruct (String.eqb nm "").
  - split; [simpl; tauto|]. split; [reflexivity | left; reflexivity].
  - destruct (find _ ImprovedInvoiceParser.ingredient_categories) as [[c kws]|] eqn:Hf.
    + apply find_some in Hf as [Hin Hex]. simpl in Hex.
      split; [apply (in_map fst) in Hin; exact Hin|]. split; [reflexivity|].
      right. apply existsb_exists in Hex as [kw [Hkw Hc]]. exists kws, kw. tauto.
    + split; [simpl; tauto|]. split; [reflexivity | left; reflexivity].
Qed.

(* ================================================================== *)
(** * Capture groups *)

Section CaptureFacts.
Import Re.
Local Open Scope list_scope.

Lemma re_only_and P Q fl r : re_only P fl r -> re_only Q fl r -> re_only (fun c => P c /\ Q c) fl r.
Proof.
  induction r; simpl; intros H1 H2;
    first [ exact I | (intros c Hc; split; [apply H1 | apply H2]; exact Hc)
          | (destruct H1, H2; split; auto) | auto ].
Qed.

Lemma re_only_true fl r : re_only (fun _ => True) fl r.
Proof. induction r; simpl; try tauto; intros; exact I. Qed.

Lemma steps_weaken (P Q : ascii -> Prop) st st' :
  (forall c, P c -> Q c) -> steps P st st' -> steps Q st st'.
Proof.
  intros H [w [H1 [H2 H3]]]. exists w. split; [exact H1|]. split; [exact H2|].
  eapply Forall_impl; [exact H|exact H3].
Qed.

Lemma skipn_add {A} a b (l : list A) : skipn (a + b) l = skipn b (skipn a l).
Proof.
  revert l. induction a as [|a IH]; intros l; [reflexivity|].
  destruct l as [|x l]; simpl; [destruct b; reflexivity | apply IH].
Qed.

Lemma skipn_length_app {A} (w l : list A) : skipn (length w) (w ++ l) = l.
Proof. induction w as [|a w IH]; simpl; [reflexivity | exact IH]. Qed.

Lemma steps_skipn P input st st' :
  steps P st st' -> rest st = skipn (pos st) input -> rest st' = skipn (pos st') input.
Proof.
  intros [w [H1 [H2 _]]] Hr. rewrite H2, skipn_add, <- Hr, H1, skipn_length_app. reflexivity.
Qed.

Lemma mt_caps Pn fl fuel input r : re_caps Pn fl r -> forall P, re_only P fl r ->
  forall st k res, rest st = skipn (pos st) input -> caps_ok Pn input (caps st) ->
  mt fl fuel r st k = Some res ->
  exists st', k st' = Some res /\ steps P st st' /\ caps_ok Pn input (caps st').
Proof.
  induction r as [| p | | neg its | | | r1 IH1 r2 IH2 | r1 IH1 r2 IH2 | g r1 IH | g r1 IH | n r1 IH | r1 IH];
    simpl; intros Hc P Ho st k res Hr Hcs H.
  - exists st. split; [exact H|]. split; [apply steps_refl | exact Hcs].
  - destruct (rest st) as [|c tl] eqn:E; [discriminate|].
    destruct (lit_match fl p c) eqn:Em; [|discriminate].
    exists (advance st tl). split; [exact H|]. split; [|exact Hcs].
    apply (steps_advance P st c tl E). apply Ho, Em.
  - destruct (rest st) as [|c tl] eqn:E; [discriminate|].
    destruct (dotall fl || negb (Ascii.eqb c "010"%char)) eqn:Em; [|discriminate].
    exists (advance st tl). split; [exact H|]. split; [|exact Hcs].
    apply (steps_advance P st c tl E). apply Ho, Em.
  - destruct (rest st) as [|c tl] eqn:E; [discriminate|].
    destruct (xorb neg (class_match fl its c)) eqn:Em; [|discriminate].
    exists (advance st tl). split; [exact H|]. split; [|exact Hcs].
    apply (steps_advance P st c tl E). apply Ho, Em.
  - destruct (pos st =? 0)%nat; [|discriminate].
    exists st. split; [exact H|]. split; [apply steps_refl | exact Hcs].
  - destruct (rest st) as [|c [|c' tl]].
    + exists st. split; [exact H|]. split; [apply steps_refl | exact Hcs].
    + destruct (Ascii.eqb c "010"%char); [|discriminate].
      exists st. split; [exact H|]. split; [apply steps_refl | exact Hcs].
    + discriminate.
  - destruct Hc as [Hc1 Hc2]. destruct Ho as [Ho1 Ho2].
    destruct (IH1 Hc1 P Ho1 st _ res Hr Hcs H) as [st1 [H1 [S1 C1]]].
    destruct (IH2 Hc2 P Ho2 st1 k res (steps_skipn _ _ _ _ S1 Hr) C1 H1) as [st2 [H2 [S2 C2]]].
    exists st2. split; [exact H2|]. split; [eapply steps_trans; eassumption | exact C2].
  - destruct Hc as [Hc1 Hc2]. destruct Ho as [Ho1 Ho2].
    apply orelse_some in H as [H|H].
    + exact (IH1 Hc1 P Ho1 st k res Hr Hcs H).
    + exact (IH2 Hc2 P Ho2 st k res Hr Hcs H).
  - change (star_loop fl fuel g r1 k fuel st = Some res) in H.
    revert st Hr Hcs H. generalize fuel at 2 as f0. intros f0.
    induction f0 as [|f IHf]; intros st Hr Hcs H.
    + exists st. split; [exact H|]. split; [apply steps_refl | exact Hcs].
    + rewrite star_loop_S in H.
      assert (Hit : mt fl fuel r1 st (fun st' => if (pos st' =? pos st)%nat then None
                                               else star_loop fl fuel g r1 k f st') = Some res ->
                    exists st', k st' = Some res /\ steps P st st' /\ caps_ok Pn input (caps st')).
      { intros Hm. destruct (IH Hc P Ho st _ res Hr Hcs Hm) as [st1 [H1 [S1 C1]]].
        destruct (pos st1 =? pos st)%nat; [discriminate|].
        destruct (IHf st1 (steps_skipn _ _ _ _ S1 Hr) C1 H1) as [st2 [H2 [S2 C2]]].
        exists st2. split; [exact H2|]. split; [eapply steps_trans; eassumption | exact C2]. }
      destruct g; apply orelse_some in H as [H|H];
        try (apply Hit; exact H);
        exists st; (split; [exact H|]); (split; [apply steps_refl | exact Hcs]).
  - destruct g; apply orelse_some in H as [H|H];
      try exact (IH Hc P Ho st k res Hr Hcs H);
      exists st; (split; [exact H|]); (split; [apply steps_refl | exact Hcs]).
  - destruct Hc as [Hg Hc].
    destruct (IH Hc (fun c => P c /\ Pn n c) (re_only_and _ _ _ _ Ho Hg) st _ res Hr Hcs H)
      as [st1 [H1 [S1 C1]]].
    exists (set_cap st1 n (pos st, pos st1)). split; [exact H1|]. split.
    + apply (steps_weaken (fun c => P c /\ Pn n c)); [tauto|].
      destruct S1 as [w [W1 [W2 W3]]]. exists w. simpl. split; [exact W1|]. split; assumption.
    + intros n' s e Hin. simpl in Hin. destruct Hin as [Heq|Hin]; [|exact (C1 n' s e Hin)].
      injection Heq as <- <- <-.
      destruct S1 as [w [W1 [W2 W3]]].
      rewrite <- Hr, W1, W2. replace (pos st + length w - pos st) with (length w) by lia.
      rewrite firstn_length_app. eapply Forall_impl; [|exact W3]. intros a [_ Ha]. exact Ha.
  - destruct (mt fl fuel r1 st Some) as [st1|] eqn:E; [|discriminate].
    destruct (IH Hc (fun _ => True) (re_only_true fl r1) st Some st1 Hr Hcs E) as [st2 [H2 [_ C2]]].
    injection H2 as ->.
    eexists. split; [exact H|]. split.
    + exists []. simpl. split; [reflexivity|]. split; [lia|constructor].
    + exact C2.
Qed.

(** A capture group [n > 0] of a match found by [try_at] holds only
    characters accepted by that group. *)
Lemma try_at_group Pn fl r input p m n :
  re_caps Pn fl r -> try_at fl r input p = Some m -> n <> 0%nat ->
  Forall (Pn n) (list_ascii_of_string (group_or_empty m n)).
Proof.
  intros Hc. unfold try_at.
  destruct (mt fl (S (length input)) r {| pos := p; rest := skipn p input; caps := [] |} Some)
    as [st|] eqn:E; [|discriminate].
  intros H Hn. injection H as <-.
  destruct (mt_caps Pn fl _ input r Hc _ (re_only_true fl r) {| pos := p; rest := skipn p input; caps := [] |}
              Some st eq_refl
              (fun n s e (Hin : In (n, (s, e)) []) => match Hin with end) E) as [st' [Hk [_ C]]].
  injection Hk as ->.
  unfold group_or_empty, group. cbn [m_caps m_input].
  destruct (n =? 0)%nat eqn:En; [apply Nat.eqb_eq in En; contradiction|].
  destruct (find (fun x => (fst x =? n)%nat) (caps st)) as [[n' [s e]]|] eqn:Ef; [|constructor].
  apply find_some in Ef as [Hin Hn']. simpl in Hn'. apply Nat.eqb_eq in Hn'. subst n'.
  unfold substr. rewrite list_ascii_of_string_of_list_ascii. exact (C n s e Hin).
Qed.

End CaptureFacts.

(* ================================================================== *)
(** * Prices and quantities of table rows *)

Section RowFacts.
Import ImprovedInvoiceParser.
Local Open Scope Q_scope.

Ltac caps_leaves :=
  repeat (match goal with |- _ /\ _ => split | |- True => exact I end);
  intros ch Hch; try (split; intros Hn; try discriminate Hn);
  destruct ch as [[] [] [] [] [] [] [] []]; vm_compute in Hch; try discriminate Hch;
  vm_compute; first [reflexivity | left; reflexivity | right; reflexivity].

Lemma row_pattern_caps idx pat c :
  nth_error row_patterns idx = Some pat -> Re.compile pat = Ret c ->
  re_caps (row_caps (if Nat.eqb idx 0 then 5 else 4)) Re.IGNORECASE (fst c).
Proof.
  destruct idx as [|[|[|idx]]]; simpl; intros Hp; [| | |destruct idx; discriminate];
    injection Hp as <-; intros Hc; vm_compute in Hc; injection Hc as <-; simpl; caps_leaves.
Qed.

Lemma digits_no_minus w :
  Forall (fun c => is_digit c = true \/ c = "."%char) w -> ~ In "-"%char w.
Proof.
  intros H Hin. rewrite Forall_forall in H. destruct (H _ Hin) as [E|E]; [vm_compute in E|]; discriminate.
Qed.

Lemma float_or_raise_nonneg s q :
  Forall (fun c => is_digit c = true \/ c = "."%char) (list_ascii_of_string s) ->
  float_or_raise s = Ret q -> 0 <= q.
Proof.
  intros Hd. unfold float_or_raise. destruct (float_of_string s) as [q'|] eqn:E; [|discriminate].
  intros H. injection H as <-. exact (float_of_string_nonneg s q' E (digits_no_minus _ Hd)).
Qed.

Lemma int_of_digits_nonneg s :
  Forall (fun c => is_digit c = true) (list_ascii_of_string s) -> 0 <= inject_Z (int_of_digits s).
Proof.
  intros Hd. unfold int_of_digits. change 0 with (inject_Z 0). rewrite <- Zle_Qle.
  apply digits_val_nonneg; [lia | exact Hd].
Qed.

Lemma row_item_nonneg idx pat c line mo it :
  nth_error row_patterns idx = Some pat -> Re.compile pat = Ret c ->
  Re.try_at Re.IGNORECASE (fst c) (list_ascii_of_string line) 0 = Some mo ->
  row_item idx mo = Ret it -> 0 <= price it /\ 0 <= quantity it.
Proof.
  intros Hp Hc Ht.
  pose proof (row_pattern_caps idx pat c Hp Hc) as Hcaps.
  assert (G : forall n, n <> 0%nat ->
            Forall (row_caps (if Nat.eqb idx 0 then 5 else 4) n)
                   (list_ascii_of_string (Re.group_or_empty mo n)))
    by (intros n Hn; exact (try_at_group _ _ _ _ _ _ _ Hcaps Ht Hn)).
  assert (Hq : 0 <= inject_Z (int_of_digits (Re.group_or_empty mo 1))).
  { apply int_of_digits_nonneg. eapply Forall_impl; [|exact (G 1%nat ltac:(discriminate))].
    intros a [Ha _]. exact (Ha eq_refl). }
  assert (Hpr : forall pg, pg = (if Nat.eqb idx 0 then 5 else 4)%nat -> forall q,
            float_or_raise (Re.group_or_empty mo pg) = Ret q -> 0 <= q).
  { intros pg Hpg q. apply float_or_raise_nonneg.
    eapply Forall_impl; [|exact (G pg ltac:(destruct (Nat.eqb idx 0); subst; discriminate))].
    intros a [_ Ha]. exact (Ha Hpg). }
  unfold row_item. cbv zeta.
  destruct (Nat.eqb idx 0) eqn:Ei.
  - destruct (float_or_raise (Re.group_or_empty mo 5)) as [pr|e] eqn:Ef; [|discriminate].
    cbn [exc_bind].
    destruct (Re.sub _ _ _ _) as [fn|e]; [|discriminate]. cbn [exc_bind].
    intros H. injection H as <-. simpl. split; [exact (Hpr 5%nat eq_refl pr Ef) | exact Hq].
  - destruct (float_or_raise (Re.group_or_empty mo 4)) as [pr|e] eqn:Ef; [|discriminate].
    cbn [exc_bind].
    destruct (Re.sub _ _ _ _) as [fn|e]; [|discriminate]. cbn [exc_bind].
    intros H. injection H as <-. simpl. split; [exact (Hpr 4%nat eq_refl pr Ef) | exact Hq].
Qed.

Lemma search_try pat s fl m :
  Re.search pat s fl = Ret (Some m) ->
  exists c q, Re.compile pat = Ret c /\ Re.try_at fl (fst c) (list_ascii_of_string s) q = Some m.
Proof.
  unfold Re.search. destruct (Re.compile pat) as [c|e]; cbn [exc_bind]; [|discriminate].
  intros H. injection H as H. destruct (search_from_try _ _ _ _ _ _ H) as [q Hq].
  exists c, q. split; [reflexivity | exact Hq].
Qed.

Lemma rmatch_try pat s fl m :
  Re.rmatch pat s fl = Ret (Some m) ->
  exists c, Re.compile pat = Ret c /\ Re.try_at fl (fst c) (list_ascii_of_string s) 0 = Some m.
Proof.
  unfold Re.rmatch. destruct (Re.compile pat) as [c|e]; cbn [exc_bind]; [|discriminate].
  intros H. injection H as H. exists c. split; [reflexivity | exact H].
Qed.

Lemma try_row_patterns_nonneg line pats : forall idx it,
  (forall j p, nth_error pats j = Some p -> nth_error row_patterns (idx + j) = Some p) ->
  try_row_patterns idx pats line = Ret (Some it) -> 0 <= price it /\ 0 <= quantity it.
Proof.
  induction pats as [|p tl IH]; intros idx it Hp; simpl; [discriminate|].
  destruct (Re.rmatch p line Re.IGNORECASE) as [[mo|]|e] eqn:Hm; cbn [exc_bind]; try discriminate.
  - destruct (row_item idx mo) as [it'|e] eqn:Hi; cbn [exc_bind]; [|discriminate].
    intros H. injection H as <-.
    destruct (rmatch_try _ _ _ _ Hm) as [c [Hc Ht]].
    specialize (Hp 0%nat p eq_refl). rewrite Nat.add_0_r in Hp.
    exact (row_item_nonneg idx p c line mo it' Hp Hc Ht Hi).
  - apply IH. intros j p' Hj. replace (S idx + j)%nat with (idx + S j)%nat by lia. exact (Hp (S j) p' Hj).
Qed.

Lemma fallback_price_caps c :
  Re.compile "\$([0-9]+\.?[0-9]*)" = Ret c ->
  re_caps (fun _ ch => is_digit ch = true \/ ch = "."%char) Re.NOFLAG (fst c).
Proof. intros Hc. vm_compute in Hc. injection Hc as <-. simpl. caps_leaves. Qed.

Lemma fallback_qty_caps c :
  Re.compile "^(\d+)" = Ret c -> re_caps (row_caps 0) Re.NOFLAG (fst c).
Proof. intros Hc. vm_compute in Hc. injection Hc as <-. simpl. caps_leaves. Qed.

Lemma row_fallback_nonneg line it :
  row_fallback line = Ret (Some it) -> 0 <= price it /\ 0 <= quantity it.
Proof.
  unfold row_fallback.
  destruct (Re.search "\$([0-9]+\.?[0-9]*)" line Re.NOFLAG) as [[pm|]|e] eqn:Hs;
    cbn [exc_bind]; try discriminate.
  destruct (float_or_raise (Re.group_or_empty pm 1)) as [pr|e] eqn:Hpr; cbn [exc_bind]; [|discriminate].
  assert (Hp : 0 <= pr).
  { destruct (search_try _ _ _ _ Hs) as [c [q [Hc Ht]]].
    apply (float_or_raise_nonneg _ _ (try_at_group _ _ _ _ _ _ 1%nat (fallback_price_caps c Hc) Ht
                                        ltac:(discriminate)) Hpr). }
  destruct (Re.search "^(\d+)" (strip line) Re.NOFLAG) as [qm|e] eqn:Hqs; cbn [exc_bind]; [|discriminate].
  match goal with |- exc_bind ?m _ = _ -> _ => destruct m as [qty|e] eqn:Hq end;
    cbn [exc_bind]; [|discriminate].
  assert (Hqty : 0 <= qty).
  { destruct qm as [qm|].
    - destruct (search_try _ _ _ _ Hqs) as [c [q [Hc Ht]]].
      apply (float_or_raise_nonneg (Re.group_or_empty qm 1)); [|exact Hq].
      eapply Forall_impl; [|exact (try_at_group _ _ _ _ _ _ 1%nat (fallback_qty_caps c Hc) Ht
                                    ltac:(discriminate))].
      intros a [Ha _]. left. exact (Ha eq_refl).
    - injection Hq as <-. discriminate. }
  match goal with |- exc_bind ?m _ = _ -> _ => destruct m as [um|e] end; cbn [exc_bind]; [|discriminate].
  match goal with |- exc_bind ?m _ = _ -> _ => destruct m as [nm|e] end; cbn [exc_bind]; [|discriminate].
  match goal with |- (if ?b then _ else _) = _ -> _ => destruct b end; [|discriminate].
  intros H. injection H as <-. simpl. split; assumption.
Qed.

Lemma parse_table_row_nonneg line it :
  parse_table_row line = Ret (Some it) -> 0 <= price it /\ 0 <= quantity it.
Proof.
  unfold parse_table_row.
  destruct (try_row_patterns 0 row_patterns line) as [[it'|]|e] eqn:Ht; cbn [exc_bind]; try discriminate.
  - intros H. injection H as <-. apply (try_row_patterns_nonneg line row_patterns 0 it'); [|exact Ht].
    intros j p Hj. exact Hj.
  - apply row_fallback_nonneg.
Qed.

Lemma table_rows_nonneg lines : forall items,
  table_rows lines = Ret items -> Forall (fun it => 0 <= price it /\ 0 <= quantity it) items.
Proof.
  induction lines as [|l tl IH]; intros items; simpl.
  - intros H. injection H as <-. constructor.
  - match goal with |- (if ?b then _ else _) = _ -> _ => destruct b end;
      [intros H; injection H as <-; constructor|].
    match goal with |- (if ?b then _ else _) = _ -> _ => destruct b end; [apply IH|].
    destruct (parse_table_row (strip l)) as [o|e] eqn:Hp; cbn [exc_bind]; [|discriminate].
    destruct (table_rows tl) as [rest|e] eqn:Hr; cbn [exc_bind]; [|discriminate].
    specialize (IH rest eq_refl).
    destruct o as [it|]; intros H; injection H as <-; [|exact IH].
    constructor; [exact (parse_table_row_nonneg _ _ Hp) | exact IH].
Qed.

End RowFacts.

(** Every item extracted by [ImprovedInvoiceParser.parse_invoice] has a
    price and a quantity that are not negative: the row patterns and the
    fallback read them from digit-only groups ([\d+], [[0-9]+\.?[0-9]*]),
    or the quantity defaults to 1. *)
Theorem table_items_nonneg (text : string) (items : list ImprovedInvoiceParser.ExtractedItem) :
  ImprovedInvoiceParser.parse_invoice_items text = Ret items ->
  Forall (fun it => (0 <= ImprovedInvoiceParser.price it)%Q /\ (0 <= ImprovedInvoiceParser.quantity it)%Q) items.
Proof.
  unfold ImprovedInvoiceParser.parse_invoice_items.
  destruct (String.eqb text ""); [intros H; injection H as <-; constructor|].
  destruct (ImprovedInvoiceParser.clean_text text) as [t|e]; cbn [exc_bind]; [|discriminate].
  unfold ImprovedInvoiceParser.extract_table_items.
  match goal with |- exc_bind ?m _ = _ -> _ => destruct m as [lines|e] end; cbn [exc_bind]; [|discriminate].
  match goal with |- exc_bind ?m _ = _ -> _ => destruct m as [[i|]|e] end; cbn [exc_bind]; try discriminate.
  - apply table_rows_nonneg.
  - intros H. injection H as <-. constructor.
Qed.

Lemma table_items_nonneg_witness :
  exists items, ImprovedInvoiceParser.parse_invoice_items "2 lb Organic Kale $3.50" = Ret items /\
  Forall (fun it => (0 <= ImprovedInvoiceParser.price it)%Q /\ (0 <= ImprovedInvoiceParser.quantity it)%Q) items.
Proof.
  eexists. split.
  - vm_compute. reflexivity.
  - apply (table_items_nonneg "2 lb Organic Kale $3.50"). vm_compute. reflexivity.
Defined.

(** Because [_clean_text] leaves a single line, a text whose cleaned form
    has at most 500 characters (so that [_split_ocr_line_by_items] is not
    tried) yields no items at all as soon as that line is a table header
    (the rows would start at the next line, which does not exist) or
    contains one of the stop words "subtotal", "tax", "delivery", "total"
    (case-insensitively). *)
Theorem short_text_no_items (text t : string) :
  ImprovedInvoiceParser.clean_text text = Ret t ->
  (slen t <= 500)%nat ->
  (ImprovedInvoiceParser.is_header t = true \/
   existsb (fun w => contains (str_lower (strip t)) w) ImprovedInvoiceParser.stop_words = true) ->
  ImprovedInvoiceParser.parse_invoice_items text = Ret [].
Proof.
  intros Hc Hlen Hh.
  destruct (clean_text_spec text) as [t' [Hc' [_ [_ Hp]]]].
  rewrite Hc in Hc'. injection Hc' as <-. rewrite Hp.
  destruct (String.eqb text ""); [reflexivity|].
  unfold ImprovedInvoiceParser.extract_table_items.
  assert (E500 : (500 <? slen t)%nat = false) by (apply Nat.ltb_ge; exact Hlen).
  rewrite E500. cbn [exc_bind].
  simpl ImprovedInvoiceParser.find_header.
  destruct (ImprovedInvoiceParser.is_header t) eqn:Eh; cbn [exc_bind].
  - reflexivity.
  - destruct Hh as [Hh|Hs]; [discriminate|].
    simpl ImprovedInvoiceParser.find_row_start.
    destruct (slen (strip t) <? 10)%nat; [reflexivity|].
    assert (Hl : exists b, ImprovedInvoiceParser.looks_like_table_row (strip t) = Ret b).
    { unfold ImprovedInvoiceParser.looks_like_table_row, Re.rmatch.
      assert (Hcomp : exists c, Re.compile "^\s*\d+\s+[a-zA-Z]+\s+.*\$\d+\.?\d*" = Ret c)
        by (eexists; vm_compute; reflexivity).
      destruct Hcomp as [c Hcomp]. rewrite Hcomp. cbn [exc_bind].
      destruct (Re.try_at _ _ _ _); [eexists; reflexivity|].
      destruct (_ && _); eexists; reflexivity. }
    destruct Hl as [b Hl]. rewrite Hl. cbn [exc_bind].
    destruct b; [|reflexivity].
    cbn [exc_bind skipn ImprovedInvoiceParser.table_rows]. cbv zeta. rewrite Hs. reflexivity.
Qed.

Lemma short_text_no_items_witness :
  let text := "QTY UNIT DESCRIPTION PRICE
2 lb Organic Kale $3.50
Subtotal: $3.50" in
  exists t, ImprovedInvoiceParser.clean_text text = Ret t /\ (slen t <= 500)%nat /\
  ImprovedInvoiceParser.parse_invoice_items text = Ret [].
Proof.
  cbv zeta. eexists. split; [vm_compute; reflexivity|]. split; [vm_compute; lia|].
  apply (short_text_no_items _ "QTY UNIT DESCRIPTION PRICE 2 lb Organic Kale $3.50 Subtotal: $3.50").
  - vm_compute. reflexivity.
  - vm_compute. lia.
  - left. vm_compute. reflexivity.
Defined.
